(** * BK5000 frame decoder: a shallow embedding of [sksurgerybk/interface/bk5000.py]

    The Python class [BK5000] keeps the received TCP bytes in a [bytearray]
    ([self.buffer]) and scans them through a numpy [uint8] view of the same
    storage ([self.np_buffer]).  Bytes and indices are integers ([Z]); Python
    lists, bytearrays and one-dimensional numpy arrays are [list Z]; a raised
    exception is the [Raise] outcome of [result].

    The class resizes the bytearray while a view of it exists.  The model
    follows the numpy the class was written for, whose [frombuffer] keeps no
    export of the bytearray, so the resize goes through; a view is read only
    before the next resize ([receive_image] makes a new one on entry).  The
    frame pipeline is modelled on the attributes it reads ([BK5000]); the
    command channel and [get_frame] are modelled on the whole object
    ([Client]) with the socket as the transport's state.  The logging calls
    are left out. *)

From Stdlib Require Import ZArith Lia String Ascii.
From stdpp Require Import base tactics option list.

Local Open Scope Z_scope.

(** ** Exceptions and results *)

Inductive exn : Type :=
  | IndexError
  | ValueError
  | TypeError.

Inductive result (A : Type) : Type :=
  | Ok (a : A)
  | Raise (e : exn).

Arguments Ok {A} a.
Arguments Raise {A} e.

#[global] Instance result_ret : MRet result := fun A a => Ok a.
#[global] Instance result_bind : MBind result := fun A B f m =>
  match m with
  | Ok a => f a
  | Raise e => Raise e
  end.

Fixpoint result_mapM {A B : Type} (f : A → result B) (l : list A) : result (list B) :=
  match l with
  | [] => Ok []
  | x :: tl => y ← f x; ys ← result_mapM f tl; Ok (y :: ys)
  end.

(** ** Python and numpy primitives used by the class *)

Module Py.

Definition len {A : Type} (l : list A) : Z := Z.of_nat (length l).

(** [arr[i]] for an integer [i]: a negative index counts from the end, an
    index out of range raises [IndexError]. *)
Definition index (arr : list Z) (i : Z) : result Z :=
  let j := if i <? 0 then i + len arr else i in
  if (0 <=? j) && (j <? len arr) then
    match arr !! Z.to_nat j with
    | Some x => Ok x
    | None => Raise IndexError
    end
  else Raise IndexError.

(** Bound of a slice [arr[start:stop]] (step 1) brought into [0..len]. *)
Definition slice_bound (n i : Z) : Z :=
  if i <? 0 then Z.max (i + n) 0 else Z.min i n.

(** [arr[start:stop]]; never raises. *)
Definition slice {A : Type} (arr : list A) (start stop : Z) : list A :=
  let s := slice_bound (len arr) start in
  let e := slice_bound (len arr) stop in
  drop (Z.to_nat s) (take (Z.to_nat e) arr).

(** [arr[start:]] *)
Definition slice_from {A : Type} (arr : list A) (start : Z) : list A :=
  slice arr start (len arr).

(** [arr[:stop]] *)
Definition slice_to {A : Type} (arr : list A) (stop : Z) : list A :=
  slice arr 0 stop.

(** [del arr[start:stop]] *)
Definition del_slice {A : Type} (arr : list A) (start stop : Z) : list A :=
  let s := slice_bound (len arr) start in
  let e := slice_bound (len arr) stop in
  if s <? e then take (Z.to_nat s) arr ++ drop (Z.to_nat e) arr else arr.

Fixpoint is_prefix (sub arr : list Z) : bool :=
  match sub, arr with
  | [], _ => true
  | _ :: _, [] => false
  | x :: sub', y :: arr' => (x =? y) && is_prefix sub' arr'
  end.

Fixpoint find_at (sub arr : list Z) (i : Z) : Z :=
  if is_prefix sub arr then i
  else match arr with
       | [] => -1
       | _ :: tl => find_at sub tl (i + 1)
       end.

(** [arr.find(sub, start)]: lowest index at or after [start] where [sub]
    occurs, [-1] when there is none. *)
Definition find (arr sub : list Z) (start : Z) : Z :=
  let s := if start <? 0 then Z.max (start + len arr) 0 else start in
  if len arr <? s then -1 else find_at sub (drop (Z.to_nat s) arr) s.

End Py.

Module Np.

Fixpoint where_from (P : Z → bool) (i : Z) (arr : list Z) : list Z :=
  match arr with
  | [] => []
  | x :: tl =>
      if P x then i :: where_from P (i + 1) tl else where_from P (i + 1) tl
  end.

(** [np.where(cond)[0]]: the indices, ascending, of the elements that
    satisfy the condition. *)
Definition where_ (P : Z → bool) (arr : list Z) : list Z := where_from P 0 arr.

(** [arr[idx]] for an integer index array [idx]: each index is resolved as
    by [Py.index]; one index out of bounds raises [IndexError]. *)
Definition take_idx (arr idx : list Z) : result (list Z) :=
  result_mapM (Py.index arr) idx.

(** [arr[idx] = vals], element by element, in order. *)
Fixpoint put_idx (arr idx vals : list Z) : result (list Z) :=
  match idx, vals with
  | i :: idx', v :: vals' =>
      let j := if i <? 0 then i + Py.len arr else i in
      if (0 <=? j) && (j <? Py.len arr)
      then put_idx (<[Z.to_nat j := v]> arr) idx' vals'
      else Raise IndexError
  | _, _ => Ok arr
  end.

Fixpoint delete_from (i : Z) (arr : list Z) (idx : list Z) : list Z :=
  match arr with
  | [] => []
  | x :: tl =>
      if bool_decide (i ∈ idx) then delete_from (i + 1) tl idx
      else x :: delete_from (i + 1) tl idx
  end.

(** [np.delete(arr, idx)]: a new array without the elements at the given
    indices; an index out of bounds raises [IndexError]. *)
Definition delete (arr idx : list Z) : result (list Z) :=
  let n := Py.len arr in
  if forallb (fun i => (- n <=? i) && (i <? n)) idx then
    Ok (delete_from 0 arr (map (fun i => if i <? 0 then i + n else i) idx))
  else Raise IndexError.

(** [arr.reshape(r, c)] of a one-dimensional array, as a list of rows.  A
    negative dimension is the one numpy infers from the size; two of them,
    or a size the known dimension does not divide, raise [ValueError]. *)
Fixpoint rows_of (r : nat) (c : nat) (arr : list Z) : list (list Z) :=
  match r with
  | O => []
  | S r' => take c arr :: rows_of r' c (drop c arr)
  end.

Definition reshape (arr : list Z) (r c : Z) : result (list (list Z)) :=
  let n := Py.len arr in
  if (0 <=? r) && (0 <=? c) then
    if r * c =? n then Ok (rows_of (Z.to_nat r) (Z.to_nat c) arr)
    else Raise ValueError
  else if (r <? 0) && (c <? 0) then Raise ValueError
  else
    let known := if r <? 0 then c else r in
    if (known =? 0) || negb (n mod known =? 0) then Raise ValueError
    else
      let r' := if r <? 0 then n / known else r in
      let c' := if c <? 0 then n / known else c in
      Ok (rows_of (Z.to_nat r') (Z.to_nat c') arr).

End Np.

(** ** [find_first_a_not_preceded_by_b]

    The method reads [self.np_buffer] and changes nothing; the array it reads
    is the first argument here. *)

Definition find_first_a_not_preceded_by_b
    (np_buffer : list Z) (start_pos a b : Z) : result Z :=
  let trimmed_buffer := Py.slice_from np_buffer start_pos in
  x0 ← Py.index trimmed_buffer 0;
  if x0 =? a then Ok 0
  else
    let a_idx := Np.where_ (fun x => x =? a) trimmed_buffer in
    prev ← Np.take_idx trimmed_buffer (map (fun i => i - 1) a_idx);
    let not_b_idx := Np.where_ (fun x => negb (x =? b)) prev in
    if 0 <? Py.len not_b_idx then
      first_a_not_preceded_by_b_idx ← Np.take_idx a_idx not_b_idx;
      f0 ← Py.index first_a_not_preceded_by_b_idx 0;
      Ok (start_pos + f0)
    else Ok (-1).

(** ** The object state

    [self.np_buffer] is a numpy array made by [np.frombuffer(self.buffer)]
    and later narrowed by basic slicing.  Both are views: they own no bytes
    and name a window (offset and length) of the bytearray's storage, so a
    write through the array is a write to [self.buffer]. *)

Record view : Type := mkView { v_off : nat; v_len : nat }.

Record BK5000 : Type := mkBK5000 {
  buffer : list Z;
  np_buffer : option view;
  img : option (list (list Z));
  image_size : list Z;
  pixels_in_image : Z
}.

(** [__init__] *)
Definition init : BK5000 :=
  {| buffer := []; np_buffer := None; img := None;
     image_size := [0; 0]; pixels_in_image := 0 |}.

Definition set_buffer (b : list Z) (st : BK5000) : BK5000 :=
  {| buffer := b; np_buffer := np_buffer st; img := img st;
     image_size := image_size st; pixels_in_image := pixels_in_image st |}.

Definition set_np_buffer (v : option view) (st : BK5000) : BK5000 :=
  {| buffer := buffer st; np_buffer := v; img := img st;
     image_size := image_size st; pixels_in_image := pixels_in_image st |}.

Definition set_img (i : option (list (list Z))) (st : BK5000) : BK5000 :=
  {| buffer := buffer st; np_buffer := np_buffer st; img := i;
     image_size := image_size st; pixels_in_image := pixels_in_image st |}.

Definition set_image_size (s : list Z) (st : BK5000) : BK5000 :=
  {| buffer := buffer st; np_buffer := np_buffer st; img := img st;
     image_size := s; pixels_in_image := pixels_in_image st |}.

Definition set_pixels_in_image (p : Z) (st : BK5000) : BK5000 :=
  {| buffer := buffer st; np_buffer := np_buffer st; img := img st;
     image_size := image_size st; pixels_in_image := p |}.

(** [np.frombuffer(buf, dtype=np.uint8)] *)
Definition frombuffer (buf : list Z) : view :=
  {| v_off := 0; v_len := length buf |}.

(** The elements a view shows. *)
Definition view_contents (buf : list Z) (v : view) : list Z :=
  take (v_len v) (drop (v_off v) buf).

(** Basic slicing [arr[start:stop]] of a view gives a view. *)
Definition view_slice (v : view) (start stop : Z) : view :=
  let n := Z.of_nat (v_len v) in
  let s := Py.slice_bound n start in
  let e := Py.slice_bound n stop in
  {| v_off := v_off v + Z.to_nat s; v_len := Z.to_nat (e - s) |}.

(** The storage after the window of [v] has been overwritten with [arr]. *)
Definition view_store (buf : list Z) (v : view) (arr : list Z) : list Z :=
  take (v_off v) buf ++ arr ++ drop (v_off v + v_len v) buf.

(** Methods: state passing with exceptions. *)
Definition M (A : Type) : Type := BK5000 → result A * BK5000.

#[global] Instance M_ret : MRet M := fun A a st => (Ok a, st).
#[global] Instance M_bind : MBind M := fun A B f m st =>
  match m st with
  | (Ok a, st') => f a st'
  | (Raise e, st') => (Raise e, st')
  end.

Definition lift {A : Type} (r : result A) : M A := fun st => (r, st).
Definition gets {A : Type} (f : BK5000 → A) : M A := fun st => (Ok (f st), st).
Definition modify (f : BK5000 → BK5000) : M unit := fun st => (Ok tt, f st).

(** Reading [self.np_buffer] as an array. *)
Definition np_array : M (list Z) := fun st =>
  match np_buffer st with
  | Some v => (Ok (view_contents (buffer st) v), st)
  | None => (Raise TypeError, st)
  end.

(** ** [clear_bytes_in_buffer] *)

Definition clear_bytes_in_buffer (start end_ : Z) : M unit :=
  modify (fun st =>
    let end_ := if Py.len (buffer st) <=? end_ then Py.len (buffer st) else end_ in
    set_buffer (Py.del_slice (buffer st) start end_) st).

(** ** [decode_image] *)

Definition control_bits : list Z := [1; 4; 27].
Definition flipped_control_bits : list Z :=
  map (fun bit => Z.lxor bit 0xFF) control_bits.

Fixpoint collect_escapes (np_buffer uc27_idx : list Z) (bits : list Z)
    (idx_to_del : list Z) : result (list Z) :=
  match bits with
  | [] => Ok idx_to_del
  | bit :: bits' =>
      after ← Np.take_idx np_buffer (map (fun i => i + 1) uc27_idx);
      let idx := Np.where_ (fun x => x =? bit) after in
      hit ← Np.take_idx uc27_idx idx;
      collect_escapes np_buffer uc27_idx bits' (idx_to_del ++ hit)
  end.

(** The body of [decode_image] on the array [self.np_buffer] shows: the
    array after the in-place flip, and the returned copy. *)
Definition decode_image_np (np_buffer : list Z) : result (list Z * list Z) :=
  uc27 ← Py.index control_bits 2;
  let uc27_idx := Np.where_ (fun x => x =? uc27) np_buffer in
  idx_to_del ← collect_escapes np_buffer uc27_idx flipped_control_bits [];
  let following := map (fun i => i + 1) idx_to_del in
  cur ← Np.take_idx np_buffer following;
  flipped ← Np.put_idx np_buffer following (map (fun x => Z.lxor x 0xFF) cur);
  decoded ← Np.delete flipped idx_to_del;
  Ok (flipped, decoded).

Definition decode_image : M (list Z) := fun st =>
  match np_buffer st with
  | None => (Raise TypeError, st)
  | Some v =>
      match decode_image_np (view_contents (buffer st) v) with
      | Ok (flipped, decoded) =>
          (Ok decoded, set_buffer (view_store (buffer st) v flipped) st)
      | Raise e => (Raise e, st)
      end
  end.

(** ** [receive_image] *)

Definition encode_utf8 (s : string) : list Z :=
  map (fun c => Z.of_nat (nat_of_ascii c)) (list_ascii_of_string s).

Definition img_msg : list Z := encode_utf8 "DATA:GRAB_FRAME".
Definition ord (s : string) : Z := default 0 (head (encode_utf8 s)).

(** [result[:self.pixels_in_image].reshape(self.image_size[1], self.image_size[0])] *)
Definition reshape_frame (decoded : list Z) (pixels : Z) (size : list Z)
    : result (list (list Z)) :=
  let cut := Py.slice_to decoded pixels in
  h ← Py.index size 1;
  w ← Py.index size 0;
  Np.reshape cut h w.

(** Lines 325 to 332: the bounds of the image bytes. *)
Definition payload_window (buf : list Z) (msg_start_idx msg_end_idx : Z)
    : result (Z * Z) :=
  let hash_char := Py.find buf (encode_utf8 "#") msg_start_idx in
  let size_of_data_char := hash_char + 1 in
  digit ← Py.index buf size_of_data_char;
  let start_image_char := size_of_data_char + 1 + 4 + digit - ord "0" in
  let end_image_char := msg_end_idx - 2 in
  Ok (start_image_char, end_image_char).

(** Lines 334 to 345: narrow the view, decode, reshape, consume. *)
Definition decode_step (start_image_char end_image_char msg_end_idx : Z) : M bool :=
  modify (fun st =>
    set_np_buffer
      ((fun v => view_slice v start_image_char (end_image_char + 1)) <$> np_buffer st)
      st);;
  decoded ← decode_image;
  pixels ← gets pixels_in_image;
  size ← gets image_size;
  frame ← lift (reshape_frame decoded pixels size);
  modify (set_img (Some frame));;
  clear_bytes_in_buffer 0 (msg_end_idx + 1);;
  mret true.

Definition find_first (start_pos a b : Z) : M Z :=
  arr ← np_array; lift (find_first_a_not_preceded_by_b arr start_pos a b).

Definition receive_image : M bool :=
  modify (fun st => set_np_buffer (Some (frombuffer (buffer st))) st);;
  let valid_frame := false in
  msg_start_idx ← find_first 0 0x01 0x27;
  if msg_start_idx <? 0 then
    modify (set_buffer []);;
    mret valid_frame
  else
    msg_end_idx ← find_first msg_start_idx 0x04 0x27;
    if msg_end_idx <=? msg_start_idx then mret valid_frame
    else
      img_msg_index ← gets (fun st => Py.find (buffer st) img_msg msg_start_idx);
      if negb (negb (img_msg_index =? -1) &&
               ((msg_start_idx <? img_msg_index) && (img_msg_index <? msg_end_idx)))
      then
        clear_bytes_in_buffer 0 (msg_end_idx + 1);;
        mret valid_frame
      else
        buf ← gets buffer;
        '(start_image_char, end_image_char) ←
          lift (payload_window buf msg_start_idx msg_end_idx);
        decode_step start_image_char end_image_char msg_end_idx.

(** ** [parse_win_size_message]

    A Python [str] is its list of characters (code points below 256). *)

Module Str.

Definition str : Type := list ascii.

Definition lit (s : string) : str := list_ascii_of_string s.

Definition code (c : ascii) : Z := Z.of_nat (nat_of_ascii c).

(** [c.isspace()] *)
Definition is_space (c : ascii) : bool :=
  let n := code c in
  ((9 <=? n) && (n <=? 13)) || ((28 <=? n) && (n <=? 32))
  || (n =? 133) || (n =? 160).

Definition is_digit (c : ascii) : bool :=
  let n := code c in (48 <=? n) && (n <=? 57).

(** The fields between separators, empty ones included. *)
Fixpoint fields (sep : ascii → bool) (s : str) : list str :=
  match s with
  | [] => [[]]
  | c :: tl =>
      if sep c then [] :: fields sep tl
      else match fields sep tl with
           | f :: fs => (c :: f) :: fs
           | [] => [[c]]
           end
  end.

(** [s.split()] : runs of whitespace separate, no empty word. *)
Definition split (s : str) : list str :=
  filter (fun w => w ≠ []) (fields is_space s).

(** [s.split(sep)] for a one-character separator. *)
Definition split_on (sep : ascii) (s : str) : list str :=
  fields (fun c => Ascii.eqb c sep) s.

Fixpoint lstrip (p : ascii → bool) (s : str) : str :=
  match s with
  | c :: tl => if p c then lstrip p tl else s
  | [] => []
  end.

(** [s.strip(chars)] *)
Definition strip (p : ascii → bool) (s : str) : str :=
  rev (lstrip p (rev (lstrip p s))).

(** Decimal digits with single underscores between them. *)
Fixpoint digits_val (acc : Z) (after_digit : bool) (s : str) : option Z :=
  match s with
  | [] => if after_digit then Some acc else None
  | c :: tl =>
      if is_digit c then digits_val (10 * acc + (code c - 48)) true tl
      else if Ascii.eqb c "_" && after_digit
      then digits_val acc false tl
      else None
  end.

(** [int(s)] *)
Definition int (s : str) : result Z :=
  let body := strip is_space s in
  let '(neg, ds) :=
    match body with
    | c :: tl =>
        if Ascii.eqb c "-" then (true, tl)
        else if Ascii.eqb c "+" then (false, tl)
        else (false, body)
    | [] => (false, body)
    end in
  match digits_val 0 false ds with
  | Some v => Ok (if neg then - v else v)
  | None => Raise ValueError
  end.

Definition digit_char (d : Z) : ascii := ascii_of_nat (Z.to_nat (48 + d)).

Fixpoint digits_of (fuel : nat) (n : Z) : str :=
  match fuel with
  | O => []
  | S fuel' =>
      if n <? 10 then [digit_char n]
      else digits_of fuel' (n / 10) ++ [digit_char (n mod 10)]
  end.

(** [str(n)] for an integer [n], the text the scanner sends for a size. *)
Definition of_int (n : Z) : str :=
  let m := Z.abs n in
  let ds := digits_of (S (Z.to_nat (Z.log2 m))) m in
  if n <? 0 then "-"%char :: ds else ds.

(** [l[-1]] *)
Definition last_item (l : list str) : result str :=
  match last l with
  | Some x => Ok x
  | None => Raise IndexError
  end.

(** Characters of a printed integer: a digit or the minus sign. *)
Definition num_char (c : ascii) : bool := is_digit c || Ascii.eqb c "-".

(** Value of a digit string read left to right. *)
Definition horner (ds : str) (acc : Z) : Z :=
  fold_left (fun a c => 10 * a + (code c - 48)) ds acc.

End Str.

Definition parse_win_size_message (message : Str.str) : M unit :=
  word ← lift (Str.last_item (Str.split message));
  let dim_part_of_message :=
    Str.split_on "," (Str.strip (fun c => Ascii.eqb c ";") word) in
  size ← lift (result_mapM Str.int dim_part_of_message);
  modify (set_image_size size);;
  w ← lift (Py.index size 0);
  h ← lift (Py.index size 1);
  modify (set_pixels_in_image (w * h)).

(** ** The operations as the specification words them *)

(** Position [i] of [arr] holds [target] and the byte before it, when there
    is one at or after [from], is not [guard]. *)
Definition unescaped_at (arr : list Z) (from target guard i : Z) : Prop :=
  from ≤ i ∧ arr !! Z.to_nat i = Some target ∧
  (i = from ∨ arr !! Z.to_nat (i - 1) ≠ Some guard).

(** [i] is the first such position. *)
Definition first_unescaped (arr : list Z) (from target guard i : Z) : Prop :=
  unescaped_at arr from target guard i ∧
  ∀ k, k < i → ¬ unescaped_at arr from target guard k.

Definition is_flipped (c : Z) : bool :=
  (c =? 0xFE) || (c =? 0xFB) || (c =? 0xE4).

(** Reversal of the byte stuffing: each [0x1B] followed by a flipped control
    value is dropped and the value complemented. *)
Fixpoint unescape (l : list Z) : list Z :=
  match l with
  | [] => []
  | x :: tl =>
      match tl with
      | c :: tl' =>
          if (x =? 0x1B) && is_flipped c then Z.lxor c 0xFF :: unescape tl'
          else x :: unescape tl
      | [] => [x]
      end
  end.

(** Number of escape pairs in a byte sequence. *)
Fixpoint escapes (l : list Z) : nat :=
  match l with
  | [] => O
  | x :: tl =>
      match tl with
      | c :: tl' =>
          if (x =? 0x1B) && is_flipped c then S (escapes tl') else escapes tl
      | [] => O
      end
  end.

(** The scanner's trim of a consumed message, lines 321 and 342:
    [self.clear_bytes_in_buffer(0, msg_end_idx + 1)]. *)
Definition trim_prefix (end_index : Z) : M unit :=
  clear_bytes_in_buffer 0 (end_index + 1).

(** The byte before window position [k], tested against the guard. *)
Definition not_guarded (t : list Z) (b : Z) (k : Z) : bool :=
  negb (default 0 (t !! Z.to_nat (k - 1)) =? b).

(** Window position [k] holds an escape byte: [0x1B] followed by a flipped
    control value. *)
Definition esc_at (arr : list Z) (k : Z) : bool :=
  (0 <=? k) && (default 0 (arr !! Z.to_nat k) =? 0x1B)
  && is_flipped (default 0 (arr !! Z.to_nat (k + 1))).

(** The scanner has located a start marker at [s], an end marker at [e] and
    the image tag between them: [receive_image] reaches its decode step. *)
Definition reaches_decode (buf : list Z) (s e : Z) : Prop :=
  first_unescaped buf 0 0x01 0x27 s ∧
  first_unescaped buf s 0x04 0x27 e ∧
  s < Py.find buf img_msg s < e.

(** The state once [receive_image] has renewed its numpy view (line 288). *)
Definition scanning (st : BK5000) : BK5000 :=
  set_np_buffer (Some (frombuffer (buffer st))) st.

(** An image message laid out as [receive_image] reads it: start marker, tag,
    ['#'], a length-of-length digit, four sub-header bytes, one length digit,
    the stuffed payload, one trailing byte and the end marker. *)
Definition image_message (payload : list Z) : list Z :=
  [0x01] ++ img_msg ++ encode_utf8 "#1" ++ [0; 0; 0; 0] ++ encode_utf8 "4"
  ++ payload ++ [0x00; 0x04].

(** A session with the given geometry and received bytes. *)
Definition session (w h : Z) (buf : list Z) : BK5000 :=
  {| buffer := buf; np_buffer := None; img := None;
     image_size := [w; h]; pixels_in_image := w * h |}.

(** [self.buffer.extend(data)] *)
Definition extend (data : list Z) : M unit :=
  modify (fun st => set_buffer (buffer st ++ data) st).

(** Bytes arriving one at a time, with [receive_image] tried after each:
    the outcomes in order and the final state. *)
Fixpoint feed (data : list Z) (st : BK5000) : list (result bool) * BK5000 :=
  match data with
  | [] => ([], st)
  | b :: rest =>
      let '(outcome, st1) := (extend [b];; receive_image) st in
      let '(outcomes, st2) := feed rest st1 in
      (outcome :: outcomes, st2)
  end.

(** ** The command channel and the client

    The rest of the class talks to the scanner through [self.socket].  The
    socket is the transport's: here it is a state with what the peer will do
    next, the arrivals a [recv] meets and the uptake a [send] meets.  Under
    Python 3 [IOError], [socket.error] and the base of [socket.timeout] are
    one class, [OSError]: that is [IOError] below. *)

Inductive error : Type :=
  | IOError
  | OverflowError
  | UnicodeDecodeError
  | AttributeError
  | PyError (e : exn).

(** How a call ends.  [Beyond] is a text with a character above U+00FF,
    which the [str] of this development does not hold: the run is not
    followed further. *)
Inductive ending (A : Type) : Type :=
  | Returns (a : A)
  | Raises (e : error)
  | Beyond.

Arguments Returns {A} a.
Arguments Raises {A} e.
Arguments Beyond {A}.

(** What the next [recv] meets: bytes that have arrived (none: the peer has
    closed), or a failure (time-out, reset). *)
Inductive arrival : Type :=
  | Arrives (bs : list Z)
  | Breaks.

(** What the next [send] meets: room for [n] bytes, or a failure. *)
Inductive uptake : Type :=
  | Takes (n : Z)
  | Refuses.

(** What the next [connect] meets: the host of the address is not found,
    the connect fails (refused, timed out, already connected), or it goes
    through. *)
Inductive answer : Type :=
  | Unresolved
  | Fails
  | Connects.

Record socket : Type := mkSocket {
  closed : bool;
  connected : bool;
  answers : list answer;
  sent : list (list Z);
  outgoing : list uptake;
  incoming : list arrival
}.

Module Sock.

Definition usable (s : socket) : bool := negb (closed s) && connected s.

(** [socket.send(data)]: the number of bytes taken.  With no uptake listed
    the whole of [data] is taken. *)
Definition send (data : list Z) (s : socket) : ending Z * socket :=
  if negb (usable s) then (Raises IOError, s)
  else match outgoing s with
       | [] =>
           (Returns (Py.len data),
            mkSocket (closed s) (connected s) (answers s)
              (sent s ++ [data]) [] (incoming s))
       | Takes n :: rest =>
           let k := Z.max 0 (Z.min n (Py.len data)) in
           (Returns k,
            mkSocket (closed s) (connected s) (answers s)
              (sent s ++ [take (Z.to_nat k) data]) rest (incoming s))
       | Refuses :: rest =>
           (Raises IOError,
            mkSocket (closed s) (connected s) (answers s)
              (sent s) rest (incoming s))
       end.

(** [socket.recv(bufsize)]: at most [bufsize] of the bytes that have
    arrived; [b''] once the peer has closed, and from then on; a time-out
    when nothing is listed. *)
Definition recv (bufsize : Z) (s : socket) : ending (list Z) * socket :=
  if bufsize <? 0 then (Raises (PyError ValueError), s)
  else if negb (usable s) then (Raises IOError, s)
  else match incoming s with
       | [] => (Raises IOError, s)
       | Breaks :: rest =>
           (Raises IOError,
            mkSocket (closed s) (connected s) (answers s)
              (sent s) (outgoing s) rest)
       | Arrives bs :: rest =>
           (Returns (take (Z.to_nat bufsize) bs),
            mkSocket (closed s) (connected s) (answers s)
              (sent s) (outgoing s)
              (match bs with
               | [] => Arrives [] :: rest
               | _ :: _ =>
                   if Py.len bs <=? bufsize then rest
                   else Arrives (drop (Z.to_nat bufsize) bs) :: rest
               end))
       end.

(** [socket.close()] *)
Definition close (s : socket) : socket :=
  mkSocket true (connected s) (answers s) (sent s) (outgoing s) (incoming s).

(** [socket.connect((address, port))].  The host is resolved first, then
    the port is checked, then the connect is made: a host that is not found
    raises [gaierror], an [OSError], whatever the port and whatever the state
    of the socket.  Each call uses up one listed answer; with none listed
    the host is found and the connect fails. *)
Definition connect (address : list ascii) (port : Z) (s : socket) : ending unit * socket :=
  let met := head (answers s) in
  let rest := tail (answers s) in
  let s' := mkSocket (closed s) (connected s) rest (sent s) (outgoing s) (incoming s) in
  match met with
  | Some Unresolved => (Raises IOError, s')
  | _ =>
      if (port <? 0) || (65535 <? port) then (Raises OverflowError, s')
      else if closed s then (Raises IOError, s')
      else match met with
           | Some Connects =>
               (Returns tt,
                mkSocket (closed s) true rest (sent s) (outgoing s) (incoming s))
           | _ => (Raises IOError, s')
           end
  end.

End Sock.

(** The object with the attributes the frame pipeline does not read. *)
Record Client : Type := mkClient {
  bk : BK5000;
  data : option (list Z);
  frames_per_second : Z;
  packet_size : Z;
  minimum_size : option Z;
  request_stop_streaming : bool;
  is_streaming : bool;
  valid_frame : bool;
  sock : socket
}.

(** [__init__], on a socket yet to be connected. *)
Definition new_client (frames_per_second : Z) (s : socket) : Client :=
  {| bk := init; data := None; frames_per_second := frames_per_second;
     packet_size := 1024; minimum_size := None;
     request_stop_streaming := false; is_streaming := false;
     valid_frame := false; sock := s |}.

Definition set_bk (b : BK5000) (s : Client) : Client :=
  mkClient b (data s) (frames_per_second s) (packet_size s) (minimum_size s)
    (request_stop_streaming s) (is_streaming s) (valid_frame s) (sock s).

Definition set_data (d : option (list Z)) (s : Client) : Client :=
  mkClient (bk s) d (frames_per_second s) (packet_size s) (minimum_size s)
    (request_stop_streaming s) (is_streaming s) (valid_frame s) (sock s).

Definition set_minimum_size (m : option Z) (s : Client) : Client :=
  mkClient (bk s) (data s) (frames_per_second s) (packet_size s) m
    (request_stop_streaming s) (is_streaming s) (valid_frame s) (sock s).

Definition set_request_stop_streaming (b : bool) (s : Client) : Client :=
  mkClient (bk s) (data s) (frames_per_second s) (packet_size s) (minimum_size s)
    b (is_streaming s) (valid_frame s) (sock s).

Definition set_is_streaming (b : bool) (s : Client) : Client :=
  mkClient (bk s) (data s) (frames_per_second s) (packet_size s) (minimum_size s)
    (request_stop_streaming s) b (valid_frame s) (sock s).

Definition set_valid_frame (b : bool) (s : Client) : Client :=
  mkClient (bk s) (data s) (frames_per_second s) (packet_size s) (minimum_size s)
    (request_stop_streaming s) (is_streaming s) b (sock s).

Definition set_sock (k : socket) (s : Client) : Client :=
  mkClient (bk s) (data s) (frames_per_second s) (packet_size s) (minimum_size s)
    (request_stop_streaming s) (is_streaming s) (valid_frame s) k.

(** Methods of the client. *)
Definition Act (A : Type) : Type := Client → ending A * Client.

#[global] Instance Act_ret : MRet Act := fun A a s => (Returns a, s).
#[global] Instance Act_bind : MBind Act := fun A B f m s =>
  match m s with
  | (Returns a, s') => f a s'
  | (Raises e, s') => (Raises e, s')
  | (Beyond, s') => (Beyond, s')
  end.

Definition raise {A : Type} (e : error) : Act A := fun s => (Raises e, s).
Definition reads {A : Type} (f : Client → A) : Act A := fun s => (Returns (f s), s).
Definition writes (f : Client → Client) : Act unit := fun s => (Returns tt, f s).

(** A call on [self.socket]. *)
Definition on_socket {A : Type} (op : socket → ending A * socket) : Act A := fun s =>
  let '(r, k) := op (sock s) in (r, set_sock k s).

(** A method of the frame pipeline, run on its attributes. *)
Definition on_bk {A : Type} (m : M A) : Act A := fun s =>
  let '(r, b) := m (bk s) in
  (match r with Ok a => Returns a | Raise e => Raises (PyError e) end, set_bk b s).

(** [try: body except: handler]: a bare [except] takes every exception. *)
Definition try_except {A : Type} (body handler : Act A) : Act A := fun s =>
  match body s with
  | (Raises _, s') => handler s'
  | other => other
  end.

(** *** Text and bytes *)

Module Utf8.

(** [s.encode()] of a [str] with characters up to U+00FF. *)
Definition encode (s : Str.str) : list Z :=
  flat_map (fun c =>
    let n := Str.code c in
    if n <? 0x80 then [n] else [0xC0 + n / 64; 0x80 + n mod 64]) s.

Definition continues (c : Z) : bool := (0x80 <=? c) && (c <=? 0xBF).

(** [b.decode()], strict: the code points, or nothing where Python raises
    [UnicodeDecodeError]. *)
Fixpoint decode (bs : list Z) : option (list Z) :=
  match bs with
  | [] => Some []
  | b :: tl =>
      if b <? 0x80 then cons b <$> decode tl
      else if (0xC2 <=? b) && (b <=? 0xDF) then
        match tl with
        | c1 :: tl1 =>
            if continues c1
            then cons ((b - 0xC0) * 64 + (c1 - 0x80)) <$> decode tl1
            else None
        | [] => None
        end
      else if (0xE0 <=? b) && (b <=? 0xEF) then
        match tl with
        | c1 :: tl1 =>
            match tl1 with
            | c2 :: tl2 =>
                if continues c1 && continues c2
                   && negb ((b =? 0xE0) && (c1 <? 0xA0))
                   && negb ((b =? 0xED) && (0xA0 <=? c1))
                then cons ((b - 0xE0) * 4096 + (c1 - 0x80) * 64 + (c2 - 0x80))
                       <$> decode tl2
                else None
            | [] => None
            end
        | [] => None
        end
      else if (0xF0 <=? b) && (b <=? 0xF4) then
        match tl with
        | c1 :: tl1 =>
            match tl1 with
            | c2 :: tl2 =>
                match tl2 with
                | c3 :: tl3 =>
                    if continues c1 && continues c2 && continues c3
                       && negb ((b =? 0xF0) && (c1 <? 0x90))
                       && negb ((b =? 0xF4) && (0x90 <=? c1))
                    then cons ((b - 0xF0) * 262144 + (c1 - 0x80) * 4096
                               + (c2 - 0x80) * 64 + (c3 - 0x80))
                           <$> decode tl3
                    else None
                | [] => None
                end
            | [] => None
            end
        | [] => None
        end
      else None
  end.

(** The decoded text as a [str], when every character is within U+00FF. *)
Definition text (code_points : list Z) : option Str.str :=
  if forallb (fun n => n <? 256) code_points
  then Some (map (fun n => ascii_of_nat (Z.to_nat n)) code_points)
  else None.

End Utf8.

(** [self.data.decode()] of the bytes kept by [receive_response_message]. *)
Definition decode_data : Act Str.str := fun s =>
  match data s with
  | None => (Raises AttributeError, s)
  | Some bs =>
      match Utf8.decode bs with
      | None => (Raises UnicodeDecodeError, s)
      | Some code_points =>
          match Utf8.text code_points with
          | Some t => (Returns t, s)
          | None => (Beyond, s)
          end
      end
  end.

(** *** The methods *)

Definition char_start : Str.str := ["001"%char].
Definition char_end : Str.str := ["004"%char].
Definition dquote : ascii := "034"%char.

Definition generate_command_message (message : Str.str) : Str.str :=
  let message_to_send := char_start ++ message ++ char_end in
  message_to_send.

Definition send_command_message (message : Str.str) : Act bool :=
  let message_to_send := generate_command_message message in
  bytes_sent ← on_socket (Sock.send (Utf8.encode message_to_send));
  let is_ok := true in
  if negb (bytes_sent =? Py.len message_to_send) then raise IOError
  else mret is_ok.

Definition receive_response_message (expected_size : Z) : Act bool :=
  let actual_size := expected_size + 2 in
  data_with_terminators ← on_socket (Sock.recv actual_size);
  writes (set_data (Some (Py.slice data_with_terminators 1 (-1))));;
  kept ← reads (fun s => default [] (data s));
  let is_ok := true in
  if expected_size <? Py.len kept then raise IOError
  else mret is_ok.

Definition request_stop : Act unit :=
  writes (set_request_stop_streaming true).

Definition disconnect_from_host : Act unit :=
  try_except
    (size ← reads packet_size;
     on_socket (Sock.recv size);;
     on_socket (fun k => (Returns tt, Sock.close k)))
    (mret tt).

Definition grab_frame_message (switch : Str.str) (fps : Z) : Str.str :=
  Str.lit "QUERY:GRAB_FRAME " ++ [dquote] ++ switch ++ [dquote] ++ Str.lit ","
  ++ Str.of_int fps ++ Str.lit ";".

Definition stop_streaming : Act unit :=
  fps ← reads frames_per_second;
  let stop_message := grab_frame_message (Str.lit "OFF") fps in
  send_command_message stop_message;;
  receive_response_message 1024;;
  writes (set_is_streaming false);;
  writes (set_request_stop_streaming false).

Definition start_streaming : Act unit :=
  fps ← reads frames_per_second;
  let start_message := grab_frame_message (Str.lit "ON") fps in
  send_command_message start_message;;
  receive_response_message 1024;;
  writes (set_is_streaming true).

Definition connect_to_host (address : Str.str) (port : Z) : Act unit := fun s =>
  match on_socket (Sock.connect address port) s with
  | (Raises IOError, s') =>
      (Raises IOError, set_sock (Sock.close (sock s')) s')
  | other => other
  end.

Definition query_win_size : Act unit :=
  let query_win_size_message := Str.lit "QUERY:US_WIN_SIZE;" in
  send_command_message query_win_size_message;;
  receive_response_message 25;;
  message ← decode_data;
  on_bk (parse_win_size_message message).

(** The inner loop of [get_frame]: read until the buffer holds
    [minimum_size] bytes.  [None] when the turns run out. *)
Fixpoint fill_buffer (turns : nat) (s : Client) : option (ending unit * Client) :=
  match turns with
  | O => None
  | S turns' =>
      match minimum_size s with
      | None => Some (Raises (PyError TypeError), s)
      | Some minimum =>
          if Py.len (buffer (bk s)) <? minimum then
            match on_socket (Sock.recv minimum) s with
            | (Returns chunk, s1) =>
                fill_buffer turns' (on_bk (extend chunk) s1).2
            | (Raises e, s1) => Some (Raises e, s1)
            | (Beyond, s1) => Some (Beyond, s1)
            end
          else Some (Returns tt, s)
      end
  end.

(** The outer loop of [get_frame]. *)
Fixpoint frame_loop (turns : nat) (s : Client) : option (ending unit * Client) :=
  match turns with
  | O => None
  | S turns' =>
      if valid_frame s then Some (Returns tt, s)
      else
        match Py.index (image_size (bk s)) 0 with
        | Raise e => Some (Raises (PyError e), s)
        | Ok w =>
            match Py.index (image_size (bk s)) 1 with
            | Raise e => Some (Raises (PyError e), s)
            | Ok h =>
                match fill_buffer turns' (set_minimum_size (Some (w * h + 22)) s) with
                | None => None
                | Some (Returns _, s1) =>
                    match on_bk receive_image s1 with
                    | (Returns valid, s2) =>
                        if valid then frame_loop turns' (set_valid_frame true s2)
                        else
                          match on_socket (Sock.recv (packet_size s2)) s2 with
                          | (Returns chunk, s3) =>
                              frame_loop turns' (on_bk (extend chunk) s3).2
                          | (Raises e, s3) => Some (Raises e, s3)
                          | (Beyond, s3) => Some (Beyond, s3)
                          end
                    | (Raises e, s2) => Some (Raises e, s2)
                    | (Beyond, s2) => Some (Beyond, s2)
                    end
                | Some (Raises e, s1) => Some (Raises e, s1)
                | Some (Beyond, s1) => Some (Beyond, s1)
                end
            end
        end
  end.

Definition get_frame (turns : nat) (s : Client) : option (ending unit * Client) :=
  frame_loop turns (set_valid_frame false s).

(** The sender's side of the convention the docstring of [decode_image]
    states: a control byte travels as [0x1B] followed by its complement. *)
Definition escape (payload : list Z) : list Z :=
  flat_map (fun x =>
    if (x =? 0x01) || (x =? 0x04) || (x =? 0x1B) then [0x1B; Z.lxor x 0xFF]
    else [x]) payload.

(** The reply to the size query, in the format the docstring of
    [parse_win_size_message] gives. *)
Definition win_size_reply (w h : Z) : Str.str :=
  Str.lit "DATA:US_WIN_SIZE " ++ Str.of_int w ++ Str.lit "," ++ Str.of_int h
  ++ Str.lit ";".

(** An image message in general, as [receive_image] reads it: the start
    byte, the tag, [info] up to the ['#'], the count byte [c], the length
    field and sub-header [field], the stuffed payload, one trailing byte [t]
    and the end byte. *)
Definition frame_message (info : list Z) (c : Z) (field stuffed : list Z) (t : Z)
    : list Z :=
  [0x01] ++ img_msg ++ info ++ encode_utf8 "#" ++ [c] ++ field ++ stuffed
  ++ [t; 0x04].

(** * Properties *)

Section PyFacts.
Context {A : Type}.
Implicit Types (l : list A).

Lemma slice_bound_range n i : 0 ≤ n → 0 ≤ Py.slice_bound n i ≤ n.
Proof. intros Hn. unfold Py.slice_bound. destruct (Z.ltb_spec i 0); lia. Qed.

Lemma slice_bound_in n i : 0 ≤ i ≤ n → Py.slice_bound n i = i.
Proof. intros Hi. unfold Py.slice_bound. destruct (Z.ltb_spec i 0); lia. Qed.

Lemma slice_bound_above n i : 0 ≤ n ≤ i → Py.slice_bound n i = n.
Proof. intros Hi. unfold Py.slice_bound. destruct (Z.ltb_spec i 0); lia. Qed.

Lemma len_nonneg l : 0 ≤ Py.len l.
Proof. unfold Py.len. lia. Qed.

Lemma slice_from_drop l s :
  0 ≤ s → Py.slice_from l s = drop (Z.to_nat s) l.
Proof.
  intros Hs. unfold Py.slice_from, Py.slice.
  rewrite (slice_bound_above _ (Py.len l)) by (pose proof (len_nonneg l); lia).
  unfold Py.len at 2. rewrite Nat2Z.id, firstn_all.
  unfold Py.slice_bound. destruct (Z.ltb_spec s 0); [lia|].
  destruct (Z.min_spec s (Py.len l)) as [[Hlt ->]|[Hge ->]]; [done|].
  unfold Py.len in *. rewrite Nat2Z.id.
  rewrite !drop_ge; [done|lia..].
Qed.

Lemma slice_to_take l n :
  0 ≤ n → Py.slice_to l n = take (Z.to_nat n) l.
Proof.
  intros Hn. unfold Py.slice_to, Py.slice.
  rewrite (slice_bound_in _ 0) by (pose proof (len_nonneg l); lia).
  simpl. rewrite drop_0. unfold Py.slice_bound.
  destruct (Z.ltb_spec n 0); [lia|].
  destruct (Z.min_spec n (Py.len l)) as [[Hlt ->]|[Hge ->]]; [done|].
  unfold Py.len in *. rewrite Nat2Z.id.
  rewrite !take_ge; [done|lia..].
Qed.

Lemma del_slice_prefix l e :
  0 ≤ e ≤ Py.len l → Py.del_slice l 0 e = drop (Z.to_nat e) l.
Proof.
  intros He. unfold Py.del_slice.
  rewrite (slice_bound_in _ 0), (slice_bound_in _ e) by lia.
  destruct (Z.ltb_spec 0 e); [done|].
  by replace e with 0 by lia.
Qed.

End PyFacts.

Lemma index_Ok arr i x :
  0 ≤ i → arr !! Z.to_nat i = Some x → Py.index arr i = Ok x.
Proof.
  intros Hi Hx. unfold Py.index.
  pose proof (lookup_lt_Some _ _ _ Hx) as Hlt.
  destruct (Z.ltb_spec i 0); [lia|].
  rewrite Hx.
  destruct (Z.leb_spec 0 i); [|lia].
  destruct (Z.ltb_spec i (Py.len arr)); [done|]. unfold Py.len in *. lia.
Qed.

Lemma index_out arr i :
  Py.len arr ≤ i → Py.index arr i = Raise IndexError.
Proof.
  intros Hi. unfold Py.index.
  pose proof (len_nonneg arr).
  destruct (Z.ltb_spec i 0); [lia|].
  destruct (Z.ltb_spec i (Py.len arr)); [lia|].
  by rewrite andb_false_r.
Qed.

(** ** numpy index pipelines *)

Lemma take_idx_cons arr i idx :
  Np.take_idx arr (i :: idx) =
  (y ← Py.index arr i; ys ← Np.take_idx arr idx; Ok (y :: ys)).
Proof. reflexivity. Qed.

(** Fancy indexing with indices that are all in range reads the elements. *)
Lemma take_idx_map arr (f : Z → Z) idx :
  Forall (fun i => 0 ≤ i ∧ arr !! Z.to_nat i = Some (f i)) idx →
  Np.take_idx arr idx = Ok (map f idx).
Proof.
  induction 1 as [|i idx [Hi Hx] _ IH]; [done|].
  rewrite take_idx_cons, (index_Ok _ _ _ Hi Hx). simpl.
  by rewrite IH.
Qed.

(** It raises as soon as one index is past the end. *)
Lemma take_idx_out arr idx :
  Forall (fun i => 0 ≤ i) idx →
  Exists (fun i => Py.len arr ≤ i) idx →
  Np.take_idx arr idx = Raise IndexError.
Proof.
  intros Hpos Hex. induction idx as [|i idx IH]; [by inversion Hex|].
  rewrite take_idx_cons. inversion Hpos as [|? ? Hi Hpos']; subst.
  inversion Hex as [? ? Hout|? ? Hex']; subst.
  - by rewrite index_out.
  - unfold Py.index. destruct (Z.ltb_spec i 0); [lia|].
    destruct (_ && _); [|done].
    destruct (arr !! Z.to_nat i); [|done].
    simpl. by rewrite IH.
Qed.

Lemma elem_of_where_from P i l k :
  k ∈ Np.where_from P i l ↔
  i ≤ k ∧ ∃ x, l !! Z.to_nat (k - i) = Some x ∧ P x = true.
Proof.
  revert i. induction l as [|y l IH]; intros i; simpl.
  - split; [by intros ?%elem_of_nil|]. by intros (_ & x & ? & _).
  - assert (Hstep : k ∈ Np.where_from P (i + 1) l ↔
        i < k ∧ ∃ x, (y :: l) !! Z.to_nat (k - i) = Some x ∧ P x = true).
    { rewrite IH. split.
      - intros (Hk & x & Hx & HP). split; [lia|]. exists x. split; [|done].
        replace (Z.to_nat (k - i)) with (S (Z.to_nat (k - (i + 1)))) by lia.
        done.
      - intros (Hk & x & Hx & HP). split; [lia|]. exists x. split; [|done].
        replace (Z.to_nat (k - i)) with (S (Z.to_nat (k - (i + 1)))) in Hx by lia.
        done. }
    destruct (P y) eqn:HPy.
    + rewrite elem_of_cons, Hstep. split.
      * intros [->|(? & ?)]; [|split; [lia|done]].
        split; [lia|]. exists y. by rewrite Z.sub_diag.
      * intros (Hk & x & Hx & HP).
        destruct (decide (k = i)) as [->|]; [by left|].
        right. split; [lia|]. eauto.
    + rewrite Hstep. split.
      * intros (? & ?). split; [lia|done].
      * intros (Hk & x & Hx & HP).
        destruct (decide (k = i)) as [->|].
        { rewrite Z.sub_diag in Hx. simpl in Hx. congruence. }
        split; [lia|]. eauto.
Qed.

(** [ks[np.where(cond(vals))[0]]] keeps the entries of [ks] whose value
    satisfies the condition, when [vals] runs parallel to [ks]. *)
Lemma take_idx_where_from (f : Z → Z) (Q : Z → bool) ks pre :
  Np.take_idx (pre ++ ks) (Np.where_from Q (Py.len pre) (map f ks)) =
  Ok (filter (fun k => Q (f k) = true) ks).
Proof.
  revert pre. induction ks as [|k ks IH]; intros pre; [done|].
  assert (Hnext : Np.take_idx (pre ++ k :: ks)
            (Np.where_from Q (Py.len pre + 1) (map f ks)) =
          Ok (filter (fun k => Q (f k) = true) ks)).
  { rewrite (cons_middle k pre ks), app_assoc, <- (IH (pre ++ [k])).
    do 2 f_equal. unfold Py.len. rewrite length_app. simpl. lia. }
  simpl. rewrite filter_cons. destruct (Q (f k)) eqn:HQ.
  - rewrite decide_True by done.
    rewrite take_idx_cons, Hnext.
    rewrite (index_Ok _ _ k); [done|apply len_nonneg|].
    unfold Py.len. rewrite Nat2Z.id. by rewrite list_lookup_middle.
  - rewrite decide_False by congruence. done.
Qed.

Lemma take_idx_where (f : Z → Z) (Q : Z → bool) ks :
  Np.take_idx ks (Np.where_ Q (map f ks)) =
  Ok (filter (fun k => Q (f k) = true) ks).
Proof. apply (take_idx_where_from f Q ks []). Qed.

(** The head of the filtered index list is the first index that passes. *)
Lemma filter_where_from_head (Q P : Z → bool) i l :
  match filter (fun k => Q k = true) (Np.where_from P i l) with
  | [] => ∀ j x, l !! j = Some x → P x = true → Q (i + Z.of_nat j) = false
  | k :: _ =>
      ∃ j x, k = i + Z.of_nat j ∧ l !! j = Some x ∧ P x = true ∧ Q k = true ∧
        ∀ j' x', (j' < j)%nat → l !! j' = Some x' → P x' = true →
                 Q (i + Z.of_nat j') = false
  end.
Proof.
  revert i. induction l as [|y l IH]; intros i; simpl.
  - by intros j x ?.
  - specialize (IH (i + 1)).
    assert (Hshift : ∀ j : nat, i + 1 + Z.of_nat j = i + Z.of_nat (S j)) by (intros; lia).
    destruct (P y) eqn:HPy.
    + rewrite filter_cons. destruct (Q i) eqn:HQi.
      * rewrite decide_True by done.
        exists O, y. rewrite Z.add_0_r. repeat split; try done.
        intros j' x' Hj'. lia.
      * rewrite decide_False by congruence.
        destruct (filter _ _) as [|k rest].
        -- intros [|j] x Hx HPx; simpl in Hx.
           ++ by rewrite Z.add_0_r.
           ++ rewrite <- Hshift. eauto.
        -- destruct IH as (j & x & -> & Hx & HPx & HQ & Hmin).
           exists (S j), x. rewrite Hshift in *. repeat split; try done.
           intros [|j'] x' Hlt Hx' HPx'; simpl in Hx'.
           ++ by rewrite Z.add_0_r.
           ++ rewrite <- Hshift. apply (Hmin j' x'); [lia|done..].
    + destruct (filter _ _) as [|k rest].
      * intros [|j] x Hx HPx; simpl in Hx.
        -- congruence.
        -- rewrite <- Hshift. eauto.
      * destruct IH as (j & x & -> & Hx & HPx & HQ & Hmin).
        exists (S j), x. rewrite Hshift in *. repeat split; try done.
        intros [|j'] x' Hlt Hx' HPx'; simpl in Hx'.
        -- congruence.
        -- rewrite <- Hshift. apply (Hmin j' x'); [lia|done..].
Qed.

(** *** [find_first_a_not_preceded_by_b] *)

Lemma find_first_at_start arr s a b :
  0 ≤ s → arr !! Z.to_nat s = Some a →
  find_first_a_not_preceded_by_b arr s a b = Ok 0.
Proof.
  intros Hs Ha. unfold find_first_a_not_preceded_by_b.
  rewrite slice_from_drop by done.
  rewrite (index_Ok _ 0 a); [|done|].
  - simpl. by rewrite Z.eqb_refl.
  - simpl. rewrite lookup_drop. by rewrite Nat.add_0_r.
Qed.

Lemma take_idx_cons_nonempty arr i idx : Np.take_idx arr (i :: idx) ≠ Ok [].
Proof.
  rewrite take_idx_cons. destruct (Py.index arr i); [|done]. simpl.
  by destruct (Np.take_idx arr idx).
Qed.

Lemma find_first_scan arr s a b x0 :
  0 ≤ s → arr !! Z.to_nat s = Some x0 → x0 ≠ a →
  find_first_a_not_preceded_by_b arr s a b =
  Ok match filter (fun k => not_guarded (drop (Z.to_nat s) arr) b k = true)
             (Np.where_ (fun x => x =? a) (drop (Z.to_nat s) arr)) with
     | [] => -1
     | k :: _ => s + k
     end.
Proof.
  intros Hs Hx0 Hne. unfold find_first_a_not_preceded_by_b.
  rewrite slice_from_drop by done.
  set (t := drop (Z.to_nat s) arr).
  assert (Ht0 : t !! O = Some x0).
  { unfold t. by rewrite lookup_drop, Nat.add_0_r. }
  rewrite (index_Ok _ 0 x0) by done. simpl.
  destruct (Z.eqb_spec x0 a) as [|_]; [done|].
  set (a_idx := Np.where_ (fun x => x =? a) t).
  set (f := fun j : Z => default 0 (t !! Z.to_nat j)).
  rewrite (take_idx_map t f).
  2:{ apply Forall_forall. intros j (k & -> & Hk)%list_elem_of_fmap.
      apply elem_of_where_from in Hk as (Hk0 & x & Hx & Hxa).
      rewrite Z.sub_0_r in Hx.
      assert (k ≠ 0) as Hk1.
      { intros ->. change (Z.to_nat 0) with O in Hx. rewrite Ht0 in Hx.
        apply Z.eqb_eq in Hxa. congruence. }
      split; [lia|]. unfold f.
      destruct (t !! Z.to_nat (k - 1)) as [y|] eqn:Hy; [done|].
      apply lookup_ge_None in Hy. apply lookup_lt_Some in Hx. lia. }
  simpl. rewrite <- list_fmap_compose.
  assert (Hsel : Np.take_idx a_idx
            (Np.where_ (fun x => negb (x =? b)) (f ∘ (fun i => i - 1) <$> a_idx)) =
          Ok (filter (fun k => not_guarded t b k = true) a_idx)).
  { apply (take_idx_where (f ∘ (fun i => i - 1)) (fun x => negb (x =? b))). }
  destruct (Np.where_ _ (_ <$> a_idx)) as [|n rest] eqn:Hnb.
  - simpl. simpl in Hsel. by injection Hsel as <-.
  - replace (0 <? Py.len (n :: rest)) with true
      by (unfold Py.len; simpl length; symmetry; apply Z.ltb_lt; lia).
    rewrite Hsel. simpl.
    destruct (filter _ a_idx) as [|k ks] eqn:Hfil.
    + by apply take_idx_cons_nonempty in Hsel.
    + done.
Qed.

(** Searching from a position that does not hold the target: the result is
    the first later occurrence not preceded by the guard, or [-1]. *)
Lemma find_first_after arr s a b x0 :
  0 ≤ s → arr !! Z.to_nat s = Some x0 → x0 ≠ a →
  ∃ r, find_first_a_not_preceded_by_b arr s a b = Ok r ∧
       ((r = -1 ∧ ∀ k, ¬ unescaped_at arr s a b k) ∨
        (s < r ∧ first_unescaped arr s a b r)).
Proof.
  intros Hs Hx0 Hne. rewrite (find_first_scan arr s a b x0) by done.
  set (t := drop (Z.to_nat s) arr).
  assert (Ht : ∀ j : nat, t !! j = arr !! Z.to_nat (s + Z.of_nat j)).
  { intros j. unfold t. rewrite lookup_drop. f_equal. lia. }
  assert (HQ : ∀ j : nat, (0 < j)%nat → is_Some (t !! j) →
             (not_guarded t b (Z.of_nat j) = true ↔
              arr !! Z.to_nat (s + Z.of_nat j - 1) ≠ Some b)).
  { intros j Hj [x Hx]. unfold not_guarded.
    replace (Z.to_nat (Z.of_nat j - 1)) with (j - 1)%nat by lia.
    replace (Z.to_nat (s + Z.of_nat j - 1))
      with (Z.to_nat (s + Z.of_nat (j - 1)%nat)) by lia.
    rewrite <- Ht.
    destruct (t !! (j - 1)%nat) as [y|] eqn:Hy.
    - simpl. destruct (Z.eqb_spec y b); simpl; split; congruence.
    - apply lookup_ge_None in Hy. apply lookup_lt_Some in Hx. lia. }
  assert (Hpos : ∀ j x, t !! j = Some x → (x =? a) = true → (0 < j)%nat).
  { intros [|j] x Hx Hxa; [|lia].
    rewrite Ht, Z.add_0_r, Hx0 in Hx. apply Z.eqb_eq in Hxa. congruence. }
  pose proof (filter_where_from_head (not_guarded t b) (fun x => x =? a) 0 t) as Hhd.
  unfold Np.where_. destruct (filter _ _) as [|k rest].
  - eexists; split; [done|]. left. split; [done|].
    intros k (Hk & Hka & Hor).
    destruct Hor as [->|Hprev]; [congruence|].
    assert (k ≠ s) by (intros ->; congruence).
    specialize (Hhd (Z.to_nat (k - s)) a).
    rewrite Ht in Hhd. replace (s + Z.of_nat (Z.to_nat (k - s))) with k in Hhd by lia.
    specialize (Hhd Hka (Z.eqb_refl a)).
    apply not_true_iff_false in Hhd. apply Hhd.
    rewrite Z.add_0_l. apply HQ; [lia| |].
    + rewrite Ht. replace (s + Z.of_nat (Z.to_nat (k - s))) with k by lia. eauto.
    + by replace (s + Z.of_nat (Z.to_nat (k - s)) - 1) with (k - 1) by lia.
  - destruct Hhd as (j & x & -> & Hx & Hxa & Hq & Hmin).
    rewrite Z.add_0_l in *. apply Z.eqb_eq in Hxa as ->.
    pose proof (Hpos _ _ Hx (Z.eqb_refl a)) as Hj.
    eexists; split; [done|]. right. split; [lia|]. split.
    + split; [lia|]. split; [by rewrite <- Ht|].
      right. apply HQ; [done|eauto|done].
    + intros k Hlt (Hk & Hka & Hor).
      destruct Hor as [->|Hprev]; [congruence|].
      assert (k ≠ s) by (intros ->; congruence).
      specialize (Hmin (Z.to_nat (k - s)) a).
      rewrite Ht in Hmin.
      replace (s + Z.of_nat (Z.to_nat (k - s))) with k in Hmin by lia.
      specialize (Hmin ltac:(lia) Hka (Z.eqb_refl a)).
      apply not_true_iff_false in Hmin. apply Hmin.
      rewrite Z.add_0_l. apply HQ; [lia| |].
      * rewrite Ht. replace (s + Z.of_nat (Z.to_nat (k - s))) with k by lia. eauto.
      * by replace (s + Z.of_nat (Z.to_nat (k - s)) - 1) with (k - 1) by lia.
Qed.

(** *** [decode_image] on an array *)

Lemma put_idx_lookup (g : Z → Z) idx : ∀ arr,
  Forall (fun i => 0 ≤ i < Py.len arr) idx →
  ∃ arr', Np.put_idx arr idx (map g idx) = Ok arr' ∧
          length arr' = length arr ∧
          ∀ n : nat, arr' !! n =
            if bool_decide (Z.of_nat n ∈ idx) then Some (g (Z.of_nat n))
            else arr !! n.
Proof.
  induction idx as [|i idx IH]; intros arr Hin.
  - exists arr. split; [done|]. split; [done|]. intros n.
    by rewrite bool_decide_eq_false_2 by apply not_elem_of_nil.
  - inversion Hin as [|? ? Hi Hin']; subst. simpl.
    destruct (Z.ltb_spec i 0); [lia|].
    destruct (Z.leb_spec 0 i); [|lia].
    destruct (Z.ltb_spec i (Py.len arr)); [|lia]. simpl.
    destruct (IH (<[Z.to_nat i := g i]> arr)) as (arr' & Hput & Hlen & Hlook).
    { unfold Py.len in *. by rewrite length_insert. }
    exists arr'. split; [done|]. rewrite Hlen, length_insert. split; [done|].
    intros n. rewrite Hlook.
    destruct (decide (Z.of_nat n = i)) as [<-|Hne].
    + rewrite (bool_decide_eq_true_2 (_ ∈ _ :: _)) by (apply elem_of_cons; by left).
      case_bool_decide; [done|].
      rewrite Nat2Z.id. apply list_lookup_insert_eq. unfold Py.len in *. lia.
    + rewrite list_lookup_insert_ne by lia.
      destruct (decide (Z.of_nat n ∈ idx)) as [Hn|Hn].
      * rewrite (bool_decide_eq_true_2 _ Hn).
        by rewrite bool_decide_eq_true_2 by (apply elem_of_cons; by right).
      * rewrite (bool_decide_eq_false_2 _ Hn).
        by rewrite bool_decide_eq_false_2 by (rewrite elem_of_cons; by intros [?|?]).
Qed.

Lemma decode_image_np_trailing arr :
  last arr = Some 0x1B → decode_image_np arr = Raise IndexError.
Proof.
  intros Hlast. unfold decode_image_np. simpl.
  rewrite take_idx_out; [done| |].
  - apply Forall_forall. intros j (k & -> & Hk)%list_elem_of_fmap.
    apply elem_of_where_from in Hk as (Hk & _). lia.
  - apply Exists_exists. exists (Py.len arr). split; [|lia].
    apply list_elem_of_fmap. exists (Py.len arr - 1). split; [lia|].
    apply elem_of_where_from.
    rewrite last_lookup in Hlast.
    assert (length arr ≠ O) by (destruct arr; [done|simpl; lia]).
    unfold Py.len. split; [lia|]. exists 27.
    replace (Z.to_nat (Z.of_nat (length arr) - 1 - 0)) with (Nat.pred (length arr)) by lia.
    done.
Qed.

Lemma esc_at_inv arr k :
  esc_at arr k = true ↔
  0 ≤ k ∧ arr !! Z.to_nat k = Some 0x1B ∧
  ∃ c, arr !! Z.to_nat (k + 1) = Some c ∧ is_flipped c = true.
Proof.
  unfold esc_at. rewrite !andb_true_iff, Z.leb_le, Z.eqb_eq. split.
  - intros [[Hk H27] Hfl]. split; [done|].
    destruct (arr !! Z.to_nat k) as [x|]; simpl in H27; [|done].
    split; [by subst|].
    destruct (arr !! Z.to_nat (k + 1)) as [c|]; simpl in Hfl; [eauto|done].
  - intros (Hk & -> & c & -> & Hfl). done.
Qed.

Lemma is_flipped_not_esc c : is_flipped c = true → c ≠ 0x1B.
Proof.
  unfold is_flipped. rewrite !orb_true_iff, !Z.eqb_eq. lia.
Qed.

Lemma collect_escapes_ok arr idx (nxt : Z → Z) bits : ∀ acc,
  Np.take_idx arr (map (fun i => i + 1) idx) = Ok (map nxt idx) →
  collect_escapes arr idx bits acc =
  Ok (acc ++ concat (map (fun bit => filter (fun k => (nxt k =? bit) = true) idx) bits)).
Proof.
  induction bits as [|bit bits IH]; intros acc Hafter; simpl.
  - by rewrite app_nil_r.
  - rewrite Hafter. simpl.
    rewrite (take_idx_where nxt (fun x => x =? bit)). simpl.
    rewrite IH by done. by rewrite app_assoc.
Qed.

(** The indices [decode_image] collects are the positions of the escape
    bytes, and the array read goes through when the last byte is no [0x1B]. *)
Lemma collect_escapes_spec arr :
  last arr ≠ Some 0x1B →
  ∃ idx_to_del,
    collect_escapes arr (Np.where_ (fun x => x =? 0x1B) arr)
      flipped_control_bits [] = Ok idx_to_del ∧
    ∀ k, k ∈ idx_to_del ↔ esc_at arr k = true.
Proof.
  intros Hlast.
  set (uc27_idx := Np.where_ (fun x => x =? 0x1B) arr).
  set (nxt := fun k : Z => default 0 (arr !! Z.to_nat (k + 1))).
  assert (Hidx : ∀ k, k ∈ uc27_idx ↔ 0 ≤ k ∧ arr !! Z.to_nat k = Some 0x1B).
  { intros k. unfold uc27_idx, Np.where_. rewrite elem_of_where_from, Z.sub_0_r.
    split.
    - intros (? & x & Hx & ->%Z.eqb_eq). done.
    - intros (? & Hx). split; [done|]. by exists 27. }
  assert (Hafter : Np.take_idx arr (map (fun i => i + 1) uc27_idx) =
                   Ok (map nxt uc27_idx)).
  { rewrite (take_idx_map arr (fun j => default 0 (arr !! Z.to_nat j))).
    - by rewrite <- list_fmap_compose.
    - apply Forall_forall. intros j (k & -> & [Hk Hx]%Hidx)%list_elem_of_fmap.
      split; [lia|].
      destruct (arr !! Z.to_nat (k + 1)) as [y|] eqn:Hy; [done|].
      exfalso. apply Hlast. rewrite last_lookup.
      apply lookup_ge_None in Hy. apply lookup_lt_Some in Hx as Hlt.
      replace (Nat.pred (length arr)) with (Z.to_nat k) by lia. done. }
  eexists. split.
  - apply (collect_escapes_ok arr uc27_idx nxt), Hafter.
  - intros k. unfold flipped_control_bits, control_bits. simpl.
    rewrite !elem_of_app, !list_elem_of_filter, !Hidx, esc_at_inv, elem_of_nil.
    change (Z.lxor 1 255) with 254. change (Z.lxor 4 255) with 251.
    change (Z.lxor 27 255) with 228.
    unfold nxt, is_flipped. rewrite !Z.eqb_eq.
    split.
    + intros Hcases.
      assert (Hand : (0 ≤ k ∧ arr !! Z.to_nat k = Some 27) ∧
                (default 0 (arr !! Z.to_nat (k + 1)) = 254 ∨
                 default 0 (arr !! Z.to_nat (k + 1)) = 251 ∨
                 default 0 (arr !! Z.to_nat (k + 1)) = 228)) by tauto.
      clear Hcases. destruct Hand as [[Hk Hx] Hb].
      split; [done|]. split; [done|].
      destruct (arr !! Z.to_nat (k + 1)) as [c|]; simpl in Hb; [|lia].
      exists c. split; [done|]. rewrite !orb_true_iff, !Z.eqb_eq. lia.
    + intros (Hk & Hx & c & Hc & Hfl). rewrite Hc. simpl.
      rewrite !orb_true_iff, !Z.eqb_eq in Hfl. tauto.
Qed.

Lemma unescape_pair c tl :
  is_flipped c = true → unescape (0x1B :: c :: tl) = Z.lxor c 0xFF :: unescape tl.
Proof. intros Hc. simpl. by rewrite Hc. Qed.

Lemma unescape_keep x tl :
  (x =? 0x1B) && is_flipped (default 0 (head tl)) = false →
  unescape (x :: tl) = x :: unescape tl.
Proof. destruct tl as [|c tl]; [done|]. simpl. by intros ->. Qed.

Lemma escapes_pair c tl :
  is_flipped c = true → escapes (0x1B :: c :: tl) = S (escapes tl).
Proof. intros Hc. simpl. by rewrite Hc. Qed.

Lemma escapes_keep x tl :
  (x =? 0x1B) && is_flipped (default 0 (head tl)) = false →
  escapes (x :: tl) = escapes tl.
Proof. destruct tl as [|c tl]; [done|]. simpl. by intros ->. Qed.

(** Deleting the collected indices from the flipped array is the reversal
    of the byte stuffing. *)
Lemma delete_from_unescape arr flipped D :
  (∀ k, k ∈ D ↔ esc_at arr k = true) →
  (∀ (n : nat) x, arr !! n = Some x →
     flipped !! n = Some (if esc_at arr (Z.of_nat n - 1) then Z.lxor x 0xFF else x)) →
  length flipped = length arr →
  ∀ (m i : nat), (length arr - i ≤ m)%nat →
    esc_at arr (Z.of_nat i - 1) = false →
    Np.delete_from (Z.of_nat i) (drop i flipped) D = unescape (drop i arr).
Proof.
  intros HD Hfl Hlen. induction m as [|m IH]; intros i Hm Hprev.
  { rewrite !drop_ge by lia. done. }
  destruct (arr !! i) as [x|] eqn:Hx.
  2:{ apply lookup_ge_None in Hx. rewrite !drop_ge by lia. done. }
  pose proof (Hfl i x Hx) as Hfi. rewrite Hprev in Hfi.
  rewrite (drop_S _ _ _ Hfi), (drop_S _ _ _ Hx). simpl Np.delete_from.
  destruct (esc_at arr (Z.of_nat i)) eqn:Hesc.
  - pose proof Hesc as (_ & Hx27 & c & Hc & Hflc)%esc_at_inv.
    replace (Z.to_nat (Z.of_nat i)) with i in Hx27 by lia.
    replace (Z.to_nat (Z.of_nat i + 1)) with (S i) in Hc by lia.
    assert (x = 27) as -> by congruence.
    rewrite bool_decide_eq_true_2 by (by apply HD).
    pose proof (Hfl (S i) c Hc) as Hfc.
    replace (Z.of_nat (S i) - 1) with (Z.of_nat i) in Hfc by lia.
    rewrite Hesc in Hfc.
    rewrite (drop_S _ _ _ Hfc), (drop_S _ _ _ Hc). simpl Np.delete_from.
    assert (esc_at arr (Z.of_nat i + 1) = false) as Hnext.
    { apply not_true_iff_false. intros (_ & Hc' & _)%esc_at_inv.
      replace (Z.to_nat (Z.of_nat i + 1)) with (S i) in Hc' by lia.
      apply is_flipped_not_esc in Hflc. congruence. }
    rewrite bool_decide_eq_false_2 by (rewrite HD, Hnext; done).
    rewrite unescape_pair by done. f_equal.
    replace (Z.of_nat i + 1 + 1) with (Z.of_nat (S (S i))) by lia.
    apply IH; [lia|].
    by replace (Z.of_nat (S (S i)) - 1) with (Z.of_nat i + 1) by lia.
  - rewrite bool_decide_eq_false_2 by (rewrite HD, Hesc; done).
    rewrite unescape_keep.
    + f_equal. replace (Z.of_nat i + 1) with (Z.of_nat (S i)) by lia.
      apply IH; [lia|].
      by replace (Z.of_nat (S i) - 1) with (Z.of_nat i) by lia.
    + rewrite head_lookup, lookup_drop, Nat.add_0_r.
      unfold esc_at in Hesc.
      replace (Z.to_nat (Z.of_nat i)) with i in Hesc by lia.
      replace (Z.to_nat (Z.of_nat i + 1)) with (S i) in Hesc by lia.
      rewrite Hx in Hesc. simpl in Hesc.
      destruct (Z.leb_spec 0 (Z.of_nat i)); [done|lia].
Qed.

Lemma decode_image_np_unfold arr :
  decode_image_np arr =
  (idx_to_del ← collect_escapes arr (Np.where_ (fun x => x =? 0x1B) arr)
                  flipped_control_bits [];
   cur ← Np.take_idx arr (map (fun i => i + 1) idx_to_del);
   flipped ← Np.put_idx arr (map (fun i => i + 1) idx_to_del)
               (map (fun x => Z.lxor x 0xFF) cur);
   decoded ← Np.delete flipped idx_to_del;
   Ok (flipped, decoded)).
Proof. reflexivity. Qed.

(** [decode_image] on an array whose last byte is not [0x1B]: it returns the
    unescaped copy and leaves the array with every escaped byte complemented
    in place. *)
Lemma decode_image_np_ok arr :
  last arr ≠ Some 0x1B →
  ∃ flipped,
    decode_image_np arr = Ok (flipped, unescape arr) ∧
    length flipped = length arr ∧
    ∀ (n : nat) x, arr !! n = Some x →
      flipped !! n = Some (if esc_at arr (Z.of_nat n - 1) then Z.lxor x 0xFF else x).
Proof.
  intros Hlast.
  destruct (collect_escapes_spec arr Hlast) as (D & HD & Hmem).
  set (rd := fun j : Z => default 0 (arr !! Z.to_nat j)).
  set (g := fun j : Z => Z.lxor (rd j) 0xFF).
  assert (Hrange : Forall (fun j => 0 ≤ j ∧ arr !! Z.to_nat j = Some (rd j))
                     (map (fun i => i + 1) D)).
  { apply Forall_forall. intros j (k & -> & Hk)%list_elem_of_fmap.
    apply Hmem, esc_at_inv in Hk as (Hk & _ & c & Hc & _).
    split; [lia|]. unfold rd. by rewrite Hc. }
  destruct (put_idx_lookup g (map (fun i => i + 1) D) arr)
    as (flipped & Hput & Hlen & Hlook).
  { eapply Forall_impl; [exact Hrange|]. intros j [Hj Hx]. simpl.
    apply lookup_lt_Some in Hx. unfold Py.len. lia. }
  assert (Hfl : ∀ (n : nat) x, arr !! n = Some x →
     flipped !! n = Some (if esc_at arr (Z.of_nat n - 1) then Z.lxor x 0xFF else x)).
  { intros n x Hx. rewrite Hlook.
    destruct (esc_at arr (Z.of_nat n - 1)) eqn:Hesc.
    - rewrite bool_decide_eq_true_2.
      + unfold g, rd. rewrite Nat2Z.id, Hx. done.
      + apply list_elem_of_fmap. exists (Z.of_nat n - 1). split; [lia|].
        by apply Hmem.
    - rewrite bool_decide_eq_false_2; [done|].
      intros (k & Hk & Hin)%list_elem_of_fmap.
      apply Hmem in Hin. replace (Z.of_nat n - 1) with k in Hesc by lia.
      congruence. }
  exists flipped. split; [|done].
  rewrite decode_image_np_unfold, HD. simpl mbind at 1.
  rewrite (take_idx_map arr rd) by done. simpl mbind at 1.
  rewrite <- list_fmap_compose.
  replace ((fun x => Z.lxor x 255) ∘ rd <$> map (fun i => i + 1) D)
    with (map g (map (fun i => i + 1) D)) by done.
  rewrite Hput. simpl mbind at 1.
  unfold Np.delete.
  assert (Hall : forallb (fun i => (- Py.len flipped <=? i) && (i <? Py.len flipped)) D = true).
  { apply forallb_forall. intros k Hk%list_elem_of_In.
    apply Hmem, esc_at_inv in Hk as (Hk & Hx & _).
    apply lookup_lt_Some in Hx. unfold Py.len. rewrite Hlen.
    apply andb_true_iff. split; [apply Z.leb_le|apply Z.ltb_lt]; lia. }
  rewrite Hall.
  assert (Hnorm : map (fun i => if i <? 0 then i + Py.len flipped else i) D = D).
  { rewrite <- (map_id D) at 2. apply map_ext_in. intros k Hk%list_elem_of_In.
    apply Hmem, esc_at_inv in Hk as (Hk & _).
    destruct (Z.ltb_spec k 0); [lia|done]. }
  rewrite Hnorm. simpl. do 2 f_equal.
  apply (delete_from_unescape arr flipped D Hmem Hfl Hlen (length arr) O); [lia|done].
Qed.

(** *** The reversal of the byte stuffing *)

Lemma unescape_length_aux n : ∀ l, (length l ≤ n)%nat →
  (length (unescape l) + escapes l)%nat = length l.
Proof.
  induction n as [|n IH]; intros [|x [|c tl]] Hn; simpl in Hn; try done; try lia.
  destruct ((x =? 27) && is_flipped c) eqn:Hxc.
  - apply andb_true_iff in Hxc as [->%Z.eqb_eq Hc].
    rewrite unescape_pair, escapes_pair by done.
    specialize (IH tl ltac:(lia)). simpl. lia.
  - rewrite unescape_keep, escapes_keep by done.
    specialize (IH (c :: tl) ltac:(simpl; lia)). simpl in *. lia.
Qed.

(** One byte is removed for each escape pair. *)
Lemma unescape_length l :
  (length (unescape l) + escapes l)%nat = length l.
Proof. by apply (unescape_length_aux (length l)). Qed.

Lemma unescape_no_escape_aux n : ∀ l, (length l ≤ n)%nat →
  escapes l = O → unescape l = l.
Proof.
  induction n as [|n IH]; intros [|x [|c tl]] Hn; simpl in Hn; try done; try lia.
  destruct ((x =? 27) && is_flipped c) eqn:Hxc.
  - apply andb_true_iff in Hxc as [->%Z.eqb_eq Hc].
    by rewrite escapes_pair by done.
  - rewrite unescape_keep, escapes_keep by done.
    intros Hesc. f_equal. apply IH; [simpl; lia|done].
Qed.

(** A sequence without escape pairs is returned as it is. *)
Lemma unescape_no_escape l : escapes l = O → unescape l = l.
Proof. by apply (unescape_no_escape_aux (length l)). Qed.

Lemma unescape_idempotent_on_clean l :
  escapes l = O → unescape (unescape l) = unescape l.
Proof. intros Hl. by rewrite !(unescape_no_escape l Hl). Qed.

Lemma flipped_changes c : Z.lxor c 0xFF ≠ c.
Proof.
  intros Heq. assert (Z.lxor (Z.lxor c 255) c = 0) as H0 by (rewrite Heq; apply Z.lxor_nilpotent).
  rewrite (Z.lxor_comm c), Z.lxor_assoc, Z.lxor_nilpotent, Z.lxor_0_r in H0. done.
Qed.

Lemma escapes_at l (i : nat) :
  esc_at l (Z.of_nat i) = true → escapes l ≠ O.
Proof.
  revert i. induction l as [l IH] using (induction_ltof1 _ (@length Z)).
  unfold ltof in IH. intros i Hesc.
  apply esc_at_inv in Hesc as (_ & Hx & c & Hc & Hfl).
  replace (Z.to_nat (Z.of_nat i)) with i in Hx by lia.
  replace (Z.to_nat (Z.of_nat i + 1)) with (S i) in Hc by lia.
  destruct l as [|x [|d tl]]; [done| |].
  - by destruct i.
  - destruct ((x =? 27) && is_flipped d) eqn:Hxd.
    + apply andb_true_iff in Hxd as [->%Z.eqb_eq Hd].
      rewrite escapes_pair by done. lia.
    + rewrite escapes_keep by done.
      destruct i as [|i].
      * simpl in Hx, Hc. simplify_eq. simpl in Hxd. congruence.
      * apply (IH (d :: tl) ltac:(simpl; lia) i).
        apply esc_at_inv. split; [lia|].
        replace (Z.to_nat (Z.of_nat i)) with i by lia.
        replace (Z.to_nat (Z.of_nat i + 1)) with (S i) by lia.
        split; [done|]. eauto.
Qed.

(** ** Views of the buffer *)

Lemma view_contents_frombuffer buf : view_contents buf (frombuffer buf) = buf.
Proof. unfold view_contents, frombuffer. simpl. by rewrite drop_0, firstn_all. Qed.

Lemma view_contents_slice buf a b :
  view_contents buf (view_slice (frombuffer buf) a b) = Py.slice buf a b.
Proof.
  unfold view_contents, view_slice, frombuffer, Py.slice. simpl.
  fold (Py.len buf).
  pose proof (slice_bound_range (Py.len buf) a (len_nonneg buf)) as Ha.
  pose proof (slice_bound_range (Py.len buf) b (len_nonneg buf)) as Hb.
  set (s := Py.slice_bound (Py.len buf) a) in *.
  set (e := Py.slice_bound (Py.len buf) b) in *.
  rewrite take_drop_commute.
  destruct (Z.le_gt_cases s e).
  - by replace (Z.to_nat s + Z.to_nat (e - s))%nat with (Z.to_nat e) by lia.
  - replace (Z.to_nat (e - s)) with O by lia. rewrite Nat.add_0_r.
    rewrite !drop_ge; [done|rewrite length_take; lia..].
Qed.

Lemma view_slice_bounds buf a b :
  let v := view_slice (frombuffer buf) a b in
  (v_len v = O ∨
   (v_off v + v_len v)%nat = Z.to_nat (Py.slice_bound (Py.len buf) b)) ∧
  (v_off v ≤ length buf)%nat.
Proof.
  unfold view_slice, frombuffer. simpl. fold (Py.len buf).
  pose proof (slice_bound_range (Py.len buf) a (len_nonneg buf)) as Ha.
  pose proof (slice_bound_range (Py.len buf) b (len_nonneg buf)) as Hb.
  unfold Py.len in *. lia.
Qed.

Lemma view_store_length buf v arr :
  length arr = v_len v → (v_off v + v_len v ≤ length buf)%nat →
  length (view_store buf v arr) = length buf.
Proof.
  intros Harr Hv. unfold view_store.
  rewrite !length_app, length_take, length_drop. lia.
Qed.

Lemma view_store_empty buf v :
  v_len v = O → view_store buf v [] = buf.
Proof.
  intros Hv. unfold view_store. rewrite Hv, Nat.add_0_r. simpl.
  apply take_drop.
Qed.

(** A write through a view leaves the bytes past the window alone. *)
Lemma view_store_drop buf v arr k :
  length arr = v_len v → (v_off v + v_len v ≤ length buf)%nat →
  (v_off v + v_len v ≤ k)%nat →
  drop k (view_store buf v arr) = drop k buf.
Proof.
  intros Harr Hv Hk. unfold view_store.
  rewrite app_assoc, drop_app_ge; rewrite length_app, length_take; [|lia].
  rewrite drop_drop. f_equal. lia.
Qed.

(** A write through a view is a write to the buffer at the window's offset. *)
Lemma view_store_lookup buf v arr (i : nat) :
  (v_off v ≤ length buf)%nat → (i < length arr)%nat →
  view_store buf v arr !! (v_off v + i)%nat = arr !! i.
Proof.
  intros Hv Hi. unfold view_store.
  rewrite lookup_app_r; rewrite length_take; [|lia].
  replace (v_off v + i - v_off v `min` length buf)%nat with i by lia.
  by rewrite lookup_app_l.
Qed.

(** ** First unescaped occurrences *)

Lemma first_unescaped_unique arr from a b i j :
  first_unescaped arr from a b i → first_unescaped arr from a b j → i = j.
Proof.
  intros [Hi Hmi] [Hj Hmj].
  destruct (Z.lt_trichotomy i j) as [Hlt|[->|Hlt]]; [|done|].
  - by apply Hmj in Hlt.
  - by apply Hmi in Hlt.
Qed.

Lemma first_unescaped_lookup arr from a b i :
  first_unescaped arr from a b i → from ≤ i ∧ arr !! Z.to_nat i = Some a.
Proof. by intros [(? & ? & _) _]. Qed.

(** The search returns the first unescaped occurrence whenever that is what
    the specification asks for and the search starts at offset 0 or at a
    byte that is not the target. *)
Lemma find_first_correct arr s a b r :
  0 ≤ s → (s = 0 ∨ arr !! Z.to_nat s ≠ Some a) →
  first_unescaped arr s a b r →
  find_first_a_not_preceded_by_b arr s a b = Ok r.
Proof.
  intros Hs Hstart Hr.
  destruct (arr !! Z.to_nat s) as [x0|] eqn:Hx0.
  - destruct (decide (x0 = a)) as [->|Hne].
    + destruct Hstart as [->|]; [|done].
      rewrite find_first_at_start by done. f_equal.
      apply (first_unescaped_unique arr 0 a b); [|done].
      split; [by repeat split; auto|].
      intros k Hk (? & _). lia.
    + destruct (find_first_after arr s a b x0 Hs Hx0 Hne)
        as (r' & -> & [[_ Hnone]|[_ Hr']]).
      * destruct Hr as [Hr _]. by apply Hnone in Hr.
      * f_equal. by apply (first_unescaped_unique arr s a b).
  - apply first_unescaped_lookup in Hr as [Hle Hr].
    apply lookup_ge_None in Hx0. apply lookup_lt_Some in Hr. lia.
Qed.

Lemma find_first_none arr s a b x0 :
  0 ≤ s → arr !! Z.to_nat s = Some x0 → x0 ≠ a →
  (∀ k, ¬ unescaped_at arr s a b k) →
  find_first_a_not_preceded_by_b arr s a b = Ok (-1).
Proof.
  intros Hs Hx0 Hne Hnone.
  destruct (find_first_after arr s a b x0 Hs Hx0 Hne)
    as (r' & -> & [[-> _]|[_ [Hr' _]]]); [done|].
  by apply Hnone in Hr'.
Qed.

(** ** [receive_image], path by path *)

Ltac run_M :=
  unfold mbind, mret, M_bind, M_ret, modify, gets, lift, find_first, np_array,
    clear_bytes_in_buffer, scanning, set_np_buffer, set_buffer, set_img;
  simpl.

Lemma receive_image_no_start st :
  find_first_a_not_preceded_by_b (buffer st) 0 0x01 0x27 = Ok (-1) →
  receive_image st = (Ok false, set_buffer [] (scanning st)).
Proof.
  intros Hs. unfold receive_image. run_M.
  rewrite view_contents_frombuffer, Hs. done.
Qed.

Lemma receive_image_raise_start st e :
  find_first_a_not_preceded_by_b (buffer st) 0 0x01 0x27 = Raise e →
  receive_image st = (Raise e, scanning st).
Proof.
  intros Hs. unfold receive_image. run_M.
  rewrite view_contents_frombuffer, Hs. done.
Qed.

Lemma receive_image_incomplete st s :
  find_first_a_not_preceded_by_b (buffer st) 0 0x01 0x27 = Ok s → 0 ≤ s →
  find_first_a_not_preceded_by_b (buffer st) s 0x04 0x27 = Ok (-1) →
  receive_image st = (Ok false, scanning st).
Proof.
  intros Hs Hs0 He. unfold receive_image. run_M.
  rewrite view_contents_frombuffer, Hs. simpl.
  destruct (Z.ltb_spec s 0); [lia|]. simpl.
  rewrite view_contents_frombuffer, He. simpl.
  destruct (Z.leb_spec (-1) s); [done|lia].
Qed.

Lemma receive_image_not_image st s e :
  find_first_a_not_preceded_by_b (buffer st) 0 0x01 0x27 = Ok s → 0 ≤ s →
  find_first_a_not_preceded_by_b (buffer st) s 0x04 0x27 = Ok e → s < e →
  ¬ (s < Py.find (buffer st) img_msg s < e) →
  receive_image st =
  (Ok false, (clear_bytes_in_buffer 0 (e + 1) (scanning st)).2).
Proof.
  intros Hs Hs0 He Hse Htag. unfold receive_image. run_M.
  rewrite view_contents_frombuffer, Hs. simpl.
  destruct (Z.ltb_spec s 0); [lia|]. simpl.
  rewrite view_contents_frombuffer, He. simpl.
  destruct (Z.leb_spec e s); [lia|].
  simpl. set (i := Py.find (buffer st) img_msg s) in *; clearbody i.
  destruct (Z.eqb_spec i (-1)); simpl; [done|].
  destruct (Z.ltb_spec s i); simpl; [|done].
  destruct (Z.ltb_spec i e); simpl; [lia|done].
Qed.

Lemma receive_image_decode st s e :
  find_first_a_not_preceded_by_b (buffer st) 0 0x01 0x27 = Ok s → 0 ≤ s →
  find_first_a_not_preceded_by_b (buffer st) s 0x04 0x27 = Ok e → s < e →
  s < Py.find (buffer st) img_msg s < e →
  receive_image st =
  match payload_window (buffer st) s e with
  | Ok (start_image_char, end_image_char) =>
      decode_step start_image_char end_image_char e (scanning st)
  | Raise err => (Raise err, scanning st)
  end.
Proof.
  intros Hs Hs0 He Hse Htag. unfold receive_image. run_M.
  rewrite view_contents_frombuffer, Hs. simpl.
  destruct (Z.ltb_spec s 0); [lia|]. simpl.
  rewrite view_contents_frombuffer, He. simpl.
  destruct (Z.leb_spec e s); [lia|].
  simpl. set (i := Py.find (buffer st) img_msg s) in *; clearbody i.
  destruct (Z.eqb_spec i (-1)); simpl; [lia|].
  destruct (Z.ltb_spec s i); simpl; [|lia].
  destruct (Z.ltb_spec i e); simpl; [|lia].
  destruct (payload_window (buffer st) s e) as [[a b]|err]; done.
Qed.

Lemma reaches_decode_finds buf s e :
  reaches_decode buf s e →
  find_first_a_not_preceded_by_b buf 0 0x01 0x27 = Ok s ∧ 0 ≤ s ∧
  find_first_a_not_preceded_by_b buf s 0x04 0x27 = Ok e ∧ s < e ∧
  e < Py.len buf.
Proof.
  intros (Hs & He & _).
  pose proof (first_unescaped_lookup _ _ _ _ _ Hs) as [Hs0 Hsl].
  pose proof (first_unescaped_lookup _ _ _ _ _ He) as [Hse Hel].
  split; [apply find_first_correct; auto; lia|].
  split; [done|].
  split; [apply find_first_correct; auto; right; congruence|].
  assert (e ≠ s) by (intros ->; congruence).
  apply lookup_lt_Some in Hel. unfold Py.len. lia.
Qed.

Lemma decode_step_run st a b e :
  np_buffer st = Some (frombuffer (buffer st)) →
  decode_step a b e st =
  let v := view_slice (frombuffer (buffer st)) a (b + 1) in
  match decode_image_np (Py.slice (buffer st) a (b + 1)) with
  | Raise err => (Raise err, set_np_buffer (Some v) st)
  | Ok (flipped, decoded) =>
      let st1 := set_buffer (view_store (buffer st) v flipped)
                   (set_np_buffer (Some v) st) in
      match reshape_frame decoded (pixels_in_image st) (image_size st) with
      | Raise err => (Raise err, st1)
      | Ok frame =>
          (Ok true, (clear_bytes_in_buffer 0 (e + 1) (set_img (Some frame) st1)).2)
      end
  end.
Proof.
  intros Hv. unfold decode_step, decode_image. run_M. rewrite Hv. simpl.
  rewrite view_contents_slice.
  destruct (decode_image_np _) as [[flipped decoded]|err]; simpl; [|done].
  destruct (reshape_frame _ _ _) as [frame|err]; done.
Qed.

Lemma unescaped_at_app arr tail from a b i :
  0 ≤ from → i < Py.len arr →
  unescaped_at (arr ++ tail) from a b i ↔ unescaped_at arr from a b i.
Proof.
  intros Hfrom Hi. unfold unescaped_at, Py.len in *.
  destruct (Z.le_gt_cases 0 i) as [H0|H0].
  - rewrite !lookup_app_l by lia. done.
  - split; intros (? & _); lia.
Qed.

Lemma first_unescaped_app arr tail from a b i :
  0 ≤ from →
  first_unescaped arr from a b i → first_unescaped (arr ++ tail) from a b i.
Proof.
  intros Hfrom [Hi Hmin].
  assert (i < Py.len arr) as Hlt.
  { destruct Hi as (_ & Hl & _). apply lookup_lt_Some in Hl.
    unfold Py.len. lia. }
  split; [by apply unescaped_at_app|].
  intros k Hk Hu. apply (Hmin k Hk).
  by apply (unescaped_at_app arr tail); [|lia|].
Qed.

Lemma unescaped_at_prefix arr tail from a b i :
  0 ≤ from →
  unescaped_at arr from a b i → unescaped_at (arr ++ tail) from a b i.
Proof.
  intros Hfrom Hu. apply unescaped_at_app; [done| |done].
  destruct Hu as (_ & Hl & _). apply lookup_lt_Some in Hl. unfold Py.len. lia.
Qed.

(** While the end marker has not arrived, [receive_image] answers [False]
    and only renews its view. *)
Lemma receive_image_pending st s :
  first_unescaped (buffer st) 0 0x01 0x27 s →
  (∀ e, s ≤ e → ¬ unescaped_at (buffer st) 0 0x04 0x27 e) →
  receive_image st = (Ok false, scanning st).
Proof.
  intros Hs Hnone.
  pose proof (first_unescaped_lookup _ _ _ _ _ Hs) as [Hs0 Hsl].
  apply (receive_image_incomplete st s); [|done|].
  - apply find_first_correct; auto; lia.
  - apply (find_first_none _ _ _ _ 1); [done..|].
    intros k (Hk & Hkl & Hor).
    assert (k ≠ s) by (intros ->; congruence).
    apply (Hnone k); [done|].
    split; [lia|]. split; [done|]. right.
    destruct Hor as [->|?]; done.
Qed.

(** C5.  When the scanner finds an unescaped start marker and no unescaped
    end marker at or after it, [receive_image] reports no frame and leaves
    the buffer, the image and the geometry as they were: only the numpy
    view is renewed.  (Unescaped is with respect to the guard value the
    scanner passes, [0x27].) *)
Theorem receive_image_incomplete_keeps_buffer st s :
  first_unescaped (buffer st) 0 0x01 0x27 s →
  (∀ e, s ≤ e → ¬ unescaped_at (buffer st) 0 0x04 0x27 e) →
  receive_image st = (Ok false, scanning st) ∧
  buffer (scanning st) = buffer st ∧
  img (scanning st) = img st ∧
  image_size (scanning st) = image_size st.
Proof.
  intros Hs Hnone.
  pose proof (first_unescaped_lookup _ _ _ _ _ Hs) as [Hs0 Hsl].
  assert (Hstart : find_first_a_not_preceded_by_b (buffer st) 0 0x01 0x27 = Ok s)
    by (apply find_first_correct; auto; lia).
  assert (Hend : find_first_a_not_preceded_by_b (buffer st) s 0x04 0x27 = Ok (-1)).
  { apply (find_first_none _ _ _ _ 0x01); [done..|].
    intros k (Hk & Hkl & Hor).
    assert (k ≠ s) by (intros ->; congruence).
    apply (Hnone k Hk).
    split; [lia|]. split; [done|]. right.
    destruct Hor as [->|?]; done. }
  split; [|done].
  by apply (receive_image_incomplete st s).
Qed.

Lemma receive_image_incomplete_keeps_buffer_witness :
  let st := set_buffer [0x01; 0x41; 0x42] init in
  receive_image st = (Ok false, scanning st) ∧
  buffer (scanning st) = [0x01; 0x41; 0x42] ∧
  img (scanning st) = img st ∧
  image_size (scanning st) = image_size st.
Proof.
  apply (receive_image_incomplete_keeps_buffer
           (set_buffer [0x01; 0x41; 0x42] init) 0).
  - split.
    + split; [lia|]. split; [reflexivity|]. by left.
    + intros k Hk (Hk0 & _). lia.
  - intros e He (_ & Hl & _). simpl in Hl.
    destruct (Z.to_nat e) as [|[|[|n]]]; simpl in Hl; discriminate.
Defined.

(** *** Bytes arriving one at a time *)

(** A message whose start marker is in the buffer and whose end marker is
    not among the bytes that follow: fed one byte at a time, every attempt
    answers [False] and the buffer ends up holding every byte. *)
Lemma feed_keeps_pending_message data : ∀ st s,
  first_unescaped (buffer st) 0 0x01 0x27 s →
  (∀ e, s ≤ e → ¬ unescaped_at (buffer st ++ data) 0 0x04 0x27 e) →
  (feed data st).1 = map (fun _ => Ok false) data ∧
  buffer (feed data st).2 = buffer st ++ data.
Proof.
  induction data as [|b data IH]; intros st s Hs Hnone.
  { simpl. by rewrite app_nil_r. }
  set (st1 := set_buffer (buffer st ++ [b]) st).
  assert (Hstep : (extend [b] ≫= fun _ => receive_image) st = (Ok false, scanning st1)).
  { unfold extend, mbind, M_bind, modify. fold st1.
    apply (receive_image_pending st1 s).
    - by apply first_unescaped_app.
    - intros e He Hu. apply (Hnone e He).
      rewrite (cons_middle b), app_assoc. by apply unescaped_at_prefix. }
  simpl feed. rewrite Hstep.
  destruct (IH (scanning st1) s) as [Hout Hbuf].
  - by apply first_unescaped_app.
  - simpl. rewrite <- app_assoc. done.
  - destruct (feed data (scanning st1)) as [rs st2]. simpl in *.
    rewrite Hout, Hbuf, <- app_assoc. done.
Qed.

Example feed_image_message_bytewise :
  feed (drop 1 (image_message [10; 20; 30; 40])) (session 2 2 [0x01]) =
  (replicate 27 (Ok false) ++ [Ok true],
   {| buffer := []; np_buffer := Some (mkView 23 4);
      img := Some [[10; 20]; [30; 40]];
      image_size := [2; 2]; pixels_in_image := 4 |}).
Proof. vm_compute. reflexivity. Qed.

Lemma payload_window_end buf s e a b :
  payload_window buf s e = Ok (a, b) → b = e - 2.
Proof.
  unfold payload_window. destruct (Py.index _ _); simpl; [|done].
  by intros [= _ <-].
Qed.

Lemma decode_image_np_cases arr :
  decode_image_np arr = Raise IndexError ∨
  ∃ flipped, decode_image_np arr = Ok (flipped, unescape arr) ∧
             length flipped = length arr.
Proof.
  destruct (decide (last arr = Some 0x1B)) as [Hl|Hl].
  - left. by apply decode_image_np_trailing.
  - right. destruct (decode_image_np_ok arr Hl) as (flipped & ? & ? & _). eauto.
Qed.

Lemma slice_length_view buf a b :
  let v := view_slice (frombuffer buf) a b in
  length (Py.slice buf a b) = v_len v ∧ (v_off v + v_len v ≤ length buf)%nat.
Proof.
  intros v. rewrite <- view_contents_slice. fold v.
  destruct (view_slice_bounds buf a b) as [Hor Hoff]. fold v in Hor, Hoff.
  pose proof (slice_bound_range (Py.len buf) b (len_nonneg buf)) as Hb.
  assert (v_off v + v_len v ≤ length buf)%nat.
  { destruct Hor as [->| ->]; unfold Py.len in *; lia. }
  split; [|done]. unfold view_contents.
  rewrite length_take, length_drop. lia.
Qed.

(** C3, as the code has it.  Once the decode step is reached,
    [receive_image] either returns [True] with buffer bytes [0..e]
    removed and nothing else of the buffer changed, or raises with no
    byte of the buffer removed. *)
Theorem receive_image_consumes_on_success st s e :
  reaches_decode (buffer st) s e →
  match receive_image st with
  | (Ok valid_frame, st') =>
      valid_frame = true ∧
      buffer st' = drop (Z.to_nat (e + 1)) (buffer st)
  | (Raise _, st') => length (buffer st') = length (buffer st)
  end.
Proof.
  intros Hreach.
  destruct (reaches_decode_finds _ _ _ Hreach) as (Hs & Hs0 & He & Hse & Hlen).
  destruct Hreach as (_ & _ & Htag).
  rewrite (receive_image_decode st s e) by done.
  destruct (payload_window (buffer st) s e) as [[a b]|err] eqn:Hpw; [|done].
  apply payload_window_end in Hpw as ->.
  rewrite decode_step_run by done. simpl.
  replace (e - 2 + 1) with (e - 1) by lia.
  set (v := view_slice (frombuffer (buffer st)) a (e - 1)).
  destruct (slice_length_view (buffer st) a (e - 1)) as [Hwl Hvalid].
  fold v in Hwl, Hvalid.
  destruct (decode_image_np_cases (Py.slice (buffer st) a (e - 1)))
    as [-> | (flipped & -> & Hfl)]; [done|].
  rewrite Hwl in Hfl.
  destruct (reshape_frame _ _ _) as [frame|err]; simpl.
  2:{ by apply view_store_length. }
  split; [done|].
  assert (Hlen' : Py.len (view_store (buffer st) v flipped) = Py.len (buffer st)).
  { unfold Py.len. by rewrite view_store_length. }
  rewrite Hlen'.
  replace (if Py.len (buffer st) <=? e + 1 then Py.len (buffer st) else e + 1)
    with (e + 1) by (destruct (Z.leb_spec (Py.len (buffer st)) (e + 1)); lia).
  rewrite del_slice_prefix by lia.
  destruct (view_slice_bounds (buffer st) a (e - 1)) as [[Hz|Hoff] _];
    fold v in Hz || fold v in Hoff.
  - rewrite Hz in Hfl. destruct flipped; [|done].
    by rewrite view_store_empty.
  - apply view_store_drop; [done..|].
    rewrite Hoff, slice_bound_in by lia. lia.
Qed.

Lemma find_first_out arr s a b :
  Py.len arr ≤ s → find_first_a_not_preceded_by_b arr s a b = Raise IndexError.
Proof.
  intros Hs. pose proof (len_nonneg arr).
  unfold find_first_a_not_preceded_by_b.
  rewrite slice_from_drop by lia.
  rewrite drop_ge by (unfold Py.len in *; lia). done.
Qed.

(** What the search returns is a first unescaped occurrence, when it starts
    at offset 0 or at a byte that is not the target. *)
Lemma find_first_sound arr s a b r :
  0 ≤ s → (s = 0 ∨ arr !! Z.to_nat s ≠ Some a) →
  find_first_a_not_preceded_by_b arr s a b = Ok r → 0 ≤ r →
  first_unescaped arr s a b r.
Proof.
  intros Hs Hstart Hfind Hr.
  destruct (arr !! Z.to_nat s) as [x0|] eqn:Hx0.
  - destruct (decide (x0 = a)) as [->|Hne].
    + destruct Hstart as [->|]; [|done].
      rewrite find_first_at_start in Hfind by done. injection Hfind as <-.
      split; [by repeat split; auto|].
      intros k Hk (? & _). lia.
    + destruct (find_first_after arr s a b x0 Hs Hx0 Hne)
        as (r' & Hr' & [[-> _]|[_ Hfirst]]).
      * rewrite Hfind in Hr'. injection Hr' as ->. lia.
      * rewrite Hfind in Hr'. by injection Hr' as ->.
  - apply lookup_ge_None in Hx0.
    rewrite find_first_out in Hfind by (unfold Py.len; lia). done.
Qed.

Lemma reaches_decode_intro buf s e :
  find_first_a_not_preceded_by_b buf 0 0x01 0x27 = Ok s → 0 ≤ s →
  find_first_a_not_preceded_by_b buf s 0x04 0x27 = Ok e → s < e →
  s < Py.find buf img_msg s < e →
  reaches_decode buf s e.
Proof.
  intros Hs Hs0 He Hse Htag.
  assert (Hfs : first_unescaped buf 0 0x01 0x27 s)
    by (apply find_first_sound; auto; lia).
  split; [done|]. split; [|done].
  apply first_unescaped_lookup in Hfs as [_ Hl].
  apply find_first_sound; auto; [|lia]. right. congruence.
Qed.

(** *** [clear_bytes_in_buffer] *)

Lemma clear_bytes_in_buffer_prefix st e :
  0 ≤ e →
  clear_bytes_in_buffer 0 e st =
  (Ok tt, set_buffer (drop (Z.to_nat e) (buffer st)) st).
Proof.
  intros He. unfold clear_bytes_in_buffer, modify. do 2 f_equal.
  pose proof (len_nonneg (buffer st)).
  destruct (Z.leb_spec (Py.len (buffer st)) e).
  - rewrite del_slice_prefix by lia.
    unfold Py.len in *. rewrite !drop_ge; [done|lia..].
  - by rewrite del_slice_prefix by lia.
Qed.

(** X29.  Step 1 of the scan: no unescaped start marker in a non-empty
    buffer, and the whole buffer is dropped. *)
Lemma receive_image_discards_junk st :
  buffer st ≠ [] →
  (∀ k, ¬ unescaped_at (buffer st) 0 0x01 0x27 k) →
  receive_image st = (Ok false, set_buffer [] (scanning st)).
Proof.
  intros Hne Hnone. apply receive_image_no_start.
  destruct (buffer st) as [|x0 buf] eqn:Hbuf; [done|].
  apply (find_first_none _ _ _ _ x0); [done|done| |done].
  intros ->. apply (Hnone 0). split; [done|]. split; [done|]. by left.
Qed.

(** X30.  Step 3 of the scan: a delimited message without the image tag
    between its markers is dropped, bytes [0..e], and nothing else. *)
Lemma receive_image_discards_non_image st s e :
  first_unescaped (buffer st) 0 0x01 0x27 s →
  first_unescaped (buffer st) s 0x04 0x27 e →
  ¬ (s < Py.find (buffer st) img_msg s < e) →
  ∃ st', receive_image st = (Ok false, st') ∧
         buffer st' = drop (Z.to_nat (e + 1)) (buffer st).
Proof.
  intros Hs He Htag.
  pose proof (first_unescaped_lookup _ _ _ _ _ Hs) as [Hs0 Hsl].
  pose proof (first_unescaped_lookup _ _ _ _ _ He) as [Hse Hel].
  assert (e ≠ s) by (intros ->; congruence).
  rewrite (receive_image_not_image st s e); [|
    apply find_first_correct; auto; lia | done |
    apply find_first_correct; auto; right; congruence | lia | done].
  rewrite clear_bytes_in_buffer_prefix by lia.
  eexists. split; [done|]. done.
Qed.

(** C6.  The scanner's trim with end index [end_index] removes the bytes at
    offsets [0..end_index]: what stays is what was at the offsets past
    [end_index], in order; nothing stays when [end_index] is at or past the
    length. *)
Theorem trim_prefix_removes_through_end st end_index :
  0 ≤ end_index →
  ∃ st', trim_prefix end_index st = (Ok tt, st') ∧
    buffer st' = drop (Z.to_nat end_index + 1) (buffer st) ∧
    (∀ i : nat, buffer st' !! i = buffer st !! (Z.to_nat end_index + 1 + i)%nat) ∧
    (Py.len (buffer st) ≤ end_index → buffer st' = []) ∧
    np_buffer st' = np_buffer st ∧ img st' = img st ∧
    image_size st' = image_size st ∧ pixels_in_image st' = pixels_in_image st.
Proof.
  intros He. unfold trim_prefix.
  rewrite clear_bytes_in_buffer_prefix by lia.
  eexists. split; [done|]. simpl.
  replace (Z.to_nat (end_index + 1)) with (Z.to_nat end_index + 1)%nat by lia.
  split; [done|]. split; [intros i; apply lookup_drop|].
  split; [|done]. intros Hlen. apply drop_ge. unfold Py.len in Hlen. lia.
Qed.

Lemma trim_prefix_removes_through_end_witness :
  ∃ st', trim_prefix 1 (set_buffer [7; 8; 9; 10] init) = (Ok tt, st') ∧
    buffer st' = [9; 10] ∧
    (∀ i : nat, buffer st' !! i = [7; 8; 9; 10] !! (2 + i)%nat) ∧
    (4 ≤ 1 → buffer st' = []) ∧
    np_buffer st' = None ∧ img st' = None ∧
    image_size st' = [0; 0] ∧ pixels_in_image st' = 0.
Proof.
  apply (trim_prefix_removes_through_end (set_buffer [7; 8; 9; 10] init) 1). lia.
Defined.

(** *** Reshaping *)

Lemma rows_of_length r c l : length (Np.rows_of r c l) = r.
Proof. revert l. induction r as [|r IH]; intros l; simpl; [done|]. by rewrite IH. Qed.

Lemma rows_of_lookup r c l (i : nat) :
  (i < r)%nat → Np.rows_of r c l !! i = Some (take c (drop (i * c) l)).
Proof.
  revert l i. induction r as [|r IH]; intros l i Hi; [lia|].
  destruct i as [|i]; simpl; [done|].
  rewrite IH by lia. by rewrite drop_drop.
Qed.

Lemma reshape_exact l r c :
  0 ≤ r → 0 ≤ c → r * c = Py.len l →
  Np.reshape l r c = Ok (Np.rows_of (Z.to_nat r) (Z.to_nat c) l).
Proof.
  intros Hr Hc Hn. unfold Np.reshape.
  destruct (Z.leb_spec 0 r); [|lia]. destruct (Z.leb_spec 0 c); [|lia]. simpl.
  by rewrite (proj2 (Z.eqb_eq _ _) Hn).
Qed.

Lemma reshape_mismatch l r c :
  0 ≤ r → 0 ≤ c → r * c ≠ Py.len l → Np.reshape l r c = Raise ValueError.
Proof.
  intros Hr Hc Hn. unfold Np.reshape.
  destruct (Z.leb_spec 0 r); [|lia]. destruct (Z.leb_spec 0 c); [|lia]. simpl.
  by rewrite (proj2 (Z.eqb_neq _ _) Hn).
Qed.

(** C7, as the code has it.  With geometry [w] by [h] and a decoded payload
    of at least [w * h] bytes, the frame is the first [w * h] bytes cut
    row-major into [h] rows of [w] bytes; a shorter payload is kept whole
    by the slice and the reshape raises [ValueError]. *)
Theorem reshape_frame_rows decoded w h :
  0 ≤ w → 0 ≤ h →
  (w * h ≤ Py.len decoded →
   ∃ frame, reshape_frame decoded (w * h) [w; h] = Ok frame ∧
     Py.len frame = h ∧
     ∀ i j : nat, Z.of_nat i < h → Z.of_nat j < w →
       frame !! i ≫= (fun row => row !! j) = decoded !! (i * Z.to_nat w + j)%nat) ∧
  (Py.len decoded < w * h →
   reshape_frame decoded (w * h) [w; h] = Raise ValueError) ∧
  reshape_frame [10; 20; 30; 40] (2 * 2) [2; 2] = Ok [[10; 20]; [30; 40]].
Proof.
  intros Hw Hh. split; [|split; [|done]].
  - intros Hlen. unfold reshape_frame. simpl.
    rewrite slice_to_take by lia.
    assert (Hcut : Py.len (take (Z.to_nat (w * h)) decoded) = w * h).
    { unfold Py.len in *. rewrite length_take. lia. }
    rewrite reshape_exact by lia.
    eexists. split; [done|]. split.
    { unfold Py.len. rewrite rows_of_length. lia. }
    intros i j Hi Hj. rewrite rows_of_lookup by lia. simpl.
    rewrite lookup_take_lt by lia. rewrite lookup_drop.
    apply lookup_take_lt. nia.
  - intros Hlen. unfold reshape_frame. simpl.
    rewrite slice_to_take by lia.
    apply reshape_mismatch; [done..|].
    unfold Py.len in *. rewrite length_take. lia.
Qed.

Lemma reshape_frame_rows_witness :
  (2 * 3 ≤ Py.len [1; 2; 3; 4; 5; 6; 7] →
   ∃ frame, reshape_frame [1; 2; 3; 4; 5; 6; 7] (2 * 3) [2; 3] = Ok frame ∧
     Py.len frame = 3 ∧
     ∀ i j : nat, Z.of_nat i < 3 → Z.of_nat j < 2 →
       frame !! i ≫= (fun row => row !! j)
       = [1; 2; 3; 4; 5; 6; 7] !! (i * Z.to_nat 2 + j)%nat) ∧
  (Py.len [1; 2; 3; 4; 5; 6; 7] < 2 * 3 →
   reshape_frame [1; 2; 3; 4; 5; 6; 7] (2 * 3) [2; 3] = Raise ValueError) ∧
  reshape_frame [10; 20; 30; 40] (2 * 2) [2; 2] = Ok [[10; 20]; [30; 40]].
Proof.
  apply (reshape_frame_rows [1; 2; 3; 4; 5; 6; 7] 2 3); lia.
Defined.

(** *** The in-place flip reaches the buffer *)

Lemma view_contents_lookup buf v (i : nat) x :
  view_contents buf v !! i = Some x → buf !! (v_off v + i)%nat = Some x.
Proof.
  unfold view_contents. intros [Hx _]%lookup_take_Some.
  by rewrite lookup_drop in Hx.
Qed.

(** X28.  On a window that holds an escape pair and does not end in [0x1B],
    [decode_image] returns the unescaped copy and has complemented the
    escaped byte in [self.buffer] itself. *)
Lemma decode_image_writes_buffer st v (i : nat) c :
  np_buffer st = Some v →
  (v_off v ≤ length (buffer st))%nat →
  view_contents (buffer st) v !! i = Some 0x1B →
  view_contents (buffer st) v !! S i = Some c →
  is_flipped c = true →
  last (view_contents (buffer st) v) ≠ Some 0x1B →
  ∃ st', decode_image st = (Ok (unescape (view_contents (buffer st) v)), st') ∧
    buffer st !! (v_off v + S i)%nat = Some c ∧
    buffer st' !! (v_off v + S i)%nat = Some (Z.lxor c 0xFF) ∧
    buffer st' ≠ buffer st.
Proof.
  intros Hv Hoff Hi Hc Hfl Hlast.
  destruct (decode_image_np_ok _ Hlast) as (flipped & Hdec & Hlen & Hlook).
  unfold decode_image. rewrite Hv, Hdec.
  eexists. split; [done|]. simpl.
  pose proof (view_contents_lookup _ _ _ _ Hc) as Hbc.
  assert (Hnew : view_store (buffer st) v flipped !! (v_off v + S i)%nat
                 = Some (Z.lxor c 255)).
  { rewrite view_store_lookup; [|done|].
    - rewrite (Hlook _ _ Hc).
      replace (Z.of_nat (S i) - 1) with (Z.of_nat i) by lia.
      rewrite (proj2 (esc_at_inv _ _)); [done|].
      split; [lia|]. rewrite Nat2Z.id. split; [done|].
      exists c. by replace (Z.to_nat (Z.of_nat i + 1)) with (S i) by lia.
    - rewrite Hlen. by apply lookup_lt_Some in Hc. }
  split; [done|]. split; [done|].
  intros Heq. rewrite Heq, Hbc in Hnew.
  injection Hnew as Hnew. symmetry in Hnew. by apply flipped_changes in Hnew.
Qed.

Lemma decode_image_writes_buffer_ex :
  decode_image (scanning (set_buffer [7; 0x1B; 0xFE; 9] init)) =
  (Ok [7; 0x01; 9],
   set_buffer [7; 0x1B; 0x01; 9] (scanning (set_buffer [7; 0x1B; 0xFE; 9] init))).
Proof. reflexivity. Qed.

(** ** [decode_image] on the object *)

(** On a window that does not end in [0x1B], [decode_image] returns the
    window with the byte stuffing reversed: one byte shorter for each escape
    pair, and the window itself when there is none. *)
Lemma decode_image_unescapes st v :
  np_buffer st = Some v →
  last (view_contents (buffer st) v) ≠ Some 0x1B →
  ∃ st', decode_image st = (Ok (unescape (view_contents (buffer st) v)), st') ∧
    (length (unescape (view_contents (buffer st) v))
     + escapes (view_contents (buffer st) v))%nat
    = length (view_contents (buffer st) v) ∧
    (escapes (view_contents (buffer st) v) = O →
     unescape (view_contents (buffer st) v) = view_contents (buffer st) v).
Proof.
  intros Hv Hlast.
  destruct (decode_image_np_ok _ Hlast) as (flipped & Hdec & _).
  unfold decode_image. rewrite Hv, Hdec.
  eexists. split; [done|]. split; [apply unescape_length|apply unescape_no_escape].
Qed.

Lemma decode_image_unescapes_ex :
  ∃ st', decode_image (scanning (set_buffer [0x1B; 0x1B; 0xFE; 3; 0x1B; 0xFB] init))
         = (Ok [0x1B; 0x01; 3; 0x04], st') ∧
         buffer st' = [0x1B; 0x1B; 0x01; 3; 0x1B; 0x04].
Proof. eexists. split; reflexivity. Qed.

(** ** Evaluations *)

(** C1.  Searching [[5; 1]] from position 1 for target 1: the first
    unescaped occurrence at or after the start is index 1, the method
    returns 0, the index inside the trimmed window. *)
Theorem find_first_window_relative_at_start :
  find_first_a_not_preceded_by_b [5; 1] 1 1 9 = Ok 0 ∧
  first_unescaped [5; 1] 1 1 9 1.
Proof.
  split; [reflexivity|]. split.
  - split; [lia|]. split; [reflexivity|]. by left.
  - intros k Hk (Hk' & _). lia.
Qed.

(** C2.  A one-byte sequence [0x1B] holds no escape pair; [decode_image]
    raises [IndexError] on it and returns nothing.  So does [receive_image]
    on a framed payload that ends in [0x1B]. *)
Theorem decode_image_trailing_escape_raises :
  escapes [0x1B] = O ∧
  decode_image (scanning (set_buffer [0x1B] init)) =
  (Raise IndexError, scanning (set_buffer [0x1B] init)) ∧
  escapes [10; 20; 30; 0x1B] = O ∧
  (receive_image (session 2 2 (image_message [10; 20; 30; 0x1B]))).1
  = Raise IndexError.
Proof. repeat split. Qed.

(** C4.  In [[0x27; 0x01; 0x41; 0x04; 0x55]] the first [0x01] not preceded
    by [0x1B] is at index 1 and the first such [0x04] from there at index
    3; the scanner, whose guard is [0x27], finds no start and clears the
    whole buffer. *)
Theorem receive_image_guard_is_0x27 :
  first_unescaped [0x27; 0x01; 0x41; 0x04; 0x55] 0 0x01 0x1B 1 ∧
  first_unescaped [0x27; 0x01; 0x41; 0x04; 0x55] 1 0x04 0x1B 3 ∧
  find_first_a_not_preceded_by_b [0x27; 0x01; 0x41; 0x04; 0x55] 0 0x01 0x27
  = Ok (-1) ∧
  receive_image (set_buffer [0x27; 0x01; 0x41; 0x04; 0x55] init) =
  (Ok false, set_np_buffer (Some (mkView 0 5)) (set_buffer [] init)).
Proof.
  split; [|split; [|split; reflexivity]].
  - apply find_first_sound; [lia|by left|reflexivity|lia].
  - apply find_first_sound; [lia|by right|reflexivity|lia].
Qed.

(** C10.  The window [[0x1B; 0xFE; 0x1B]] holds an escape pair;
    [decode_image] raises [IndexError] on it before the flip, and the
    buffer is as it was, also when the window is the payload of a framed
    message given to [receive_image]. *)
Theorem decode_image_raises_before_flip :
  esc_at [0x1B; 0xFE; 0x1B] 0 = true ∧
  decode_image (scanning (set_buffer [0x1B; 0xFE; 0x1B] init)) =
  (Raise IndexError, scanning (set_buffer [0x1B; 0xFE; 0x1B] init)) ∧
  (receive_image (session 1 1 (image_message [0x1B; 0xFE; 0x1B]))).1
  = Raise IndexError ∧
  buffer (receive_image (session 1 1 (image_message [0x1B; 0xFE; 0x1B]))).2
  = image_message [0x1B; 0xFE; 0x1B].
Proof. repeat split. Qed.

(** *** The payload window *)

Lemma slice_lookup (buf : list Z) a b (i : nat) :
  0 ≤ a → 0 ≤ b ≤ Py.len buf →
  Py.slice buf a b !! i =
  if decide (a + Z.of_nat i < b) then buf !! Z.to_nat (a + Z.of_nat i) else None.
Proof.
  intros Ha Hb. unfold Py.slice.
  rewrite (slice_bound_in _ b) by done.
  rewrite lookup_drop, lookup_take.
  unfold Py.slice_bound. destruct (Z.ltb_spec a 0); [lia|].
  destruct (Z.min_spec a (Py.len buf)) as [[Hlt ->]|[Hge ->]].
  - repeat case_decide; try lia; [|done]. f_equal. lia.
  - rewrite decide_False by lia. by rewrite decide_False by lia.
Qed.

(** C9, as the code has it.  With ['#'] found at [p] and the byte [c] after
    it, [digit_count] is [c] minus the code of ['0'], and the scanner narrows
    its view (line 334) to the bytes at indices [first .. last] of the
    buffer, where [first] is [1 + 4 + digit_count] past the count byte at
    [p + 1], that is [p + 2 + 4 + digit_count], and [last] is [e - 2].  The
    view is read off the state [receive_image] leaves; the image it stores
    is decoded from those bytes. *)
Theorem payload_window_is_the_narrowed_view st s e p c :
  reaches_decode (buffer st) s e →
  Py.find (buffer st) (encode_utf8 "#") s = p → 0 ≤ p →
  buffer st !! Z.to_nat (p + 1) = Some c →
  let digit_count := c - ord "0" in
  let first := p + 2 + 4 + digit_count in
  let last := e - 2 in
  0 ≤ first →
  payload_window (buffer st) s e = Ok (first, last) ∧
  ∃ v, np_buffer (receive_image st).2 = Some v ∧
    (∀ i : nat,
       view_contents (buffer st) v !! i =
       if decide (first + Z.of_nat i ≤ last)
       then buffer st !! Z.to_nat (first + Z.of_nat i) else None) ∧
    match (receive_image st).1 with
    | Ok valid_frame =>
        valid_frame = true ∧
        ∃ frame,
          reshape_frame (unescape (view_contents (buffer st) v))
            (pixels_in_image st) (image_size st) = Ok frame ∧
          img (receive_image st).2 = Some frame
    | Raise _ => img (receive_image st).2 = img st
    end.
Proof.
  intros Hreach Hp Hp0 Hc digit_count first last Hfirst.
  destruct (reaches_decode_finds _ _ _ Hreach) as (Hs & Hs0 & He & Hse & Hlen).
  assert (Hpw : payload_window (buffer st) s e = Ok (first, last)).
  { unfold payload_window. rewrite Hp.
    rewrite (index_Ok _ _ c) by (done || lia). simpl.
    do 2 f_equal. unfold first, digit_count. lia. }
  split; [done|].
  destruct Hreach as (_ & _ & Htag).
  rewrite (receive_image_decode st s e), Hpw by done.
  rewrite decode_step_run by done.
  change (buffer (scanning st)) with (buffer st).
  change (pixels_in_image (scanning st)) with (pixels_in_image st).
  change (image_size (scanning st)) with (image_size st).
  cbv zeta.
  set (v := view_slice (frombuffer (buffer st)) first (last + 1)).
  exists v.
  assert (Hwin : view_contents (buffer st) v = Py.slice (buffer st) first (last + 1)).
  { apply view_contents_slice. }
  assert (Hlook : ∀ i : nat,
            view_contents (buffer st) v !! i =
            if decide (first + Z.of_nat i ≤ last)
            then buffer st !! Z.to_nat (first + Z.of_nat i) else None).
  { intros i. rewrite Hwin, slice_lookup by (unfold last; lia).
    unfold last. repeat case_decide; done || lia. }
  rewrite Hwin.
  destruct (decode_image_np_cases (Py.slice (buffer st) first (last + 1)))
    as [-> | (flipped & -> & _)].
  { cbn. by rewrite <- Hwin. }
  destruct (reshape_frame _ _ _) as [frame|err] eqn:Hframe.
  - cbn. split; [done|]. split; [by rewrite <- Hwin|].
    split; [done|]. by exists frame.
  - cbn. by rewrite <- Hwin.
Qed.

Lemma payload_window_is_the_narrowed_view_witness :
  let st := session 2 2 (image_message [10; 20; 30; 40]) in
  payload_window (buffer st) 0 28 = Ok (16 + 2 + 4 + (49 - ord "0"), 28 - 2) ∧
  ∃ v, np_buffer (receive_image st).2 = Some v ∧
    (∀ i : nat,
       view_contents (buffer st) v !! i =
       if decide (16 + 2 + 4 + (49 - ord "0") + Z.of_nat i ≤ 28 - 2)
       then buffer st !! Z.to_nat (16 + 2 + 4 + (49 - ord "0") + Z.of_nat i)
       else None) ∧
    match (receive_image st).1 with
    | Ok valid_frame =>
        valid_frame = true ∧
        ∃ frame,
          reshape_frame (unescape (view_contents (buffer st) v))
            (pixels_in_image st) (image_size st) = Ok frame ∧
          img (receive_image st).2 = Some frame
    | Raise _ => img (receive_image st).2 = img st
    end.
Proof.
  apply (payload_window_is_the_narrowed_view
           (session 2 2 (image_message [10; 20; 30; 40])) 0 28 16 49).
  - apply reaches_decode_intro; try reflexivity; vm_compute; intuition congruence.
  - reflexivity.
  - lia.
  - reflexivity.
  - vm_compute. discriminate.
Defined.

(** C9 as stated fails.  In this message ['#'] is at 16, the count byte is
    ['1'] and the end byte at 28; the window is 23..26.  Counting "after"
    and "before" as index differences puts the start at [16 + (1 + 4 + 1)],
    which is 22, the length digit; counting the bytes that lie between puts
    the end at [28 - 3]: under either way of counting one bound is not the
    code's. *)
Lemma payload_window_off_by_one :
  let buf := image_message [10; 20; 30; 40] in
  reaches_decode buf 0 28 ∧
  Py.find buf (encode_utf8 "#") 0 = 16 ∧
  buf !! 17%nat = Some (ord "0" + 1) ∧
  payload_window buf 0 28 = Ok (23, 26) ∧
  (23, 26) ≠ (16 + (1 + 4 + 1), 28 - 2) ∧
  (23, 26) ≠ (16 + (1 + 4 + 1) + 1, 28 - 2 - 1) ∧
  buf !! 22%nat = Some (ord "4") ∧
  np_buffer (receive_image (session 2 2 buf)).2 = Some (mkView 23 4) ∧
  img (receive_image (session 2 2 buf)).2 = Some [[10; 20]; [30; 40]].
Proof.
  cbv zeta. split.
  { apply reaches_decode_intro; try reflexivity; vm_compute; intuition congruence. }
  repeat split; try reflexivity; vm_compute; congruence.
Qed.

(** *** End-to-end frames *)

Example receive_image_frame_2x2 :
  receive_image (session 2 2 (image_message [10; 20; 30; 40] ++ [0x01; 0x41])) =
  (Ok true,
   {| buffer := [0x01; 0x41]; np_buffer := Some (mkView 23 4);
      img := Some [[10; 20]; [30; 40]];
      image_size := [2; 2]; pixels_in_image := 4 |}).
Proof. reflexivity. Qed.

Example receive_image_frame_escaped :
  receive_image (session 2 2 (image_message [10; 0x1B; 0xFE; 30; 40])) =
  (Ok true,
   {| buffer := []; np_buffer := Some (mkView 23 5);
      img := Some [[10; 0x01]; [30; 40]];
      image_size := [2; 2]; pixels_in_image := 4 |}).
Proof. reflexivity. Qed.

(** The flip outlives a failed decode: the payload is one byte short, the
    reshape raises, and the buffer keeps the complemented byte, a bare
    [0x01] inside the message. *)
Example receive_image_flip_outlives_error :
  let buf := image_message [10; 0x1B; 0xFE; 30] in
  (receive_image (session 2 2 buf)).1 = Raise ValueError ∧
  buf !! 25%nat = Some 0xFE ∧
  buffer (receive_image (session 2 2 buf)).2 = <[25%nat := 0x01]> buf.
Proof. repeat split. Qed.

Example receive_image_non_image :
  receive_image (session 2 2 [0x01; 0x41; 0x04]) =
  (Ok false,
   {| buffer := []; np_buffer := Some (mkView 0 3); img := None;
      image_size := [2; 2]; pixels_in_image := 4 |}).
Proof. reflexivity. Qed.

Lemma receive_image_consumes_on_success_witness :
  match receive_image (session 2 2 (image_message [10; 20; 30; 40] ++ [0x01; 0x41])) with
  | (Ok valid_frame, st') =>
      valid_frame = true ∧
      buffer st' = drop (Z.to_nat (28 + 1))
                     (image_message [10; 20; 30; 40] ++ [0x01; 0x41])
  | (Raise _, st') =>
      length (buffer st') = length (image_message [10; 20; 30; 40] ++ [0x01; 0x41])
  end.
Proof.
  apply (receive_image_consumes_on_success
           (session 2 2 (image_message [10; 20; 30; 40] ++ [0x01; 0x41])) 0 28).
  apply reaches_decode_intro; try reflexivity; vm_compute; intuition congruence.
Defined.

(** C3 as stated fails: the decode step is reached, the payload is one byte
    short of the geometry, the reshape raises and bytes [0..e] are all
    still in the buffer. *)
Lemma receive_image_reshape_error_keeps_bytes :
  let buf := image_message [10; 20; 30] in
  reaches_decode buf 0 27 ∧
  (receive_image (session 2 2 buf)).1 = Raise ValueError ∧
  buffer (receive_image (session 2 2 buf)).2 = buf ∧
  buffer (receive_image (session 2 2 buf)).2 ≠ drop (Z.to_nat (27 + 1)) buf.
Proof.
  split; [|split; [|split]].
  - apply reaches_decode_intro; try reflexivity; vm_compute; intuition congruence.
  - reflexivity.
  - reflexivity.
  - vm_compute. discriminate.
Qed.

(** C7 as stated fails on a payload shorter than the geometry: no frame. *)
Lemma reshape_frame_short_payload :
  reshape_frame [10; 20; 30] (2 * 2) [2; 2] = Raise ValueError.
Proof. reflexivity. Qed.

(** ** Text of the window-size response *)

Section StrFacts.
Import Str.

Lemma num_char_plain c :
  num_char c = true →
  is_space c = false ∧ Ascii.eqb c ";" = false ∧ Ascii.eqb c "," = false.
Proof.
  destruct c as [[] [] [] [] [] [] [] []]; vm_compute; intuition congruence.
Qed.

Lemma digit_not_sign c :
  is_digit c = true → Ascii.eqb c "-" = false ∧ Ascii.eqb c "+" = false.
Proof.
  destruct c as [[] [] [] [] [] [] [] []]; vm_compute; intuition congruence.
Qed.

Lemma fields_plain sep s :
  forallb (fun c => negb (sep c)) s = true → fields sep s = [s].
Proof.
  induction s as [|c s IH]; simpl; [done|].
  intros [Hc Hs]%andb_true_iff. apply negb_true_iff in Hc.
  by rewrite Hc, IH.
Qed.

Lemma fields_app_sep sep a c b :
  forallb (fun c => negb (sep c)) a = true → sep c = true →
  fields sep (a ++ c :: b) = a :: fields sep b.
Proof.
  intros Ha Hc. induction a as [|x a IH]; simpl.
  - by rewrite Hc.
  - simpl in Ha. apply andb_true_iff in Ha as [Hx Ha].
    apply negb_true_iff in Hx. by rewrite Hx, IH.
Qed.

Lemma lstrip_plain p s :
  forallb (fun c => negb (p c)) s = true → lstrip p s = s.
Proof.
  destruct s as [|c s]; [done|]. simpl.
  intros [Hc _]%andb_true_iff. apply negb_true_iff in Hc. by rewrite Hc.
Qed.

Lemma forallb_rev {A} (f : A → bool) l : forallb f (rev l) = forallb f l.
Proof.
  induction l as [|x l IH]; [done|]. simpl.
  rewrite forallb_app, IH. simpl. rewrite andb_true_r. apply andb_comm.
Qed.

Lemma strip_plain p s :
  forallb (fun c => negb (p c)) s = true → strip p s = s.
Proof.
  intros Hs. unfold strip. rewrite (lstrip_plain p s Hs).
  rewrite lstrip_plain by (by rewrite forallb_rev).
  apply rev_involutive.
Qed.

Lemma strip_trailing p s c :
  forallb (fun c => negb (p c)) s = true → p c = true →
  strip p (s ++ [c]) = s.
Proof.
  intros Hs Hc. unfold strip.
  assert (Hl : s ≠ [] → lstrip p (s ++ [c]) = s ++ [c]).
  { destruct s as [|x t]; [done|]. intros _.
    simpl in Hs. apply andb_true_iff in Hs as [Hx _].
    apply negb_true_iff in Hx. simpl. by rewrite Hx. }
  destruct (decide (s = [])) as [->|Hne].
  { simpl. by rewrite Hc. }
  rewrite Hl, rev_unit by done. simpl lstrip. rewrite Hc.
  rewrite lstrip_plain by (by rewrite forallb_rev).
  apply rev_involutive.
Qed.

Lemma digits_val_digits ds : ∀ acc b,
  forallb is_digit ds = true → ds ≠ [] →
  digits_val acc b ds = Some (horner ds acc).
Proof.
  induction ds as [|c ds IH]; intros acc b Hds Hne; [done|].
  simpl in Hds. apply andb_true_iff in Hds as [Hc Hds].
  simpl. rewrite Hc.
  destruct ds as [|d ds]; [done|]. by apply IH.
Qed.

Lemma code_digit_char d : 0 ≤ d < 10 → code (digit_char d) = 48 + d.
Proof.
  intros Hd. unfold code, digit_char.
  rewrite nat_ascii_embedding by lia. lia.
Qed.

Lemma is_digit_digit_char d : 0 ≤ d < 10 → is_digit (digit_char d) = true.
Proof.
  intros Hd. unfold is_digit. rewrite code_digit_char by done.
  apply andb_true_iff. split; [apply Z.leb_le|apply Z.leb_le]; lia.
Qed.

Lemma digits_of_spec fuel : ∀ n,
  0 ≤ n < 10 ^ Z.of_nat (S fuel) →
  forallb is_digit (digits_of (S fuel) n) = true ∧
  digits_of (S fuel) n ≠ [] ∧
  horner (digits_of (S fuel) n) 0 = n.
Proof.
  induction fuel as [|fuel IH]; intros n Hn;
    change (digits_of (S ?f) n)
      with (if n <? 10 then [digit_char n]
            else digits_of f (n / 10) ++ [digit_char (n mod 10)]);
    destruct (Z.ltb_spec n 10) as [Hlt|Hge].
  - split; [|split; [done|]].
    + simpl. by rewrite is_digit_digit_char by lia.
    + unfold horner. simpl. rewrite code_digit_char by lia. lia.
  - change (10 ^ Z.of_nat 1) with 10 in Hn. lia.
  - split; [|split; [done|]].
    + simpl. by rewrite is_digit_digit_char by lia.
    + unfold horner. simpl. rewrite code_digit_char by lia. lia.
  - assert (0 ≤ n / 10 < 10 ^ Z.of_nat (S fuel)) as Hq.
    { split; [apply Z.div_pos; lia|].
      apply Z.div_lt_upper_bound; [lia|].
      rewrite (Nat2Z.inj_succ (S fuel)), Z.pow_succ_r in Hn by lia. lia. }
    destruct (IH _ Hq) as (Hdig & Hne & Hval).
    pose proof (Z.mod_pos_bound n 10 ltac:(lia)) as Hm.
    split; [|split].
    + rewrite forallb_app, Hdig. simpl. by rewrite is_digit_digit_char by lia.
    + by destruct (digits_of (S fuel) (n / 10)).
    + unfold horner in *. rewrite fold_left_app, Hval. simpl.
      rewrite code_digit_char by lia.
      pose proof (Z.div_mod n 10 ltac:(lia)). lia.
Qed.

Lemma of_int_digits m :
  0 ≤ m →
  let ds := digits_of (S (Z.to_nat (Z.log2 m))) m in
  forallb is_digit ds = true ∧ ds ≠ [] ∧ horner ds 0 = m.
Proof.
  intros Hm. apply digits_of_spec. split; [done|].
  pose proof (Z.log2_nonneg m) as Hl.
  rewrite Nat2Z.inj_succ, Z2Nat.id by done.
  destruct (decide (m = 0)) as [->|Hne]; [done|].
  pose proof (Z.log2_spec m ltac:(lia)) as [_ Hlt].
  eapply Z.lt_le_trans; [exact Hlt|].
  apply Z.pow_le_mono_l. lia.
Qed.

Lemma of_int_chars z : forallb num_char (of_int z) = true.
Proof.
  unfold of_int.
  destruct (of_int_digits (Z.abs z) (Z.abs_nonneg z)) as (Hdig & _ & _).
  assert (Hnum : forallb num_char
      (digits_of (S (Z.to_nat (Z.log2 (Z.abs z)))) (Z.abs z)) = true).
  { apply forallb_forall. intros c Hc. unfold num_char.
    by rewrite (proj1 (forallb_forall _ _) Hdig c Hc). }
  destruct (z <? 0); [|done]. cbn [forallb]. by rewrite Hnum.
Qed.

Lemma forallb_weaken {A} (f g : A → bool) l :
  (∀ x, f x = true → g x = true) → forallb f l = true → forallb g l = true.
Proof.
  intros Hfg Hf. apply forallb_forall. intros x Hx.
  apply Hfg. by apply (proj1 (forallb_forall _ _) Hf).
Qed.

(** [int(str(z)) == z] *)
Lemma int_of_int z : int (of_int z) = Ok z.
Proof.
  unfold int. rewrite strip_plain.
  2:{ eapply forallb_weaken; [|apply of_int_chars].
      intros c Hc. apply num_char_plain in Hc as (-> & _). done. }
  unfold of_int.
  destruct (of_int_digits (Z.abs z) (Z.abs_nonneg z)) as (Hdig & Hne & Hval).
  destruct (Z.ltb_spec z 0).
  - simpl. rewrite (digits_val_digits _ _ _ Hdig Hne), Hval. f_equal. lia.
  - destruct (digits_of _ _) as [|d ds] eqn:Hds; [done|].
    simpl in Hdig. apply andb_true_iff in Hdig as [Hd Hdig].
    destruct (digit_not_sign d Hd) as [-> ->].
    rewrite (digits_val_digits (d :: ds) 0 false); [|by simpl; rewrite Hd|done].
    rewrite Hval. f_equal. lia.
Qed.

End StrFacts.

(** The response text [DATA:US_WIN_SIZE w,h;] is accepted for every pair of
    integers, zero and negative ones included: the two values are stored as
    the geometry and their product as the pixel count. *)
Lemma parse_win_size_message_any_integers st w h :
  parse_win_size_message
    (Str.lit "DATA:US_WIN_SIZE " ++ Str.of_int w ++ Str.lit "," ++
     Str.of_int h ++ Str.lit ";") st =
  (Ok tt, set_pixels_in_image (w * h) (set_image_size [w; h] st)).
Proof.
  pose proof (of_int_chars w) as Hw. pose proof (of_int_chars h) as Hh.
  assert (Hplain : ∀ z (p : ascii → bool),
            (∀ c, Str.num_char c = true → p c = false) →
            forallb (fun c => negb (p c)) (Str.of_int z) = true).
  { intros z p Hp. eapply forallb_weaken; [|apply of_int_chars].
    intros c Hc. by rewrite (Hp c Hc). }
  set (body := Str.of_int w ++ Str.lit "," ++ Str.of_int h).
  assert (Hbody : ∀ p : ascii → bool,
            (∀ c, Str.num_char c = true → p c = false) → p ","%char = false →
            forallb (fun c => negb (p c)) body = true).
  { intros p Hp Hcomma. unfold body. rewrite !forallb_app, !Hplain by done.
    simpl. by rewrite Hcomma. }
  assert (Hsplit : Str.split (Str.lit "DATA:US_WIN_SIZE " ++ body ++ Str.lit ";")
                   = [Str.lit "DATA:US_WIN_SIZE"; body ++ Str.lit ";"]).
  { unfold Str.split.
    change (Str.lit "DATA:US_WIN_SIZE " ++ body ++ Str.lit ";")
      with (Str.lit "DATA:US_WIN_SIZE" ++ " "%char :: (body ++ Str.lit ";")).
    rewrite fields_app_sep by done.
    rewrite fields_plain.
    - rewrite !filter_cons, filter_nil.
      rewrite decide_True by done.
      rewrite decide_True; [done|].
      unfold body. destruct (Str.of_int w); done.
    - rewrite forallb_app, Hbody; [done| |done].
      intros c Hc. by apply num_char_plain in Hc as (-> & _). }
  unfold parse_win_size_message.
  replace (Str.lit "DATA:US_WIN_SIZE " ++ Str.of_int w ++ Str.lit "," ++
           Str.of_int h ++ Str.lit ";")
    with (Str.lit "DATA:US_WIN_SIZE " ++ body ++ Str.lit ";")
    by (unfold body; by rewrite <- !app_assoc).
  rewrite Hsplit.
  unfold mbind, M_bind, lift, modify.
  change (Str.last_item [Str.lit "DATA:US_WIN_SIZE"; body ++ Str.lit ";"])
    with (Ok (body ++ Str.lit ";")).
  cbv iota beta. change (Str.lit ";") with [";"%char].
  rewrite (strip_trailing _ body).
  2:{ apply Hbody; [|done]. intros c Hc. by apply num_char_plain in Hc as (_ & -> & _). }
  2:{ done. }
  unfold Str.split_on, body.
  change (Str.lit "," ++ Str.of_int h) with (","%char :: Str.of_int h).
  rewrite fields_app_sep; [|apply Hplain|done].
  2:{ intros c Hc. by apply num_char_plain in Hc as (_ & _ & ->). }
  rewrite fields_plain.
  2:{ apply Hplain. intros c Hc. by apply num_char_plain in Hc as (_ & _ & ->). }
  simpl result_mapM. rewrite !int_of_int. simpl. done.
Qed.

(** C8 as stated fails: width zero is accepted and stored. *)
Lemma parse_win_size_message_accepts_zero :
  parse_win_size_message (Str.lit "DATA:US_WIN_SIZE 0,480;") init =
  (Ok tt, set_pixels_in_image 0 (set_image_size [0; 480] init)) ∧
  ¬ (0 < 0).
Proof. split; [reflexivity|lia]. Qed.

Example parse_win_size_message_640_480 :
  parse_win_size_message (Str.lit "DATA:US_WIN_SIZE 640,480;") init =
  (Ok tt, set_pixels_in_image 307200 (set_image_size [640; 480] init)).
Proof. reflexivity. Qed.

Example parse_win_size_message_negative :
  parse_win_size_message (Str.lit "DATA:US_WIN_SIZE -3,4;") init =
  (Ok tt, set_pixels_in_image (-12) (set_image_size [-3; 4] init)).
Proof. reflexivity. Qed.

(** * The rest of the class *)

(** ** The command channel *)

Lemma recv_length n k bs k' :
  Sock.recv n k = (Returns bs, k') → 0 ≤ n ∧ Py.len bs ≤ n.
Proof.
  unfold Sock.recv. destruct (n <? 0) eqn:Hn; [discriminate|].
  destruct (negb (Sock.usable k)); [discriminate|].
  destruct (incoming k) as [|[bs0|] rest]; try discriminate.
  intros [= <- _]. apply Z.ltb_ge in Hn. split; [done|].
  unfold Py.len. rewrite length_take. lia.
Qed.

Lemma recv_flags n k r k' :
  Sock.recv n k = (r, k') →
  closed k' = closed k ∧ connected k' = connected k ∧ answers k' = answers k ∧
  sent k' = sent k ∧ outgoing k' = outgoing k.
Proof.
  unfold Sock.recv. destruct (n <? 0); [by intros [= _ <-]|].
  destruct (negb (Sock.usable k)); [by intros [= _ <-]|].
  destruct (incoming k) as [|[bs0|] rest]; by intros [= _ <-].
Qed.

Lemma recv_not_beyond n k k' : Sock.recv n k ≠ (Beyond, k').
Proof.
  unfold Sock.recv. destruct (n <? 0); [done|].
  destruct (negb (Sock.usable k)); [done|].
  by destruct (incoming k) as [|[bs0|] rest].
Qed.

Lemma slice_inner_length {A} (bs : list A) :
  Py.len (Py.slice bs 1 (-1)) = Z.max 0 (Py.len bs - 2).
Proof.
  unfold Py.slice, Py.slice_bound, Py.len.
  change (1 <? 0) with false. change (-1 <? 0) with true. cbv iota.
  rewrite length_drop, length_take. lia.
Qed.

Lemma slice_inner_frame {A} (x y : A) (m : list A) :
  Py.slice (x :: m ++ [y]) 1 (-1) = m.
Proof.
  unfold Py.slice, Py.slice_bound, Py.len.
  change (1 <? 0) with false. change (-1 <? 0) with true. cbv iota.
  cbn [length]. rewrite length_app. cbn [length].
  replace (Z.to_nat (Z.max (-1 + Z.of_nat (S (length m + 1))) 0))
    with (S (length m)) by lia.
  replace (Z.to_nat (Z.min 1 (Z.of_nat (S (length m + 1))))) with 1%nat by lia.
  cbn [take drop]. rewrite take_app_length. done.
Qed.

Lemma code_range c : 0 ≤ Str.code c < 256.
Proof.
  unfold Str.code. pose proof (nat_ascii_bounded c). lia.
Qed.

Lemma encode_app a b : Utf8.encode (a ++ b) = Utf8.encode a ++ Utf8.encode b.
Proof. unfold Utf8.encode. apply flat_map_app. Qed.

Lemma encode_ascii m :
  forallb (fun c => Str.code c <? 128) m = true → Utf8.encode m = map Str.code m.
Proof.
  induction m as [|c m IH]; [done|]. cbn [forallb].
  intros [Hc Hm]%andb_prop. unfold Utf8.encode in *. cbn [flat_map map].
  change (Str.code c <? 128) with (Str.code c <? 128) in Hc.
  rewrite Hc. cbn [app]. by rewrite IH.
Qed.

Lemma encode_length m : Py.len m ≤ Py.len (Utf8.encode m).
Proof.
  unfold Py.len. induction m as [|c m IH]; [done|].
  unfold Utf8.encode in *. cbn [flat_map]. rewrite length_app.
  destruct (Str.code c <? 128); cbn [length]; lia.
Qed.

Lemma encode_length_wide m c :
  c ∈ m → 128 ≤ Str.code c → Py.len m < Py.len (Utf8.encode m).
Proof.
  intros Hin Hc. apply list_elem_of_split in Hin as (a & b & ->).
  rewrite encode_app. change (c :: b) with ([c] ++ b). rewrite encode_app.
  pose proof (encode_length a). pose proof (encode_length b).
  unfold Py.len in *. rewrite !length_app.
  unfold Utf8.encode at 2. cbn [flat_map].
  destruct (Str.code c <? 128) eqn:E; [apply Z.ltb_lt in E; lia|].
  cbn [length app]. lia.
Qed.

Lemma decode_encode m : Utf8.decode (Utf8.encode m) = Some (map Str.code m).
Proof.
  induction m as [|c m IH]; [done|].
  change (c :: m) with ([c] ++ m). rewrite encode_app.
  unfold Utf8.encode at 1. cbn [flat_map map app].
  pose proof (code_range c) as Hr.
  destruct (Str.code c <? 128) eqn:E.
  - cbn [app Utf8.decode]. rewrite E, IH. done.
  - apply Z.ltb_ge in E. cbn [app Utf8.decode].
    assert (Hq : 2 ≤ Str.code c / 64 ≤ 3).
    { split; [apply Z.div_le_lower_bound; lia|].
      apply Z.lt_succ_r, Z.div_lt_upper_bound; lia. }
    pose proof (Z.mod_pos_bound (Str.code c) 64 ltac:(lia)) as Hm.
    replace (192 + Str.code c / 64 <? 128) with false by (symmetry; apply Z.ltb_ge; lia).
    replace ((194 <=? 192 + Str.code c / 64) && (192 + Str.code c / 64 <=? 223))
      with true by (symmetry; apply andb_true_intro; split; apply Z.leb_le; lia).
    unfold Utf8.continues.
    replace ((128 <=? 128 + Str.code c mod 64) && (128 + Str.code c mod 64 <=? 191))
      with true by (symmetry; apply andb_true_intro; split; apply Z.leb_le; lia).
    rewrite IH. cbn. f_equal. f_equal.
    pose proof (Z.div_mod (Str.code c) 64 ltac:(lia)). lia.
Qed.

Lemma text_codes m : Utf8.text (map Str.code m) = Some m.
Proof.
  unfold Utf8.text.
  assert (forallb (fun n => n <? 256) (map Str.code m) = true) as ->.
  { apply forallb_forall. intros x [c [<- _]]%in_map_iff.
    apply Z.ltb_lt. apply code_range. }
  f_equal. rewrite map_map. rewrite <- (map_id m) at 2. apply map_ext.
  intros c. unfold Str.code. rewrite Nat2Z.id. apply ascii_nat_embedding.
Qed.

(** Unfolding of the client's methods. *)
Ltac run_act :=
  unfold mbind, mret, Act_bind, Act_ret, on_socket, on_bk, reads, writes,
    raise, try_except in *; cbn beta iota in *.

Lemma send_cases payload k :
  (∃ k', Sock.send payload k = (Raises IOError, k') ∧ sent k' = sent k ∧
         closed k' = closed k ∧ connected k' = connected k) ∨
  (∃ n k', Sock.send payload k = (Returns n, k') ∧ 0 ≤ n ≤ Py.len payload ∧
           sent k' = sent k ++ [take (Z.to_nat n) payload] ∧
           closed k' = closed k ∧ connected k' = connected k ∧
           incoming k' = incoming k ∧
           (outgoing k = [] → n = Py.len payload)).
Proof.
  unfold Sock.send. pose proof (len_nonneg payload) as Hl.
  destruct (negb (Sock.usable k)); [left; by eexists|].
  destruct (outgoing k) as [|[n|] rest].
  - right. eexists _, _. split; [done|]. cbn.
    rewrite take_ge by (unfold Py.len; lia). repeat split; try done; lia.
  - right. eexists _, _. split; [done|]. cbn. repeat split; try done; lia.
  - left. by eexists.
Qed.

Lemma send_command_message_run message s :
  send_command_message message s =
  match Sock.send (Utf8.encode (generate_command_message message)) (sock s) with
  | (Returns n, k) =>
      if n =? Py.len message + 2 then (Returns true, set_sock k s)
      else (Raises IOError, set_sock k s)
  | (Raises e, k) => (Raises e, set_sock k s)
  | (Beyond, k) => (Beyond, set_sock k s)
  end.
Proof.
  unfold send_command_message. run_act.
  destruct (Sock.send _ _) as [[n|e|] k]; try done.
  assert (Py.len (generate_command_message message) = Py.len message + 2) as ->.
  { unfold generate_command_message, char_start, char_end, Py.len.
    cbn [app length]. rewrite length_app. cbn [length]. lia. }
  by destruct (n =? _).
Qed.

Lemma receive_response_message_run expected_size s :
  receive_response_message expected_size s =
  match Sock.recv (expected_size + 2) (sock s) with
  | (Returns bs, k) =>
      if expected_size <? Py.len (Py.slice bs 1 (-1))
      then (Raises IOError, set_data (Some (Py.slice bs 1 (-1))) (set_sock k s))
      else (Returns true, set_data (Some (Py.slice bs 1 (-1))) (set_sock k s))
  | (Raises e, k) => (Raises e, set_sock k s)
  | (Beyond, k) => (Beyond, set_sock k s)
  end.
Proof.
  unfold receive_response_message. run_act.
  destruct (Sock.recv _ _) as [[bs|e|] k]; try done.
  cbn. by destruct (expected_size <? _).
Qed.

Lemma set_sock_same s : set_sock (sock s) s = s.
Proof. by destruct s. Qed.

Lemma send_command_message_sent message s is_ok s' :
  forallb (fun c => Str.code c <? 128) message = true →
  send_command_message message s = (Returns is_ok, s') →
  is_ok = true ∧
  sent (sock s') = sent (sock s) ++ [[0x01] ++ map Str.code message ++ [0x04]].
Proof.
  intros Hascii. rewrite send_command_message_run.
  assert (Henc : Utf8.encode (generate_command_message message)
                 = [0x01] ++ map Str.code message ++ [0x04]).
  { unfold generate_command_message. rewrite !encode_app.
    by rewrite (encode_ascii message). }
  destruct (send_cases (Utf8.encode (generate_command_message message)) (sock s))
    as [(k' & -> & _)|(n & k' & -> & Hn & Hsent & _)]; [done|].
  destruct (Z.eqb_spec n (Py.len message + 2)) as [->|]; [|done].
  intros [= <- <-]. split; [done|]. cbn. rewrite Hsent, Henc. f_equal. f_equal.
  apply take_ge. cbn [app length]. rewrite length_app, length_map. cbn [length].
  unfold Py.len. lia.
Qed.

(** X1.  for a message of ASCII characters [send_command_message] returns
    only [True], and only when the socket has taken the whole frame; every
    other run ends in [IOError]. *)
Theorem send_command_message_all_or_error message s :
  forallb (fun c => Str.code c <? 128) message = true →
  match send_command_message message s with
  | (Returns is_ok, s') =>
      is_ok = true ∧
      sent (sock s') = sent (sock s) ++ [[0x01] ++ map Str.code message ++ [0x04]]
  | (Raises e, _) => e = IOError
  | (Beyond, _) => False
  end.
Proof.
  intros Hascii.
  destruct (send_command_message message s) as [[is_ok|e|] s'] eqn:Hrun.
  - by apply (send_command_message_sent message s).
  - rewrite send_command_message_run in Hrun.
    destruct (send_cases (Utf8.encode (generate_command_message message)) (sock s))
      as [(k' & Hs & _)|(n & k' & Hs & _)]; rewrite Hs in Hrun.
    + by injection Hrun as <- _.
    + destruct (n =? _); [done|]. by injection Hrun as <- _.
  - rewrite send_command_message_run in Hrun.
    destruct (send_cases (Utf8.encode (generate_command_message message)) (sock s))
      as [(k' & Hs & _)|(n & k' & Hs & _)]; rewrite Hs in Hrun; [done|].
    by destruct (n =? _).
Qed.

Lemma send_command_message_all_or_error_witness :
  match send_command_message (Str.lit "AB")
          (new_client 25 (mkSocket false true [] [] [] [])) with
  | (Returns is_ok, s') =>
      is_ok = true ∧
      sent (sock s') = [] ++ [[0x01] ++ map Str.code (Str.lit "AB") ++ [0x04]]
  | (Raises e, _) => e = IOError
  | (Beyond, _) => False
  end.
Proof.
  apply (send_command_message_all_or_error (Str.lit "AB")
           (new_client 25 (mkSocket false true [] [] [] []))).
  reflexivity.
Defined.

(** X2.  [send_command_message] compares the number of bytes sent with the
    number of characters.  With a character above U+007F in the message it
    raises [IOError] when the whole frame has been sent, and returns only
    when the socket has taken less than the frame. *)
Theorem send_command_message_counts_characters message c s :
  c ∈ message → 128 ≤ Str.code c →
  match send_command_message message s with
  | (Returns _, s') =>
      ∃ part, sent (sock s') = sent (sock s) ++ [part] ∧
              Py.len part < Py.len (Utf8.encode (generate_command_message message))
  | (Raises e, _) => e = IOError
  | (Beyond, _) => False
  end ∧
  (Sock.usable (sock s) = true → outgoing (sock s) = [] →
   (send_command_message message s).1 = Raises IOError).
Proof.
  intros Hin Hc. rewrite send_command_message_run.
  assert (Hlen : Py.len message + 2
                 < Py.len (Utf8.encode (generate_command_message message))).
  { unfold generate_command_message. rewrite !encode_app.
    pose proof (encode_length_wide message c Hin Hc).
    unfold Py.len in *. rewrite !length_app.
    change (length (Utf8.encode char_start)) with 1%nat.
    change (length (Utf8.encode char_end)) with 1%nat. lia. }
  destruct (send_cases (Utf8.encode (generate_command_message message)) (sock s))
    as [(k' & -> & _)|(n & k' & -> & Hn & Hsent & _ & _ & _ & Hall)].
  { split; [done|]. intros Hu Ho. unfold Sock.send in *. done. }
  destruct (Z.eqb_spec n (Py.len message + 2)) as [->|Hne].
  - split.
    + eexists. split; [exact Hsent|]. unfold Py.len. rewrite length_take.
      unfold Py.len in Hlen. lia.
    + intros _ Ho. specialize (Hall Ho). lia.
  - split; [done|]. done.
Qed.

Lemma send_command_message_counts_characters_witness :
  match send_command_message [ascii_of_nat 233]
          (new_client 25 (mkSocket false true [] [] [] [])) with
  | (Returns _, s') =>
      ∃ part, sent (sock s') = [] ++ [part] ∧
              Py.len part
              < Py.len (Utf8.encode (generate_command_message [ascii_of_nat 233]))
  | (Raises e, _) => e = IOError
  | (Beyond, _) => False
  end ∧
  (Sock.usable (mkSocket false true [] [] [] []) = true →
   outgoing (mkSocket false true [] [] [] []) = [] →
   (send_command_message [ascii_of_nat 233]
      (new_client 25 (mkSocket false true [] [] [] []))).1 = Raises IOError).
Proof.
  apply (send_command_message_counts_characters [ascii_of_nat 233]
           (ascii_of_nat 233) (new_client 25 (mkSocket false true [] [] [] []))).
  - apply elem_of_cons. by left.
  - vm_compute. discriminate.
Defined.

(** X3.  with a size of zero or more the size check of
    [receive_response_message] never fires: the call returns [True] whenever
    [recv] returns, and raises only what [recv] raises. *)
Theorem receive_response_message_size_check_is_dead expected_size s :
  0 ≤ expected_size →
  match Sock.recv (expected_size + 2) (sock s) with
  | (Returns bs, k) =>
      receive_response_message expected_size s =
      (Returns true, set_data (Some (Py.slice bs 1 (-1))) (set_sock k s)) ∧
      Py.len (Py.slice bs 1 (-1)) ≤ expected_size
  | (Raises e, k) =>
      receive_response_message expected_size s = (Raises e, set_sock k s)
  | (Beyond, _) => False
  end.
Proof.
  intros Hn. rewrite receive_response_message_run.
  destruct (Sock.recv _ _) as [[bs|e|] k] eqn:Hrecv; [|done|].
  - apply recv_length in Hrecv as [_ Hlen].
    pose proof (slice_inner_length bs) as Hs.
    assert (Py.len (Py.slice bs 1 (-1)) ≤ expected_size) by lia.
    split; [|done].
    destruct (Z.ltb_spec expected_size (Py.len (Py.slice bs 1 (-1)))); [lia|done].
  - by apply recv_not_beyond in Hrecv.
Qed.

Lemma receive_response_message_size_check_is_dead_witness :
  match Sock.recv (3 + 2) (mkSocket false true [] [] [] [Arrives [1; 65; 66; 67; 4; 9]]) with
  | (Returns bs, k) =>
      receive_response_message 3
        (new_client 25 (mkSocket false true [] [] [] [Arrives [1; 65; 66; 67; 4; 9]])) =
      (Returns true,
       set_data (Some (Py.slice bs 1 (-1)))
         (set_sock k
            (new_client 25
               (mkSocket false true [] [] [] [Arrives [1; 65; 66; 67; 4; 9]])))) ∧
      Py.len (Py.slice bs 1 (-1)) ≤ 3
  | (Raises e, k) =>
      receive_response_message 3
        (new_client 25 (mkSocket false true [] [] [] [Arrives [1; 65; 66; 67; 4; 9]])) =
      (Raises e,
       set_sock k
         (new_client 25 (mkSocket false true [] [] [] [Arrives [1; 65; 66; 67; 4; 9]])))
  | (Beyond, _) => False
  end.
Proof.
  apply (receive_response_message_size_check_is_dead 3
           (new_client 25
              (mkSocket false true [] [] [] [Arrives [1; 65; 66; 67; 4; 9]]))).
  lia.
Defined.

Lemma receive_response_message_frame expected_size s body rest :
  0 ≤ expected_size → Sock.usable (sock s) = true →
  incoming (sock s) = Arrives ([0x01] ++ body ++ [0x04]) :: rest →
  receive_response_message expected_size s =
  (Returns true,
   set_data (Some (take (Z.to_nat expected_size) body))
     (set_sock
        (mkSocket (closed (sock s)) (connected (sock s)) (answers (sock s))
           (sent (sock s)) (outgoing (sock s))
           (if Py.len body <=? expected_size then rest
            else Arrives (drop (Z.to_nat (expected_size + 2))
                            ([0x01] ++ body ++ [0x04])) :: rest)) s)).
Proof.
  intros Hn Hu Hin. rewrite receive_response_message_run.
  unfold Sock.recv. rewrite Hu, Hin.
  destruct (Z.ltb_spec (expected_size + 2) 0) as [|_]; [lia|].
  cbn [negb app].
  assert (Hfl : Py.len (0x01 :: body ++ [0x04]) = Py.len body + 2).
  { unfold Py.len. cbn [length]. rewrite length_app. cbn [length]. lia. }
  rewrite Hfl.
  assert (Hsl : Py.slice (take (Z.to_nat (expected_size + 2)) (0x01 :: body ++ [0x04]))
                  1 (-1) = take (Z.to_nat expected_size) body).
  { destruct (Z.le_gt_cases (Py.len body) expected_size) as [Hle|Hgt].
    - rewrite take_ge by (unfold Py.len in *; lia).
      rewrite slice_inner_frame. symmetry. apply take_ge. unfold Py.len in *. lia.
    - replace (Z.to_nat (expected_size + 2)) with (S (S (Z.to_nat expected_size))) by lia.
      cbn [take]. rewrite take_app_le by (unfold Py.len in *; lia).
      destruct (lookup_lt_is_Some_2 body (Z.to_nat expected_size)) as [x Hx].
      { unfold Py.len in *. lia. }
      rewrite (take_S_r _ _ _ Hx). apply slice_inner_frame. }
  rewrite Hsl.
  destruct (Z.ltb_spec expected_size (Py.len (take (Z.to_nat expected_size) body))).
  { unfold Py.len in *. rewrite length_take in *. lia. }
  replace (Py.len body + 2 <=? expected_size + 2) with (Py.len body <=? expected_size)
    by (destruct (Z.leb_spec (Py.len body) expected_size),
                 (Z.leb_spec (Py.len body + 2) (expected_size + 2)); done || lia).
  done.
Qed.

(** X4.  [receive_response_message] keeps the first [expected_size] bytes that
    follow the start byte; the rest of a longer reply stays unread on the
    socket, and the call still returns [True]. *)
Theorem receive_response_message_keeps_first_bytes expected_size s body rest :
  0 ≤ expected_size → Sock.usable (sock s) = true →
  incoming (sock s) = Arrives ([0x01] ++ body ++ [0x04]) :: rest →
  ∃ s', receive_response_message expected_size s = (Returns true, s') ∧
    data s' = Some (take (Z.to_nat expected_size) body) ∧
    (Py.len body ≤ expected_size → incoming (sock s') = rest) ∧
    (expected_size < Py.len body →
     incoming (sock s') =
     Arrives (drop (Z.to_nat (expected_size + 2)) ([0x01] ++ body ++ [0x04])) :: rest).
Proof.
  intros Hn Hu Hin. eexists. split.
  { by apply receive_response_message_frame. }
  cbn. split; [done|]. split.
  - intros Hle. by destruct (Z.leb_spec (Py.len body) expected_size); [|lia].
  - intros Hlt. by destruct (Z.leb_spec (Py.len body) expected_size); [lia|].
Qed.

Lemma receive_response_message_keeps_first_bytes_witness :
  ∃ s', receive_response_message 2
          (new_client 25 (mkSocket false true [] [] [] [Arrives ([0x01] ++ [65; 66; 67] ++ [0x04])]))
        = (Returns true, s') ∧
    data s' = Some (take (Z.to_nat 2) [65; 66; 67]) ∧
    (Py.len [65; 66; 67] ≤ 2 → incoming (sock s') = []) ∧
    (2 < Py.len [65; 66; 67] →
     incoming (sock s') =
     Arrives (drop (Z.to_nat (2 + 2)) ([0x01] ++ [65; 66; 67] ++ [0x04])) :: []).
Proof.
  apply (receive_response_message_keeps_first_bytes 2
           (new_client 25 (mkSocket false true [] [] []
                             [Arrives ([0x01] ++ [65; 66; 67] ++ [0x04])]))
           [65; 66; 67] []).
  - lia.
  - reflexivity.
  - reflexivity.
Defined.

(** X5.  once the peer has closed the connection [receive_response_message]
    returns [True] with empty data and reads nothing. *)
Theorem receive_response_message_end_of_stream expected_size s rest :
  0 ≤ expected_size → Sock.usable (sock s) = true →
  incoming (sock s) = Arrives [] :: rest →
  receive_response_message expected_size s = (Returns true, set_data (Some []) s).
Proof.
  intros Hn Hu Hin. rewrite receive_response_message_run.
  unfold Sock.recv. rewrite Hu, Hin.
  destruct (Z.ltb_spec (expected_size + 2) 0) as [|_]; [lia|].
  cbn [negb]. rewrite take_nil.
  change (Py.slice [] 1 (-1)) with (@nil Z). change (Py.len []) with 0.
  destruct (Z.ltb_spec expected_size 0); [lia|].
  f_equal. f_equal. destruct s as [? ? ? ? ? ? ? ? k]. destruct k.
  cbn in *. unfold set_sock. cbn. by subst.
Qed.

Lemma receive_response_message_end_of_stream_witness :
  receive_response_message 1024
    (new_client 25 (mkSocket false true [] [] [] [Arrives []]))
  = (Returns true,
     set_data (Some []) (new_client 25 (mkSocket false true [] [] [] [Arrives []]))).
Proof.
  apply (receive_response_message_end_of_stream 1024
           (new_client 25 (mkSocket false true [] [] [] [Arrives []])) []).
  - lia.
  - reflexivity.
  - reflexivity.
Defined.

(** X6.  a message of ASCII characters that the peer echoes in its frame comes
    back as [self.data], and [self.data.decode()] is the message. *)
Theorem send_then_receive_echo message expected_size s rest :
  forallb (fun c => Str.code c <? 128) message = true →
  Sock.usable (sock s) = true → outgoing (sock s) = [] →
  incoming (sock s)
  = Arrives (Utf8.encode (generate_command_message message)) :: rest →
  Py.len message ≤ expected_size →
  ∃ s', (send_command_message message;; receive_response_message expected_size) s
        = (Returns true, s') ∧
        data s' = Some (Utf8.encode message) ∧
        decode_data s' = (Returns message, s') ∧
        incoming (sock s') = rest.
Proof.
  intros Hascii Hu Ho Hin Hlen. pose proof (len_nonneg message) as Hnn.
  assert (Henc : Utf8.encode (generate_command_message message)
                 = [0x01] ++ Utf8.encode message ++ [0x04]).
  { unfold generate_command_message. by rewrite !encode_app. }
  assert (Hel : Py.len (Utf8.encode message) = Py.len message).
  { rewrite encode_ascii by done. unfold Py.len. by rewrite length_map. }
  unfold mbind, Act_bind. rewrite send_command_message_run.
  unfold Sock.send. rewrite Hu, Ho. cbn [negb].
  rewrite Henc in Hin |- *.
  assert (Py.len ([1] ++ Utf8.encode message ++ [4]) = Py.len message + 2) as ->.
  { unfold Py.len in *. cbn [app length]. rewrite length_app. cbn [length]. lia. }
  rewrite Z.eqb_refl.
  rewrite (receive_response_message_frame expected_size _ (Utf8.encode message) rest);
    [|lia|exact Hu|cbn; by rewrite Hin].
  eexists. split; [reflexivity|].
  rewrite take_ge by (unfold Py.len in *; lia).
  split; [done|]. split.
  - unfold decode_data. cbn. rewrite decode_encode, text_codes. done.
  - cbn. rewrite Hel. by destruct (Z.leb_spec (Py.len message) expected_size); [|lia].
Qed.

Lemma send_then_receive_echo_witness :
  ∃ s', (send_command_message (Str.lit "Test message");;
         receive_response_message 14)
          (new_client 25
             (mkSocket false true [] [] []
                [Arrives (Utf8.encode (generate_command_message (Str.lit "Test message")))]))
        = (Returns true, s') ∧
        data s' = Some (Utf8.encode (Str.lit "Test message")) ∧
        decode_data s' = (Returns (Str.lit "Test message"), s') ∧
        incoming (sock s') = [].
Proof.
  apply (send_then_receive_echo (Str.lit "Test message") 14
           (new_client 25
              (mkSocket false true [] [] []
                 [Arrives (Utf8.encode (generate_command_message (Str.lit "Test message")))]))
           []).
  - reflexivity.
  - reflexivity.
  - reflexivity.
  - reflexivity.
  - vm_compute. discriminate.
Defined.

(** X7.  [stop_streaming] clears [is_streaming] and [request_stop_streaming]
    when both the send and the receive go through; when either raises, the
    two flags are as they were. *)
Theorem stop_streaming_flags s :
  match stop_streaming s with
  | (Returns _, s') => is_streaming s' = false ∧ request_stop_streaming s' = false
  | (_, s') =>
      is_streaming s' = is_streaming s ∧
      request_stop_streaming s' = request_stop_streaming s
  end.
Proof.
  unfold stop_streaming. run_act.
  rewrite send_command_message_run.
  destruct (Sock.send _ _) as [[n|e|] k]; [|done|done].
  destruct (n =? _); [|done].
  rewrite receive_response_message_run. cbn.
  destruct (Sock.recv _ _) as [[bs|e|] k']; [|done|done].
  by destruct (1024 <? _).
Qed.

(** X8.  [start_streaming] sets [is_streaming] only when both the send and the
    receive go through, and never touches [request_stop_streaming]: a stop
    requested before the call is still requested after it. *)
Theorem start_streaming_flags s :
  match start_streaming s with
  | (Returns _, s') => is_streaming s' = true
  | (_, s') => is_streaming s' = is_streaming s
  end ∧
  request_stop_streaming (start_streaming s).2 = request_stop_streaming s ∧
  request_stop_streaming ((request_stop;; start_streaming) s).2 = true.
Proof.
  unfold start_streaming, request_stop. run_act.
  rewrite !send_command_message_run. cbn.
  destruct (Sock.send _ _) as [[n|e|] k]; [|done|done].
  destruct (n =? _); [|done].
  rewrite !receive_response_message_run. cbn.
  destruct (Sock.recv _ _) as [[bs|e|] k']; [|done|done].
  by destruct (1024 <? _).
Qed.

(** X10.  [disconnect_from_host] never raises; it closes the socket exactly
    when its [recv] returns, so a socket on which the read fails (not
    connected, timed out) is left open. *)
Theorem disconnect_from_host_never_raises s :
  ∃ s', disconnect_from_host s = (Returns tt, s') ∧
    bk s' = bk s ∧
    (closed (sock s') = true ↔
     closed (sock s) = true ∨
     ∃ bs k, Sock.recv (packet_size s) (sock s) = (Returns bs, k)).
Proof.
  unfold disconnect_from_host. run_act.
  destruct (Sock.recv (packet_size s) (sock s)) as [[bs|e|] k] eqn:Hrecv.
  - eexists. split; [done|]. cbn. split; [done|]. split; [|done].
    intros _. right. by eexists _, _.
  - eexists. split; [done|]. cbn. split; [done|].
    apply recv_flags in Hrecv as (-> & _). split; [by left|].
    intros [?|(? & ? & ?)]; done.
  - by apply recv_not_beyond in Hrecv.
Qed.

Lemma connect_closed address port k :
  closed k = true → ∃ e k', Sock.connect address port k = (Raises e, k').
Proof.
  intros Hc. unfold Sock.connect. rewrite Hc.
  destruct (head (answers k)) as [[| |]|];
    destruct ((port <? 0) || (65535 <? port)); by eexists _, _.
Qed.

(** X11.  A failed [connect_to_host] closes the socket, and the object has no
    other: every later connect, send and receive on it fails. *)
Theorem connect_to_host_failure_is_final address port s s' :
  connect_to_host address port s = (Raises IOError, s') →
  closed (sock s') = true ∧ bk s' = bk s ∧
  (∀ address' port', ∃ e, (connect_to_host address' port' s').1 = Raises e) ∧
  (∀ message, (send_command_message message s').1 = Raises IOError) ∧
  (∀ expected_size, ∃ e, (receive_response_message expected_size s').1 = Raises e).
Proof.
  unfold connect_to_host, on_socket.
  destruct (Sock.connect address port (sock s)) as [[[]|[]|] k] eqn:Hconn;
    try discriminate.
  intros [= <-]. cbn. split; [done|]. split; [done|]. split; [|split].
  - intros address' port'.
    destruct (connect_closed address' port' (Sock.close k) eq_refl) as (e & k' & ->).
    destruct e; by eexists.
  - intros message. rewrite send_command_message_run. done.
  - intros n. rewrite receive_response_message_run. cbn.
    unfold Sock.recv. destruct (n + 2 <? 0); by eexists.
Qed.

Lemma connect_to_host_failure_is_final_witness :
  closed (sock (set_sock (Sock.close (mkSocket false false [] [] [] []))
                  (new_client 25 (mkSocket false false [] [] [] [])))) = true ∧
  bk (set_sock (Sock.close (mkSocket false false [] [] [] []))
        (new_client 25 (mkSocket false false [] [] [] [])))
  = bk (new_client 25 (mkSocket false false [] [] [] [])) ∧
  (∀ address' port', ∃ e,
     (connect_to_host address' port'
        (set_sock (Sock.close (mkSocket false false [] [] [] []))
           (new_client 25 (mkSocket false false [] [] [] [])))).1 = Raises e) ∧
  (∀ message,
     (send_command_message message
        (set_sock (Sock.close (mkSocket false false [] [] [] []))
           (new_client 25 (mkSocket false false [] [] [] [])))).1 = Raises IOError) ∧
  (∀ expected_size, ∃ e,
     (receive_response_message expected_size
        (set_sock (Sock.close (mkSocket false false [] [] [] []))
           (new_client 25 (mkSocket false false [] [] [] [])))).1 = Raises e).
Proof.
  apply (connect_to_host_failure_is_final (Str.lit "128.16.0.3") 7915
           (new_client 25 (mkSocket false false [] [] [] []))).
  reflexivity.
Defined.



(** ** The size query *)

Lemma num_char_ascii c : Str.num_char c = true → (Str.code c <? 128) = true.
Proof.
  unfold Str.num_char, Str.is_digit. intros [H|H]%orb_prop.
  - apply andb_prop in H as [_ H%Z.leb_le]. apply Z.ltb_lt. lia.
  - apply Ascii.eqb_eq in H as ->. done.
Qed.

Lemma of_int_ascii z : forallb (fun c => Str.code c <? 128) (Str.of_int z) = true.
Proof.
  eapply forallb_weaken; [|apply of_int_chars]. apply num_char_ascii.
Qed.

Lemma digits_of_fuel f : ∀ f' n,
  0 ≤ n < 10 ^ Z.of_nat (S f) → n < 10 ^ Z.of_nat (S f') →
  Str.digits_of (S f) n = Str.digits_of (S f') n.
Proof.
  induction f as [|f IH]; intros f' n Hn Hn'.
  - change (10 ^ Z.of_nat 1) with 10 in Hn. cbn [Str.digits_of].
    destruct (Z.ltb_spec n 10); [done|lia].
  - cbn [Str.digits_of]. destruct (Z.ltb_spec n 10) as [|Hge]; [done|].
    destruct f' as [|f'].
    { change (10 ^ Z.of_nat 1) with 10 in Hn'. lia. }
    f_equal. apply IH.
    + split; [apply Z.div_pos; lia|].
      apply Z.div_lt_upper_bound; [lia|].
      rewrite (Nat2Z.inj_succ (S f)), Z.pow_succ_r in Hn by lia. lia.
    + apply Z.div_lt_upper_bound; [lia|].
      rewrite (Nat2Z.inj_succ (S f')), Z.pow_succ_r in Hn' by lia. lia.
Qed.

Lemma log2_fuel m : 0 ≤ m → m < 10 ^ Z.of_nat (S (Z.to_nat (Z.log2 m))).
Proof.
  intros Hm. pose proof (Z.log2_nonneg m) as Hl.
  rewrite Nat2Z.inj_succ, Z2Nat.id by done.
  destruct (decide (m = 0)) as [->|Hne]; [done|].
  pose proof (Z.log2_spec m ltac:(lia)) as [_ Hlt].
  eapply Z.lt_le_trans; [exact Hlt|].
  apply Z.pow_le_mono_l. lia.
Qed.

Lemma of_int_snoc h :
  10 ≤ h → Str.of_int h = Str.of_int (h / 10) ++ [Str.digit_char (h mod 10)].
Proof.
  intros Hh. unfold Str.of_int.
  assert (0 ≤ h / 10) by (apply Z.div_pos; lia).
  rewrite !Z.abs_eq by lia.
  destruct (Z.ltb_spec h 0); [lia|]. destruct (Z.ltb_spec (h / 10) 0); [lia|].
  assert (Hl : 3 ≤ Z.log2 h).
  { apply Z.log2_le_pow2; [lia|]. change (2 ^ 3) with 8. lia. }
  destruct (Z.to_nat (Z.log2 h)) as [|f] eqn:Hf; [lia|].
  cbn [Str.digits_of]. destruct (Z.ltb_spec h 10); [lia|].
  f_equal. apply digits_of_fuel.
  - split; [done|]. apply Z.div_lt_upper_bound; [lia|].
    pose proof (log2_fuel h ltac:(lia)) as Hb. rewrite Hf in Hb.
    rewrite (Nat2Z.inj_succ (S f)), Z.pow_succ_r in Hb by lia. lia.
  - apply log2_fuel. lia.
Qed.

Lemma parse_win_size_message_pair st a b w h tail :
  forallb Str.num_char a = true → forallb Str.num_char b = true → a ≠ [] →
  Str.int a = Ok w → Str.int b = Ok h →
  tail = [] ∨ tail = [";"%char] →
  parse_win_size_message (Str.lit "DATA:US_WIN_SIZE " ++ a ++ Str.lit "," ++ b ++ tail) st
  = (Ok tt, set_pixels_in_image (w * h) (set_image_size [w; h] st)).
Proof.
  intros Ha Hb Hne Hw Hh Htail.
  assert (Hplain : ∀ (x : Str.str) (p : ascii → bool),
            forallb Str.num_char x = true →
            (∀ c, Str.num_char c = true → p c = false) →
            forallb (fun c => negb (p c)) x = true).
  { intros x p Hx Hp. eapply forallb_weaken; [|exact Hx].
    intros c Hc. by rewrite (Hp c Hc). }
  set (body := a ++ Str.lit "," ++ b).
  assert (Hbody : ∀ p : ascii → bool,
            (∀ c, Str.num_char c = true → p c = false) → p ","%char = false →
            forallb (fun c => negb (p c)) body = true).
  { intros p Hp Hcomma. unfold body.
    rewrite !forallb_app, (Hplain a p Ha Hp), (Hplain b p Hb Hp).
    simpl. by rewrite Hcomma. }
  assert (Hspace : ∀ c, Str.num_char c = true → Str.is_space c = false).
  { intros c Hc. by apply num_char_plain in Hc as (-> & _). }
  assert (Hsemi : ∀ c, Str.num_char c = true → Ascii.eqb c ";" = false).
  { intros c Hc. by apply num_char_plain in Hc as (_ & -> & _). }
  assert (Hcomma : ∀ c, Str.num_char c = true → Ascii.eqb c "," = false).
  { intros c Hc. by apply num_char_plain in Hc as (_ & _ & ->). }
  assert (Htl : forallb (fun c => negb (Str.is_space c)) tail = true).
  { by destruct Htail as [->| ->]. }
  assert (Hsplit : Str.split (Str.lit "DATA:US_WIN_SIZE " ++ body ++ tail)
                   = [Str.lit "DATA:US_WIN_SIZE"; body ++ tail]).
  { unfold Str.split.
    change (Str.lit "DATA:US_WIN_SIZE " ++ body ++ tail)
      with (Str.lit "DATA:US_WIN_SIZE" ++ " "%char :: (body ++ tail)).
    rewrite fields_app_sep by done.
    rewrite fields_plain.
    - rewrite !filter_cons, filter_nil.
      rewrite decide_True by done.
      rewrite decide_True; [done|].
      unfold body. destruct a; done.
    - rewrite forallb_app, Hbody, Htl by done. done. }
  unfold parse_win_size_message.
  replace (Str.lit "DATA:US_WIN_SIZE " ++ a ++ Str.lit "," ++ b ++ tail)
    with (Str.lit "DATA:US_WIN_SIZE " ++ body ++ tail)
    by (unfold body; by rewrite <- !app_assoc).
  rewrite Hsplit.
  unfold mbind, M_bind, lift, modify.
  change (Str.last_item [Str.lit "DATA:US_WIN_SIZE"; body ++ tail])
    with (Ok (body ++ tail)).
  cbv iota beta.
  assert (Hstrip : Str.strip (fun c => Ascii.eqb c ";") (body ++ tail) = body).
  { destruct Htail as [->| ->].
    - rewrite app_nil_r. apply strip_plain. by apply Hbody.
    - apply strip_trailing; [by apply Hbody|done]. }
  rewrite Hstrip.
  unfold Str.split_on, body.
  change (Str.lit "," ++ b) with (","%char :: b).
  rewrite fields_app_sep; [|by apply Hplain|done].
  rewrite fields_plain by (by apply Hplain).
  simpl result_mapM. rewrite Hw, Hh. simpl. done.
Qed.

Lemma decode_data_ascii s t :
  forallb (fun c => Str.code c <? 128) t = true →
  data s = Some (map Str.code t) → decode_data s = (Returns t, s).
Proof.
  intros Ht Hd. unfold decode_data. rewrite Hd.
  rewrite <- (encode_ascii t Ht) at 1. rewrite decode_encode, text_codes. done.
Qed.

Lemma forallb_take {A} (f : A → bool) n l :
  forallb f l = true → forallb f (take n l) = true.
Proof.
  revert n. induction l as [|x l IH]; intros [|n]; try done.
  cbn. intros [-> H]%andb_prop. by rewrite IH.
Qed.

Lemma query_win_size_reply s t rest :
  forallb (fun c => Str.code c <? 128) t = true →
  Sock.usable (sock s) = true → outgoing (sock s) = [] →
  incoming (sock s) = Arrives ([0x01] ++ map Str.code t ++ [0x04]) :: rest →
  ∃ s1, bk s1 = bk s ∧
    sent (sock s1) = sent (sock s) ++ [[0x01] ++ encode_utf8 "QUERY:US_WIN_SIZE;" ++ [0x04]] ∧
    incoming (sock s1) =
      (if Py.len t <=? 25 then rest
       else Arrives (drop 27 ([0x01] ++ map Str.code t ++ [0x04])) :: rest) ∧
    query_win_size s = on_bk (parse_win_size_message (take 25 t)) s1.
Proof.
  intros Ht Hu Ho Hin. unfold query_win_size.
  unfold mbind at 1 2 3. unfold Act_bind.
  rewrite send_command_message_run. unfold Sock.send. rewrite Hu, Ho. cbn [negb].
  change (Py.len (Utf8.encode (generate_command_message (Str.lit "QUERY:US_WIN_SIZE;")))
          =? Py.len (Str.lit "QUERY:US_WIN_SIZE;") + 2) with true. cbv iota.
  rewrite (receive_response_message_frame 25 _ (map Str.code t) rest);
    [|lia|exact Hu|exact Hin].
  rewrite <- fmap_take.
  erewrite decode_data_ascii; [|by apply forallb_take|reflexivity].
  eexists. split; [|split; [|split; [|reflexivity]]].
  - done.
  - done.
  - cbn. unfold Py.len. by rewrite length_map.
Qed.

Lemma of_int_nonempty z : Str.of_int z ≠ [].
Proof.
  intros E. pose proof (int_of_int z) as H. rewrite E in H. discriminate.
Qed.

Lemma win_size_reply_ascii w h :
  forallb (fun c => Str.code c <? 128) (win_size_reply w h) = true.
Proof.
  unfold win_size_reply. rewrite !forallb_app, !of_int_ascii. done.
Qed.

Lemma win_size_reply_length w h :
  Py.len (win_size_reply w h) = 19 + Py.len (Str.of_int w) + Py.len (Str.of_int h).
Proof.
  unfold win_size_reply, Py.len. rewrite !length_app.
  change (length (Str.lit "DATA:US_WIN_SIZE ")) with 17%nat.
  change (length (Str.lit ",")) with 1%nat.
  change (length (Str.lit ";")) with 1%nat. lia.
Qed.

(** X13.  [query_win_size] sends the query and reads the geometry from a reply
    of at most 26 characters: the image size is the two numbers and
    [pixels_in_image] their product. *)
Theorem query_win_size_reads_reply s w h rest :
  Sock.usable (sock s) = true → outgoing (sock s) = [] →
  incoming (sock s)
  = Arrives ([0x01] ++ map Str.code (win_size_reply w h) ++ [0x04]) :: rest →
  Py.len (Str.of_int w) + Py.len (Str.of_int h) ≤ 7 →
  ∃ s', query_win_size s = (Returns tt, s') ∧
    image_size (bk s') = [w; h] ∧ pixels_in_image (bk s') = w * h ∧
    buffer (bk s') = buffer (bk s) ∧
    sent (sock s')
    = sent (sock s) ++ [[0x01] ++ encode_utf8 "QUERY:US_WIN_SIZE;" ++ [0x04]].
Proof.
  intros Hu Ho Hin Hlen.
  destruct (query_win_size_reply s (win_size_reply w h) rest
              (win_size_reply_ascii w h) Hu Ho Hin)
    as (s1 & Hbk & Hsent & _ & ->).
  assert (Htake : ∃ tail, (tail = [] ∨ tail = [";"%char]) ∧
            take 25 (win_size_reply w h)
            = Str.lit "DATA:US_WIN_SIZE " ++ Str.of_int w ++ Str.lit "," ++
              Str.of_int h ++ tail).
  { pose proof (win_size_reply_length w h) as Hl.
    destruct (Z.eq_dec (Py.len (Str.of_int w) + Py.len (Str.of_int h)) 7) as [E|E].
    - exists []. split; [by left|]. rewrite app_nil_r.
      unfold win_size_reply. rewrite !(app_assoc _ _ (Str.lit ";")).
      apply take_app_length'. unfold Py.len in *. rewrite !length_app.
      change (length (Str.lit "DATA:US_WIN_SIZE ")) with 17%nat.
      change (length (Str.lit ",")) with 1%nat. lia.
    - exists [";"%char]. split; [by right|].
      change (take 25 (win_size_reply w h) = win_size_reply w h).
      apply take_ge. unfold Py.len in *. lia. }
  destruct Htake as (tail & Htail & ->).
  unfold on_bk.
  rewrite (parse_win_size_message_pair (bk s1) _ _ w h tail);
    [|apply of_int_chars|apply of_int_chars|apply of_int_nonempty
     |apply int_of_int|apply int_of_int|exact Htail].
  eexists. split; [reflexivity|]. cbn. by rewrite Hbk.
Qed.

Lemma query_win_size_reads_reply_witness :
  ∃ s', query_win_size
          (new_client 25
             (mkSocket false true [] [] []
                [Arrives ([0x01] ++ map Str.code (win_size_reply 640 480) ++ [0x04])]))
        = (Returns tt, s') ∧
    image_size (bk s') = [640; 480] ∧ pixels_in_image (bk s') = 640 * 480 ∧
    buffer (bk s') = [] ∧
    sent (sock s') = [] ++ [[0x01] ++ encode_utf8 "QUERY:US_WIN_SIZE;" ++ [0x04]].
Proof.
  apply (query_win_size_reads_reply
           (new_client 25
              (mkSocket false true [] [] []
                 [Arrives ([0x01] ++ map Str.code (win_size_reply 640 480) ++ [0x04])]))
           640 480 []).
  - reflexivity.
  - reflexivity.
  - reflexivity.
  - vm_compute. discriminate.
Defined.

(** X14.  [query_win_size] reads 27 bytes and keeps 25 of them.  A reply whose
    two numbers have eight digits between them loses its last digit: the
    call returns, and the height it stores is a tenth of the height sent. *)
Theorem query_win_size_cuts_long_reply s w h rest :
  Sock.usable (sock s) = true → outgoing (sock s) = [] →
  incoming (sock s)
  = Arrives ([0x01] ++ map Str.code (win_size_reply w h) ++ [0x04]) :: rest →
  Py.len (Str.of_int w) + Py.len (Str.of_int h) = 8 → 10 ≤ h →
  ∃ s', query_win_size s = (Returns tt, s') ∧
    image_size (bk s') = [w; h / 10] ∧ pixels_in_image (bk s') = w * (h / 10) ∧
    incoming (sock s') = Arrives [Str.code ";"; 0x04] :: rest.
Proof.
  intros Hu Ho Hin Hlen Hh.
  destruct (query_win_size_reply s (win_size_reply w h) rest
              (win_size_reply_ascii w h) Hu Ho Hin)
    as (s1 & Hbk & _ & Hinc & ->).
  pose proof (win_size_reply_length w h) as Hl.
  assert (Hsn : Py.len (Str.of_int h) = Py.len (Str.of_int (h / 10)) + 1).
  { rewrite (of_int_snoc h Hh) at 1. unfold Py.len. rewrite length_app. cbn. lia. }
  assert (Htake : take 25 (win_size_reply w h)
            = Str.lit "DATA:US_WIN_SIZE " ++ Str.of_int w ++ Str.lit "," ++
              Str.of_int (h / 10) ++ []).
  { rewrite app_nil_r. unfold win_size_reply. rewrite (of_int_snoc h Hh) at 1.
    rewrite <- !(app_assoc (Str.of_int (h / 10))).
    rewrite !(app_assoc _ _ ([Str.digit_char (h mod 10)] ++ Str.lit ";")).
    apply take_app_length'. unfold Py.len in *. rewrite !length_app.
    change (length (Str.lit "DATA:US_WIN_SIZE ")) with 17%nat.
    change (length (Str.lit ",")) with 1%nat. lia. }
  rewrite Htake. unfold on_bk.
  rewrite (parse_win_size_message_pair (bk s1) _ _ w (h / 10) []);
    [|apply of_int_chars|apply of_int_chars|apply of_int_nonempty
     |apply int_of_int|apply int_of_int|by left].
  eexists. split; [reflexivity|]. cbn. split; [done|]. split; [done|].
  rewrite Hinc. destruct (Z.leb_spec (Py.len (win_size_reply w h)) 25); [lia|].
  f_equal. f_equal.
  change (drop 27 ([1] ++ map Str.code (win_size_reply w h) ++ [4]))
    with (drop 26 (map Str.code (win_size_reply w h) ++ [4])).
  unfold win_size_reply. rewrite (of_int_snoc h Hh).
  rewrite !(app_assoc _ _ (Str.lit ";")).
  rewrite map_app, <- app_assoc.
  apply drop_app_length'. rewrite length_map. unfold Py.len in *. rewrite !length_app.
  change (length (Str.lit "DATA:US_WIN_SIZE ")) with 17%nat.
  change (length (Str.lit ",")) with 1%nat. cbn [length]. lia.
Qed.

Lemma query_win_size_cuts_long_reply_witness :
  ∃ s', query_win_size
          (new_client 25
             (mkSocket false true [] [] []
                [Arrives ([0x01] ++ map Str.code (win_size_reply 1280 1024) ++ [0x04])]))
        = (Returns tt, s') ∧
    image_size (bk s') = [1280; 1024 / 10] ∧
    pixels_in_image (bk s') = 1280 * (1024 / 10) ∧
    incoming (sock s') = Arrives [Str.code ";"; 0x04] :: [].
Proof.
  apply (query_win_size_cuts_long_reply
           (new_client 25
              (mkSocket false true [] [] []
                 [Arrives ([0x01] ++ map Str.code (win_size_reply 1280 1024) ++ [0x04])]))
           1280 1024 []).
  - reflexivity.
  - reflexivity.
  - reflexivity.
  - reflexivity.
  - lia.
Defined.

(** C8, as the code has it.  The response text [DATA:US_WIN_SIZE w,h;] is
    accepted by [parse_win_size_message] for every pair of integers, zero
    and negative ones included: the two values are stored as the geometry
    and their product as the pixel count.  [query_win_size] does the same
    with such a reply whenever the two numbers have at most seven characters
    between them, which is when its read of 27 bytes, less the first and the
    last, still holds both numbers whole. *)
Theorem geometry_query_any_integers w h :
  (∀ st,
     parse_win_size_message (win_size_reply w h) st =
     (Ok tt, set_pixels_in_image (w * h) (set_image_size [w; h] st))) ∧
  (∀ s rest,
     Sock.usable (sock s) = true → outgoing (sock s) = [] →
     incoming (sock s)
     = Arrives ([0x01] ++ map Str.code (win_size_reply w h) ++ [0x04]) :: rest →
     Py.len (Str.of_int w) + Py.len (Str.of_int h) ≤ 7 →
     ∃ s', query_win_size s = (Returns tt, s') ∧
       image_size (bk s') = [w; h] ∧ pixels_in_image (bk s') = w * h).
Proof.
  split.
  { intros st. apply parse_win_size_message_any_integers. }
  intros s rest Hu Ho Hin Hlen.
  destruct (query_win_size_reply s (win_size_reply w h) rest
              (win_size_reply_ascii w h) Hu Ho Hin)
    as (s1 & Hbk & _ & _ & ->).
  assert (Htake : ∃ tail, (tail = [] ∨ tail = [";"%char]) ∧
            take 25 (win_size_reply w h)
            = Str.lit "DATA:US_WIN_SIZE " ++ Str.of_int w ++ Str.lit "," ++
              Str.of_int h ++ tail).
  { pose proof (win_size_reply_length w h) as Hl.
    destruct (Z.eq_dec (Py.len (Str.of_int w) + Py.len (Str.of_int h)) 7) as [E|E].
    - exists []. split; [by left|]. rewrite app_nil_r.
      unfold win_size_reply. rewrite !(app_assoc _ _ (Str.lit ";")).
      apply take_app_length'. unfold Py.len in *. rewrite !length_app.
      change (length (Str.lit "DATA:US_WIN_SIZE ")) with 17%nat.
      change (length (Str.lit ",")) with 1%nat. lia.
    - exists [";"%char]. split; [by right|].
      change (take 25 (win_size_reply w h) = win_size_reply w h).
      apply take_ge. unfold Py.len in *. lia. }
  destruct Htake as (tail & Htail & ->).
  unfold on_bk.
  rewrite (parse_win_size_message_pair (bk s1) _ _ w h tail);
    [|apply of_int_chars|apply of_int_chars|apply of_int_nonempty
     |apply int_of_int|apply int_of_int|exact Htail].
  eexists. split; [reflexivity|]. done.
Qed.

Lemma geometry_query_any_integers_witness :
  ∃ s', query_win_size
          (new_client 25
             (mkSocket false true [] [] []
                [Arrives ([0x01] ++ map Str.code (win_size_reply 0 (-480)) ++ [0x04])]))
        = (Returns tt, s') ∧
    image_size (bk s') = [0; -480] ∧ pixels_in_image (bk s') = 0 * -480.
Proof.
  apply (proj2 (geometry_query_any_integers 0 (-480))
           (new_client 25
              (mkSocket false true [] [] []
                 [Arrives ([0x01] ++ map Str.code (win_size_reply 0 (-480)) ++ [0x04])]))
           []).
  - reflexivity.
  - reflexivity.
  - reflexivity.
  - vm_compute. discriminate.
Defined.

(** ** More of [parse_win_size_message] *)

Lemma fields_blank s :
  forallb Str.is_space s = true →
  filter (fun w => w ≠ []) (Str.fields Str.is_space s) = [].
Proof.
  induction s as [|c s IH]; [done|]. cbn [forallb Str.fields].
  intros [-> Hs]%andb_prop. rewrite filter_cons, decide_False by (by intros H; apply H).
  by apply IH.
Qed.

Lemma result_mapM_int_raises l e :
  result_mapM Str.int l = Raise e → e = ValueError.
Proof.
  induction l as [|x l IH]; [done|]. cbn [result_mapM].
  unfold mbind, result_bind.
  destruct (Str.int x) as [y|e'] eqn:Hx.
  - destruct (result_mapM Str.int l) as [ys|e'']; [done|].
    intros [= <-]. by apply IH.
  - intros [= <-]. unfold Str.int in Hx.
    destruct (Str.strip Str.is_space x) as [|c tl].
    + by destruct (Str.digits_val 0 false []); inversion Hx.
    + destruct (Ascii.eqb c "-"); [|destruct (Ascii.eqb c "+")];
        by destruct (Str.digits_val 0 false _); inversion Hx.
Qed.

(** X15.  a message of white space only, the empty one included, makes
    [parse_win_size_message] raise [IndexError] and leaves the object as it
    was. *)
Theorem parse_win_size_message_blank message st :
  forallb Str.is_space message = true →
  parse_win_size_message message st = (Raise IndexError, st).
Proof.
  intros Hb. unfold parse_win_size_message, Str.split.
  rewrite fields_blank by done. done.
Qed.

Lemma parse_win_size_message_blank_witness :
  parse_win_size_message (Str.lit "  ") init = (Raise IndexError, init).
Proof.
  apply (parse_win_size_message_blank (Str.lit "  ") init). reflexivity.
Defined.

(** X16.  a reply with one number makes [parse_win_size_message] raise
    [IndexError] after it has stored the one-element list: [image_size] is
    replaced and [pixels_in_image] keeps its old value. *)
Theorem parse_win_size_message_single_number st w :
  parse_win_size_message
    (Str.lit "DATA:US_WIN_SIZE " ++ Str.of_int w ++ Str.lit ";") st
  = (Raise IndexError, set_image_size [w] st) ∧
  pixels_in_image (set_image_size [w] st) = pixels_in_image st.
Proof.
  split; [|done].
  assert (Hplain : ∀ p : ascii → bool,
            (∀ c, Str.num_char c = true → p c = false) →
            forallb (fun c => negb (p c)) (Str.of_int w) = true).
  { intros p Hp. eapply forallb_weaken; [|apply of_int_chars].
    intros c Hc. by rewrite (Hp c Hc). }
  assert (Hsplit : Str.split (Str.lit "DATA:US_WIN_SIZE " ++ Str.of_int w ++ Str.lit ";")
                   = [Str.lit "DATA:US_WIN_SIZE"; Str.of_int w ++ Str.lit ";"]).
  { unfold Str.split.
    change (Str.lit "DATA:US_WIN_SIZE " ++ Str.of_int w ++ Str.lit ";")
      with (Str.lit "DATA:US_WIN_SIZE" ++ " "%char :: (Str.of_int w ++ Str.lit ";")).
    rewrite fields_app_sep by done.
    rewrite fields_plain.
    - rewrite !filter_cons, filter_nil.
      rewrite decide_True by done.
      rewrite decide_True; [done|].
      pose proof (of_int_nonempty w). by destruct (Str.of_int w).
    - rewrite forallb_app, Hplain; [done|].
      intros c Hc. by apply num_char_plain in Hc as (-> & _). }
  unfold parse_win_size_message. rewrite Hsplit.
  unfold mbind, M_bind, lift, modify.
  change (Str.last_item [Str.lit "DATA:US_WIN_SIZE"; Str.of_int w ++ Str.lit ";"])
    with (Ok (Str.of_int w ++ Str.lit ";")).
  cbv iota beta. change (Str.lit ";") with [";"%char].
  rewrite strip_trailing; [| |done].
  2:{ apply Hplain. intros c Hc. by apply num_char_plain in Hc as (_ & -> & _). }
  unfold Str.split_on. rewrite fields_plain.
  2:{ apply Hplain. intros c Hc. by apply num_char_plain in Hc as (_ & _ & ->). }
  simpl result_mapM. rewrite int_of_int. done.
Qed.

(** X17.  whatever the message, [parse_win_size_message] touches only the
    geometry.  When it returns, [image_size] has at least two entries and
    [pixels_in_image] is the product of the first two; a [ValueError] leaves
    the object as it was; an [IndexError] never changes [pixels_in_image]. *)
Theorem parse_win_size_message_outcomes message st :
  buffer (parse_win_size_message message st).2 = buffer st ∧
  np_buffer (parse_win_size_message message st).2 = np_buffer st ∧
  img (parse_win_size_message message st).2 = img st ∧
  match parse_win_size_message message st with
  | (Ok _, st') =>
      ∃ w h more, image_size st' = w :: h :: more ∧ pixels_in_image st' = w * h
  | (Raise ValueError, st') => st' = st
  | (Raise IndexError, st') =>
      pixels_in_image st' = pixels_in_image st ∧
      (st' = st ∨ (length (image_size st') < 2)%nat)
  | (Raise TypeError, _) => False
  end.
Proof.
  unfold parse_win_size_message, mbind, M_bind, lift, modify.
  destruct (Str.last_item _) as [word|e] eqn:Hlast.
  2:{ unfold Str.last_item in Hlast. destruct (last _); [done|].
      injection Hlast as <-. cbn. repeat split; try done. by left. }
  destruct (result_mapM Str.int _) as [size|e] eqn:Hsize.
  2:{ apply result_mapM_int_raises in Hsize as ->. done. }
  destruct size as [|w [|h more]].
  - cbn. repeat split; try done. right. cbn. lia.
  - cbn. repeat split; try done. right. cbn. lia.
  - rewrite (index_Ok (w :: h :: more) 0 w), (index_Ok (w :: h :: more) 1 h) by done.
    cbn. repeat split; try done. by eexists _, _, _.
Qed.

(** ** The streaming commands *)

(** X9.  when [start_streaming] or [stop_streaming] returns, the socket has
    taken the whole command: the start byte, the query with the frame rate
    in decimal, the end byte. *)
Theorem streaming_commands_on_the_wire s :
  match start_streaming s with
  | (Returns _, s') =>
      sent (sock s') =
      sent (sock s) ++
      [[0x01] ++ encode_utf8 "QUERY:GRAB_FRAME " ++ [34] ++ encode_utf8 "ON" ++ [34]
       ++ encode_utf8 "," ++ map Str.code (Str.of_int (frames_per_second s))
       ++ encode_utf8 ";" ++ [0x04]]
  | _ => True
  end ∧
  match stop_streaming s with
  | (Returns _, s') =>
      sent (sock s') =
      sent (sock s) ++
      [[0x01] ++ encode_utf8 "QUERY:GRAB_FRAME " ++ [34] ++ encode_utf8 "OFF" ++ [34]
       ++ encode_utf8 "," ++ map Str.code (Str.of_int (frames_per_second s))
       ++ encode_utf8 ";" ++ [0x04]]
  | _ => True
  end.
Proof.
  assert (Hmsg : ∀ switch,
    forallb (fun c => Str.code c <? 128) switch = true →
    forallb (fun c => Str.code c <? 128)
      (grab_frame_message switch (frames_per_second s)) = true).
  { intros switch Hsw. unfold grab_frame_message.
    rewrite !forallb_app, of_int_ascii, Hsw. done. }
  split.
  - unfold start_streaming. run_act.
    destruct (send_command_message _ s) as [[b|e|] s1] eqn:Hsend; [|done|done].
    apply send_command_message_sent in Hsend as [_ Hsent]; [|by apply Hmsg].
    rewrite receive_response_message_run.
    destruct (Sock.recv _ _) as [[bs|e|] k] eqn:Hrecv; [|done|done].
    apply recv_flags in Hrecv as (_ & _ & _ & Hk & _).
    destruct (1024 <? _); [done|]. cbn. rewrite Hk, Hsent.
    unfold grab_frame_message. rewrite !map_app, <- !app_assoc. reflexivity.
  - unfold stop_streaming. run_act.
    destruct (send_command_message _ s) as [[b|e|] s1] eqn:Hsend; [|done|done].
    apply send_command_message_sent in Hsend as [_ Hsent]; [|by apply Hmsg].
    rewrite receive_response_message_run.
    destruct (Sock.recv _ _) as [[bs|e|] k] eqn:Hrecv; [|done|done].
    apply recv_flags in Hrecv as (_ & _ & _ & Hk & _).
    destruct (1024 <? _); [done|]. cbn. rewrite Hk, Hsent.
    unfold grab_frame_message. rewrite !map_app, <- !app_assoc. reflexivity.
Qed.

(** ** What [receive_image] changes *)

Lemma del_slice_length {A} (l : list A) a b :
  (length (Py.del_slice l a b) ≤ length l)%nat.
Proof.
  unfold Py.del_slice. destruct (Z.ltb_spec (Py.slice_bound (Py.len l) a)
                                            (Py.slice_bound (Py.len l) b)); [|done].
  rewrite length_app, length_take, length_drop. lia.
Qed.

Lemma receive_image_effects st :
  image_size (receive_image st).2 = image_size st ∧
  pixels_in_image (receive_image st).2 = pixels_in_image st ∧
  (length (buffer (receive_image st).2) ≤ length (buffer st))%nat ∧
  match (receive_image st).1 with
  | Ok true =>
      ∃ decoded frame,
        reshape_frame decoded (pixels_in_image st) (image_size st) = Ok frame ∧
        img (receive_image st).2 = Some frame
  | _ => img (receive_image st).2 = img st
  end.
Proof.
  unfold receive_image. run_M. rewrite view_contents_frombuffer.
  destruct (find_first_a_not_preceded_by_b (buffer st) 0 1 39) as [s|err]; simpl;
    [|done].
  destruct (s <? 0); simpl; [repeat split; try done; lia|].
  rewrite view_contents_frombuffer.
  destruct (find_first_a_not_preceded_by_b (buffer st) s 4 39) as [e|err]; simpl;
    [|done].
  destruct (e <=? s); simpl; [done|].
  destruct (negb _); simpl.
  { repeat split; try done. apply del_slice_length. }
  destruct (payload_window (buffer st) s e) as [[a b]|err]; simpl; [|done].
  rewrite decode_step_run by done. simpl.
  set (v := view_slice (frombuffer (buffer st)) a (b + 1)).
  destruct (slice_length_view (buffer st) a (b + 1)) as [Hwl Hvalid].
  fold v in Hwl, Hvalid.
  destruct (decode_image_np_cases (Py.slice (buffer st) a (b + 1)))
    as [-> | (flipped & -> & Hfl)]; [done|].
  rewrite Hwl in Hfl.
  destruct (reshape_frame _ _ _) as [frame|err] eqn:Hframe; simpl.
  - repeat split; try done.
    + etrans; [apply del_slice_length|]. by rewrite view_store_length.
    + by eexists _, _.
  - repeat split; try done. by rewrite view_store_length.
Qed.

(** X18.  [receive_image] never changes the geometry and never lengthens the
    buffer; it stores an image, one that [reshape] made from the geometry,
    when it returns [True], and leaves [img] alone in every other run. *)
Theorem receive_image_frame_conditions st :
  image_size (receive_image st).2 = image_size st ∧
  pixels_in_image (receive_image st).2 = pixels_in_image st ∧
  (length (buffer (receive_image st).2) ≤ length (buffer st))%nat ∧
  match (receive_image st).1 with
  | Ok true => img (receive_image st).2 ≠ None
  | _ => img (receive_image st).2 = img st
  end.
Proof.
  destruct (receive_image_effects st) as (Hsize & Hpix & Hlen & Himg).
  repeat split; try done.
  destruct (receive_image st).1 as [[|]|]; try done.
  destruct Himg as (decoded & frame & _ & ->). done.
Qed.

(** X19.  on an empty buffer [receive_image] raises [IndexError]: the scan for
    the start marker indexes the first byte of an empty array. *)
Theorem receive_image_empty_buffer st :
  buffer st = [] → receive_image st = (Raise IndexError, scanning st).
Proof.
  intros Hb. apply receive_image_raise_start. by rewrite Hb.
Qed.

Lemma receive_image_empty_buffer_witness :
  receive_image init = (Raise IndexError, scanning init).
Proof.
  apply (receive_image_empty_buffer init). reflexivity.
Defined.

(** ** [get_frame] *)

Lemma rows_of_full r : ∀ c (l : list Z),
  length l = (r * c)%nat →
  Forall (fun row => length row = c) (Np.rows_of r c l).
Proof.
  induction r as [|r IH]; intros c l Hl; [constructor|].
  cbn [Np.rows_of]. constructor.
  - rewrite length_take. lia.
  - apply IH. rewrite length_drop. lia.
Qed.

Lemma reshape_frame_dims decoded p w h frame :
  0 ≤ w → 0 ≤ h → reshape_frame decoded p [w; h] = Ok frame →
  Py.len frame = h ∧ Forall (fun row => Py.len row = w) frame.
Proof.
  intros Hw Hh. unfold reshape_frame.
  change (Py.index [w; h] 1) with (Ok h). change (Py.index [w; h] 0) with (Ok w).
  unfold mbind, result_bind, Np.reshape.
  destruct (Z.leb_spec 0 h); [|lia]. destruct (Z.leb_spec 0 w); [|lia].
  cbn [andb]. destruct (Z.eqb_spec (h * w) (Py.len (Py.slice_to decoded p)))
    as [Hsz|]; [|done].
  intros [= <-]. split.
  - unfold Py.len. rewrite rows_of_length. lia.
  - eapply Forall_impl; [apply rows_of_full|].
    + unfold Py.len in Hsz. nia.
    + intros row Hr. unfold Py.len. cbn beta in Hr. lia.
Qed.

Lemma fill_buffer_returns turns : ∀ s s',
  fill_buffer turns s = Some (Returns tt, s') →
  image_size (bk s') = image_size (bk s) ∧
  pixels_in_image (bk s') = pixels_in_image (bk s) ∧
  img (bk s') = img (bk s) ∧
  valid_frame s' = valid_frame s ∧
  packet_size s' = packet_size s.
Proof.
  induction turns as [|turns IH]; intros s s'; [done|].
  cbn [fill_buffer]. destruct (minimum_size s) as [minimum|]; [|done].
  destruct (Py.len (buffer (bk s)) <? minimum).
  - unfold on_socket.
    destruct (Sock.recv minimum (sock s)) as [[chunk|e|] k]; [|done|done].
    intros H. apply IH in H. by cbn in H.
  - by intros [= <-].
Qed.

Lemma frame_loop_returns w h turns : 0 ≤ w → 0 ≤ h → ∀ s s',
  image_size (bk s) = [w; h] →
  frame_loop turns s = Some (Returns tt, s') →
  (valid_frame s = true ∧ s' = s) ∨
  (valid_frame s' = true ∧ image_size (bk s') = [w; h] ∧
   ∃ frame, img (bk s') = Some frame ∧ Py.len frame = h ∧
            Forall (fun row => Py.len row = w) frame).
Proof.
  intros Hw Hh. induction turns as [|turns IH]; intros s s' Hsize; [done|].
  cbn [frame_loop]. destruct (valid_frame s) eqn:Hvalid.
  { intros [= <-]. by left. }
  rewrite Hsize.
  change (Py.index [w; h] 0) with (Ok w). change (Py.index [w; h] 1) with (Ok h).
  cbv iota beta.
  destruct (fill_buffer turns _) as [[[[]|e|] s1]|] eqn:Hfill; try done.
  apply fill_buffer_returns in Hfill as (Hs1 & _ & _ & Hv1 & _). cbn in Hs1, Hv1.
  unfold on_bk at 1.
  pose proof (receive_image_effects (bk s1)) as (Hgeo & _ & _ & Himg).
  destruct (receive_image (bk s1)) as [[valid|e] b'] eqn:Hrecv; [|done].
  cbn [fst snd] in Hgeo, Himg.
  destruct valid.
  - destruct Himg as (decoded & frame & Hframe & Hb').
    rewrite Hs1, Hsize in Hframe, Hgeo.
    apply reshape_frame_dims in Hframe as [Hrows Hcols]; [|done..].
    intros Hloop. right.
    destruct (IH (set_valid_frame true (set_bk b' s1)) s' Hgeo Hloop)
      as [[_ ->]|Hright]; [|done].
    cbn. split; [done|]. split; [done|]. by exists frame.
  - unfold on_socket. cbn [sock set_bk packet_size].
    destruct (Sock.recv (packet_size s1) (sock s1)) as [[chunk|e|] k]; [|done|done].
    intros Hloop. right.
    assert (Hgeo' : image_size (bk (on_bk (extend chunk) (set_sock k (set_bk b' s1))).2)
                    = [w; h]).
    { cbn. by rewrite Hgeo, Hs1. }
    destruct (IH _ s' Hgeo' Hloop) as [[Hcontra _]|Hright]; [|done].
    cbn in Hcontra. congruence.
Qed.

(** X20.  [get_frame] returns only with [valid_frame] set and an image of the
    stored geometry: as many rows as the height, each as long as the
    width. *)
Theorem get_frame_returns_with_frame turns s w h :
  image_size (bk s) = [w; h] → 0 ≤ w → 0 ≤ h →
  match get_frame turns s with
  | Some (Returns _, s') =>
      valid_frame s' = true ∧ image_size (bk s') = [w; h] ∧
      ∃ frame, img (bk s') = Some frame ∧ Py.len frame = h ∧
               Forall (fun row => Py.len row = w) frame
  | _ => True
  end.
Proof.
  intros Hsize Hw Hh. unfold get_frame.
  destruct (frame_loop turns _) as [[[[]|e|] s']|] eqn:Hloop; try done.
  apply (frame_loop_returns w h) in Hloop as [[Hcontra _]|Hright]; done.
Qed.

Lemma get_frame_returns_with_frame_witness :
  match get_frame 4
          (mkClient (session 2 2 []) None 25 1024 None false false false
             (mkSocket false true [] [] []
                [Arrives (image_message [10; 20; 30; 40])])) with
  | Some (Returns _, s') =>
      valid_frame s' = true ∧ image_size (bk s') = [2; 2] ∧
      ∃ frame, img (bk s') = Some frame ∧ Py.len frame = 2 ∧
               Forall (fun row => Py.len row = 2) frame
  | _ => True
  end.
Proof.
  apply (get_frame_returns_with_frame 4
           (mkClient (session 2 2 []) None 25 1024 None false false false
              (mkSocket false true [] [] []
                 [Arrives (image_message [10; 20; 30; 40])]))
           2 2).
  - reflexivity.
  - lia.
  - lia.
Defined.

Lemma fill_buffer_end_of_stream turns : ∀ s minimum rest,
  minimum_size s = Some minimum → Py.len (buffer (bk s)) < minimum →
  Sock.usable (sock s) = true → incoming (sock s) = Arrives [] :: rest →
  fill_buffer turns s = None.
Proof.
  induction turns as [|turns IH]; intros s minimum rest Hmin Hlen Hu Hin; [done|].
  cbn [fill_buffer]. rewrite Hmin.
  destruct (Z.ltb_spec (Py.len (buffer (bk s))) minimum); [|lia].
  pose proof (len_nonneg (buffer (bk s))).
  unfold on_socket, Sock.recv. rewrite Hu, Hin.
  destruct (Z.ltb_spec minimum 0); [lia|]. cbn [negb].
  apply (IH _ minimum rest); cbn.
  - done.
  - rewrite take_nil, app_nil_r. done.
  - done.
  - done.
Qed.

(** X21.  once the peer has closed the connection, [get_frame] on a buffer
    shorter than a frame never returns and never raises: each [recv] gives
    no bytes, and the inner loop asks again. *)
Theorem get_frame_spins_at_end_of_stream s w h rest turns :
  image_size (bk s) = [w; h] → Py.len (buffer (bk s)) < w * h + 22 →
  Sock.usable (sock s) = true → incoming (sock s) = Arrives [] :: rest →
  get_frame turns s = None.
Proof.
  intros Hsize Hlen Hu Hin. unfold get_frame.
  destruct turns as [|turns]; [done|].
  cbn [frame_loop valid_frame set_valid_frame bk]. rewrite Hsize.
  change (Py.index [w; h] 0) with (Ok w). change (Py.index [w; h] 1) with (Ok h).
  cbv iota beta.
  by rewrite (fill_buffer_end_of_stream turns _ (w * h + 22) rest).
Qed.

Lemma get_frame_spins_at_end_of_stream_witness :
  get_frame 1000
    (mkClient (session 2 2 [1; 68]) None 25 1024 None false false false
       (mkSocket false true [] [] [] [Arrives []]))
  = None.
Proof.
  apply (get_frame_spins_at_end_of_stream
           (mkClient (session 2 2 [1; 68]) None 25 1024 None false false false
              (mkSocket false true [] [] [] [Arrives []]))
           2 2 [] 1000).
  - reflexivity.
  - vm_compute. reflexivity.
  - reflexivity.
  - reflexivity.
Defined.

(** X22.  when nothing arrives before the time-out, [get_frame] on a buffer
    shorter than a frame raises the socket's error and keeps the bytes it
    holds. *)
Theorem get_frame_times_out turns s w h :
  image_size (bk s) = [w; h] → Py.len (buffer (bk s)) < w * h + 22 →
  Sock.usable (sock s) = true → incoming (sock s) = [] →
  get_frame (S (S turns)) s =
  Some (Raises IOError, set_minimum_size (Some (w * h + 22)) (set_valid_frame false s)).
Proof.
  intros Hsize Hlen Hu Hin. unfold get_frame.
  remember (S turns) as t eqn:Ht.
  cbn [frame_loop valid_frame set_valid_frame bk]. rewrite Hsize.
  change (Py.index [w; h] 0) with (Ok w). change (Py.index [w; h] 1) with (Ok h).
  cbv iota beta. subst t.
  cbn [fill_buffer minimum_size set_minimum_size set_valid_frame bk].
  destruct (Z.ltb_spec (Py.len (buffer (bk s))) (w * h + 22)); [|lia].
  pose proof (len_nonneg (buffer (bk s))).
  unfold on_socket, Sock.recv. cbn [sock set_minimum_size set_valid_frame].
  rewrite Hu, Hin.
  destruct (Z.ltb_spec (w * h + 22) 0); [lia|]. cbn [negb].
  by destruct s.
Qed.

Lemma get_frame_times_out_witness :
  get_frame 2
    (mkClient (session 2 2 [1; 68]) None 25 1024 None false false false
       (mkSocket false true [] [] [] []))
  = Some (Raises IOError,
          set_minimum_size (Some (2 * 2 + 22))
            (set_valid_frame false
               (mkClient (session 2 2 [1; 68]) None 25 1024 None false false false
                  (mkSocket false true [] [] [] [])))).
Proof.
  apply (get_frame_times_out 0
           (mkClient (session 2 2 [1; 68]) None 25 1024 None false false false
              (mkSocket false true [] [] [] []))
           2 2).
  - reflexivity.
  - vm_compute. reflexivity.
  - reflexivity.
  - reflexivity.
Defined.

(** ** The byte stuffing, both ways *)

Lemma escape_cons x tl :
  escape (x :: tl) =
  (if (x =? 0x01) || (x =? 0x04) || (x =? 0x1B) then [0x1B; Z.lxor x 0xFF] else [x])
  ++ escape tl.
Proof. done. Qed.

Lemma escape_app a b : escape (a ++ b) = escape a ++ escape b.
Proof. unfold escape. apply flat_map_app. Qed.

Lemma control_flipped x :
  (x =? 0x01) || (x =? 0x04) || (x =? 0x1B) = true →
  is_flipped (Z.lxor x 0xFF) = true ∧ Z.lxor (Z.lxor x 0xFF) 0xFF = x.
Proof.
  intros H. apply orb_prop in H as [H|H%Z.eqb_eq]; [|by subst].
  apply orb_prop in H as [H%Z.eqb_eq|H%Z.eqb_eq]; by subst.
Qed.

Lemma unescape_escape payload : unescape (escape payload) = payload.
Proof.
  induction payload as [|x tl IH]; [done|]. rewrite escape_cons.
  destruct ((x =? 0x01) || (x =? 0x04) || (x =? 0x1B)) eqn:Hc.
  - destruct (control_flipped x Hc) as [Hf Hx]. cbn [app].
    rewrite unescape_pair by done. by rewrite Hx, IH.
  - cbn [app]. rewrite unescape_keep; [by rewrite IH|].
    apply orb_false_elim in Hc as [_ ->]. done.
Qed.

Lemma escape_last payload : last (escape payload) ≠ Some 0x1B.
Proof.
  induction payload as [|x tl IH] using rev_ind; [done|].
  rewrite escape_app. change (escape [x]) with
    ((if (x =? 0x01) || (x =? 0x04) || (x =? 0x1B) then [0x1B; Z.lxor x 0xFF] else [x]) ++ []).
  rewrite app_nil_r.
  destruct ((x =? 0x01) || (x =? 0x04) || (x =? 0x1B)) eqn:Hc.
  - destruct (control_flipped x Hc) as [Hf _].
    change [0x1B; Z.lxor x 0xFF] with ([0x1B] ++ [Z.lxor x 0xFF]).
    rewrite app_assoc, last_snoc. intros [= E]. rewrite E in Hf. done.
  - rewrite last_snoc. intros [= ->]. done.
Qed.

Lemma escape_no_marker payload : Forall (fun b => b ≠ 0x04) (escape payload).
Proof.
  induction payload as [|x tl IH]; [constructor|]. rewrite escape_cons.
  destruct ((x =? 0x01) || (x =? 0x04) || (x =? 0x1B)) eqn:Hc.
  - destruct (control_flipped x Hc) as [Hf _]. cbn [app].
    constructor; [done|]. constructor; [|done].
    intros E. rewrite E in Hf. done.
  - cbn [app]. constructor; [|done]. intros ->. done.
Qed.

(** X23.  [decode_image] undoes the sender's byte stuffing: on a window that
    shows the stuffed form of a payload it returns the payload, whatever
    bytes the payload holds. *)
Theorem decode_image_inverts_escape st v payload :
  np_buffer st = Some v →
  view_contents (buffer st) v = escape payload →
  ∃ st', decode_image st = (Ok payload, st') ∧
         image_size st' = image_size st ∧ img st' = img st.
Proof.
  intros Hv Hwin. unfold decode_image. rewrite Hv, Hwin.
  destruct (decode_image_np_ok (escape payload) (escape_last payload))
    as (flipped & -> & _).
  rewrite unescape_escape. by eexists.
Qed.

Lemma decode_image_inverts_escape_witness :
  ∃ st', decode_image (scanning (set_buffer (escape [7; 1; 4; 27; 228; 9]) init))
         = (Ok [7; 1; 4; 27; 228; 9], st') ∧
         image_size st' = image_size (scanning (set_buffer (escape [7; 1; 4; 27; 228; 9]) init)) ∧
         img st' = img (scanning (set_buffer (escape [7; 1; 4; 27; 228; 9]) init)).
Proof.
  apply (decode_image_inverts_escape
           (scanning (set_buffer (escape [7; 1; 4; 27; 228; 9]) init))
           (frombuffer (escape [7; 1; 4; 27; 228; 9]))
           [7; 1; 4; 27; 228; 9]).
  - reflexivity.
  - reflexivity.
Defined.

Lemma find_from_start (arr sub : list Z) :
  Py.find arr sub 0 = Py.find_at sub arr 0.
Proof.
  unfold Py.find. change (0 <? 0) with false. cbv iota.
  pose proof (len_nonneg arr).
  by destruct (Z.ltb_spec (Py.len arr) 0); [lia|].
Qed.

Lemma find_at_single x pre tl : ∀ i,
  x ∉ pre → Py.find_at [x] (pre ++ x :: tl) i = i + Py.len pre.
Proof.
  induction pre as [|y pre IH]; intros i Hx.
  - cbn. rewrite Z.eqb_refl. unfold Py.len. cbn. lia.
  - apply not_elem_of_cons in Hx as [Hxy Hx].
    cbn [app Py.find_at Py.is_prefix].
    destruct (Z.eqb_spec x y); [done|]. cbn [andb].
    rewrite IH by done. unfold Py.len. cbn [length]. lia.
Qed.

Lemma frame_message_layout info c field stuffed t rest :
  frame_message info c field stuffed t ++ rest =
  ([1; 68; 65; 84; 65; 58; 71; 82; 65; 66; 95; 70; 82; 65; 77; 69] ++ info)
  ++ 35 :: c :: field ++ stuffed ++ t :: 0x04 :: rest.
Proof.
  unfold frame_message. rewrite <- !app_assoc. reflexivity.
Qed.

Lemma frame_message_length info c field stuffed t :
  Py.len (frame_message info c field stuffed t)
  = 20 + Py.len info + Py.len field + Py.len stuffed.
Proof.
  rewrite <- (app_nil_r (frame_message _ _ _ _ _)), frame_message_layout.
  unfold Py.len. cbn [length app]. rewrite !length_app. cbn [length].
  rewrite !length_app. cbn [length]. lia.
Qed.

Lemma frame_message_tags info c field stuffed t rest :
  Forall (fun b => b ≠ 35 ∧ b ≠ 0x04) info →
  Py.find (frame_message info c field stuffed t ++ rest) img_msg 0 = 1 ∧
  Py.find (frame_message info c field stuffed t ++ rest) (encode_utf8 "#") 0
  = 16 + Py.len info ∧
  Py.index (frame_message info c field stuffed t ++ rest) (17 + Py.len info) = Ok c.
Proof.
  intros Hinfo. rewrite !find_from_start, frame_message_layout.
  pose proof (len_nonneg info) as Hn. split; [|split].
  - reflexivity.
  - change (encode_utf8 "#") with [35]. rewrite find_at_single.
    + unfold Py.len. rewrite length_app. cbn [length]. lia.
    + intros [Hin|Hin]%elem_of_app.
      * repeat (apply elem_of_cons in Hin as [Hin|Hin]; [discriminate|]).
        by apply elem_of_nil in Hin.
      * eapply Forall_forall in Hinfo; [|exact Hin]. by destruct Hinfo.
  - apply index_Ok; [lia|].
    set (pre := [1; 68; 65; 84; 65; 58; 71; 82; 65; 66; 95; 70; 82; 65; 77; 69] ++ info).
    assert (Hpl : Z.to_nat (17 + Py.len info) = S (length pre)).
    { unfold pre, Py.len. rewrite length_app. cbn [length]. lia. }
    rewrite Hpl, lookup_app_r by lia.
    replace (S (length pre) - length pre)%nat with 1%nat by lia. done.
Qed.

Lemma frame_message_before_end info c field stuffed t :
  Forall (fun b => b ≠ 35 ∧ b ≠ 0x04) info →
  c ≠ 0x04 →
  Forall (fun b => b ≠ 0x04) field → Forall (fun b => b ≠ 0x04) stuffed →
  t ≠ 0x04 →
  ∃ before,
    frame_message info c field stuffed t = before ++ [0x04] ∧
    Forall (fun b => b ≠ 0x04) before ∧
    Py.len before = 19 + Py.len info + Py.len field + Py.len stuffed ∧
    before !! 0%nat = Some 0x01 ∧
    last before = Some t.
Proof.
  intros Hinfo Hc Hfield Hstuffed Ht.
  exists (([1; 68; 65; 84; 65; 58; 71; 82; 65; 66; 95; 70; 82; 65; 77; 69] ++ info)
          ++ 35 :: c :: field ++ stuffed ++ [t]).
  split; [|split; [|split; [|split]]].
  - rewrite <- (app_nil_r (frame_message _ _ _ _ _)), frame_message_layout.
    rewrite <- !app_assoc. cbn [app]. by rewrite <- !app_assoc.
  - apply Forall_app. split.
    + apply Forall_app. split; [by repeat constructor|].
      eapply Forall_impl; [exact Hinfo|]. by intros b [_ ?].
    + constructor; [done|]. constructor.
      { done. }
      apply Forall_app. split; [done|]. apply Forall_app. split; [done|].
      by repeat constructor.
  - unfold Py.len. rewrite !length_app. cbn [length]. rewrite !length_app.
    cbn [length]. lia.
  - done.
  - rewrite !app_comm_cons, !app_assoc. apply last_snoc.
Qed.

Lemma frame_message_end info c field stuffed t rest :
  Forall (fun b => b ≠ 35 ∧ b ≠ 0x04) info →
  c ≠ 0x04 →
  Forall (fun b => b ≠ 0x04) field → Forall (fun b => b ≠ 0x04) stuffed →
  t ≠ 0x04 → t ≠ 0x27 →
  first_unescaped (frame_message info c field stuffed t ++ rest) 0 0x04 0x27
    (19 + Py.len info + Py.len field + Py.len stuffed).
Proof.
  intros Hinfo Hc Hfield Hstuffed Ht Hguard.
  destruct (frame_message_before_end info c field stuffed t)
    as (before & -> & Hno & Hlen & _ & Hlast); [done..|].
  rewrite <- Hlen. rewrite <- app_assoc. cbn [app].
  pose proof (len_nonneg before) as Hn. unfold Py.len in *. split.
  - split; [lia|]. split.
    + rewrite Nat2Z.id. by apply list_lookup_middle.
    + right. rewrite last_lookup in Hlast.
      replace (Z.to_nat (Z.of_nat (length before) - 1)) with (pred (length before))
        by lia.
      rewrite lookup_app_l by lia. rewrite Hlast. congruence.
  - intros k Hk (Hk0 & Hlook & _).
    rewrite lookup_app_l in Hlook by lia.
    eapply Forall_lookup_1 in Hno; [|exact Hlook]. done.
Qed.

Lemma frame_message_window info c field stuffed t rest :
  Py.slice (frame_message info c field stuffed t ++ rest)
    (18 + Py.len info + Py.len field)
    (18 + Py.len info + Py.len field + Py.len stuffed)
  = stuffed.
Proof.
  pose proof (frame_message_length info c field stuffed t) as Hlen.
  assert (Hl : Py.len (frame_message info c field stuffed t ++ rest)
               = 20 + Py.len info + Py.len field + Py.len stuffed + Py.len rest).
  { unfold Py.len in *. rewrite length_app. lia. }
  pose proof (len_nonneg info). pose proof (len_nonneg field).
  pose proof (len_nonneg stuffed). pose proof (len_nonneg rest).
  unfold Py.slice. rewrite Hl, !slice_bound_in by lia.
  rewrite frame_message_layout.
  assert (([1; 68; 65; 84; 65; 58; 71; 82; 65; 66; 95; 70; 82; 65; 77; 69] ++ info)
          ++ 35 :: c :: field ++ stuffed ++ t :: 4 :: rest
          = (([1; 68; 65; 84; 65; 58; 71; 82; 65; 66; 95; 70; 82; 65; 77; 69] ++ info)
             ++ 35 :: c :: field) ++ stuffed ++ t :: 4 :: rest) as ->.
  { rewrite <- !app_assoc. cbn [app]. by rewrite <- ?app_assoc. }
  set (pre := ([1; 68; 65; 84; 65; 58; 71; 82; 65; 66; 95; 70; 82; 65; 77; 69] ++ info)
              ++ 35 :: c :: field).
  assert (Hpre : length pre = Z.to_nat (18 + Py.len info + Py.len field)).
  { unfold pre, Py.len. rewrite !length_app. cbn [length]. lia. }
  replace (Z.to_nat (18 + Py.len info + Py.len field + Py.len stuffed))
    with (length pre + length stuffed)%nat by (unfold Py.len in *; lia).
  rewrite take_app_add, take_app_length, <- Hpre.
  by rewrite drop_app_length.
Qed.

Lemma reshape_frame_take payload w h :
  0 ≤ w → 0 ≤ h → w * h ≤ Py.len payload →
  reshape_frame payload (w * h) [w; h] =
  Ok (Np.rows_of (Z.to_nat h) (Z.to_nat w) (take (Z.to_nat (w * h)) payload)).
Proof.
  intros Hw Hh Hle. unfold reshape_frame.
  change (Py.index [w; h] 1) with (Ok h). change (Py.index [w; h] 0) with (Ok w).
  unfold mbind, result_bind. rewrite slice_to_take by nia.
  apply reshape_exact; [done|done|].
  unfold Py.len in *. rewrite length_take. nia.
Qed.

Lemma receive_image_stuffed st payload w h info c field t rest :
  0 ≤ w → 0 ≤ h → w * h ≤ Py.len payload →
  Forall (fun b => b ≠ 35 ∧ b ≠ 0x04) info →
  Py.len field = 4 + (c - ord "0") →
  Forall (fun b => b ≠ 0x04) field →
  t ≠ 0x04 → t ≠ 0x27 →
  buffer st = frame_message info c field (escape payload) t ++ rest →
  image_size st = [w; h] → pixels_in_image st = w * h →
  ∃ st', receive_image st = (Ok true, st') ∧
    img st' = Some (Np.rows_of (Z.to_nat h) (Z.to_nat w)
                      (take (Z.to_nat (w * h)) payload)) ∧
    buffer st' = rest ∧
    image_size st' = [w; h] ∧ pixels_in_image st' = w * h.
Proof.
  intros Hw Hh Hle Hinfo Hfl Hfield Ht Hguard Hbuf Hsize Hpix.
  set (stuffed := escape payload) in *.
  set (buf := frame_message info c field stuffed t ++ rest) in *.
  set (first := 18 + Py.len info + Py.len field).
  set (e := 19 + Py.len info + Py.len field + Py.len stuffed).
  pose proof (len_nonneg stuffed) as Hn.
  pose proof (len_nonneg info) as Hni. pose proof (len_nonneg field) as Hnf.
  pose proof (len_nonneg rest) as Hnr.
  destruct (frame_message_tags info c field stuffed t rest Hinfo)
    as (Htag & Hhash & Hdigit).
  fold buf in Htag, Hhash, Hdigit.
  assert (Hlen : Py.len buf = e + 1 + Py.len rest).
  { unfold buf, e. pose proof (frame_message_length info c field stuffed t).
    unfold Py.len in *. rewrite length_app. lia. }
  assert (Hstart : find_first_a_not_preceded_by_b buf 0 0x01 0x27 = Ok 0).
  { apply find_first_at_start; [done|].
    unfold buf. by rewrite frame_message_layout. }
  assert (Hend : find_first_a_not_preceded_by_b buf 0 0x04 0x27 = Ok e).
  { apply find_first_correct; [done|by left|].
    apply frame_message_end; [done| |done|apply escape_no_marker|done|done].
    change (ord "0") with 48 in Hfl. lia. }
  rewrite (receive_image_decode st 0 e); rewrite ?Hbuf; [|done|done|done|lia|].
  2:{ rewrite Htag. lia. }
  unfold payload_window. rewrite Hhash.
  replace (16 + Py.len info + 1) with (17 + Py.len info) by lia. rewrite Hdigit.
  unfold mbind, result_bind.
  replace (17 + Py.len info + 1 + 4 + c - ord "0") with first by (unfold first; lia).
  rewrite decode_step_run by done.
  change (buffer (scanning st)) with (buffer st).
  change (pixels_in_image (scanning st)) with (pixels_in_image st).
  change (image_size (scanning st)) with (image_size st).
  rewrite Hbuf, Hsize, Hpix.
  replace (e - 2 + 1) with (first + Py.len stuffed) by (unfold e, first; lia).
  cbv zeta.
  set (v := view_slice (frombuffer buf) first (first + Py.len stuffed)).
  destruct (slice_length_view buf first (first + Py.len stuffed)) as [Hwl Hvalid].
  fold v in Hwl, Hvalid.
  assert (Hwin : Py.slice buf first (first + Py.len stuffed) = stuffed).
  { unfold buf, first.
    replace (18 + Py.len info + Py.len field + Py.len stuffed)
      with (18 + Py.len info + Py.len field + Py.len stuffed) by done.
    apply frame_message_window. }
  rewrite Hwin in *.
  destruct (decode_image_np_ok stuffed (escape_last payload))
    as (flipped & -> & Hfl' & _).
  unfold stuffed at 1. rewrite unescape_escape.
  rewrite reshape_frame_take by done.
  eexists. split; [reflexivity|].
  rewrite clear_bytes_in_buffer_prefix by lia.
  cbn [snd img set_buffer set_img set_np_buffer image_size pixels_in_image buffer].
  split; [done|]. split; [|done].
  assert (Hdrop : drop (Z.to_nat (e + 1)) buf = rest).
  { unfold buf. apply drop_app_length'.
    pose proof (frame_message_length info c field stuffed t).
    unfold e, Py.len in *. lia. }
  rewrite <- Hdrop.
  destruct (view_slice_bounds buf first (first + Py.len stuffed)) as [[Hz|Hoff] _];
    fold v in Hz || fold v in Hoff.
  - rewrite Hz in Hwl. rewrite Hwl in Hfl'. destruct flipped; [|done].
    by rewrite view_store_empty.
  - apply view_store_drop; [lia|done|].
    rewrite Hoff. rewrite slice_bound_in by (unfold first, e in *; lia).
    unfold first, e. lia.
Qed.

(** X24.  A buffer that starts with an image message goes through
    [receive_image] to the image the sender stuffed.  The message is the
    start byte, the tag, header bytes that hold no ['#'] and no 4, ['#'], a
    count byte [c], a length field and sub-header of [4 + (c - '0')] bytes
    that hold no 4, the stuffed payload, one trailing byte other than 4 and
    0x27, and the end byte.  The payload comes back unstuffed, cut to the
    pixel count and laid out in rows of the width; the message is taken off
    the buffer and the bytes after it are kept. *)
Theorem receive_image_decodes_stuffed_frame payload w h info c field t rest :
  0 ≤ w → 0 ≤ h → w * h ≤ Py.len payload →
  Forall (fun b => b ≠ 35 ∧ b ≠ 0x04) info →
  Py.len field = 4 + (c - ord "0") →
  Forall (fun b => b ≠ 0x04) field →
  t ≠ 0x04 → t ≠ 0x27 →
  ∃ st', receive_image
           (session w h (frame_message info c field (escape payload) t ++ rest))
         = (Ok true, st') ∧
    img st' = Some (Np.rows_of (Z.to_nat h) (Z.to_nat w)
                      (take (Z.to_nat (w * h)) payload)) ∧
    buffer st' = rest ∧
    image_size st' = [w; h].
Proof.
  intros Hw Hh Hle Hinfo Hfl Hfield Ht Hguard.
  destruct (receive_image_stuffed
              (session w h (frame_message info c field (escape payload) t ++ rest))
              payload w h info c field t rest Hw Hh Hle Hinfo Hfl Hfield Ht Hguard
              eq_refl eq_refl eq_refl)
    as (st' & Hrun & Himg & Hbuf & Hsize & _).
  by exists st'.
Qed.

Lemma receive_image_decodes_stuffed_frame_witness :
  ∃ st', receive_image
           (session 2 2
              (frame_message [32] 50 [49; 50; 0; 0; 0; 9] (escape [10; 1; 4; 27; 99]) 77
               ++ [1; 68]))
         = (Ok true, st') ∧
    img st' = Some (Np.rows_of (Z.to_nat 2) (Z.to_nat 2)
                      (take (Z.to_nat (2 * 2)) [10; 1; 4; 27; 99])) ∧
    buffer st' = [1; 68] ∧
    image_size st' = [2; 2].
Proof.
  apply (receive_image_decodes_stuffed_frame [10; 1; 4; 27; 99] 2 2
           [32] 50 [49; 50; 0; 0; 0; 9] 77 [1; 68]).
  - lia.
  - lia.
  - vm_compute. discriminate.
  - repeat constructor; discriminate.
  - reflexivity.
  - repeat constructor; discriminate.
  - discriminate.
  - discriminate.
Defined.

Lemma escape_length payload : Py.len payload ≤ Py.len (escape payload).
Proof.
  unfold Py.len. induction payload as [|x tl IH]; [done|].
  rewrite escape_cons, length_app.
  destruct ((x =? 0x01) || (x =? 0x04) || (x =? 0x1B)); cbn [length]; lia.
Qed.

Lemma receive_image_partial_message st info c field stuffed t (m : nat) :
  Forall (fun b => b ≠ 35 ∧ b ≠ 0x04) info → c ≠ 0x04 →
  Forall (fun b => b ≠ 0x04) field → Forall (fun b => b ≠ 0x04) stuffed →
  t ≠ 0x04 →
  (1 ≤ m < length (frame_message info c field stuffed t))%nat →
  buffer st = take m (frame_message info c field stuffed t) →
  receive_image st = (Ok false, scanning st).
Proof.
  intros Hinfo Hc Hfield Hstuffed Ht Hm Hbuf.
  destruct (frame_message_before_end info c field stuffed t)
    as (before & Hmsg & Hno & _ & Hfirst & _); [done..|].
  rewrite Hmsg in Hbuf, Hm. rewrite length_app in Hm. cbn [length] in Hm.
  rewrite take_app_le in Hbuf by lia.
  apply (receive_image_pending st 0).
  - rewrite Hbuf. split.
    + split; [done|]. split; [|by left].
      apply lookup_take_Some. split; [done|lia].
    + intros k Hk (Hk0 & _). lia.
  - intros e _ (_ & Hlook & _). rewrite Hbuf in Hlook.
    apply lookup_take_Some in Hlook as [Hlook _].
    eapply Forall_lookup_1 in Hno; [|exact Hlook]. done.
Qed.

Lemma fill_buffer_enough t s minimum :
  minimum_size s = Some minimum → minimum ≤ Py.len (buffer (bk s)) →
  fill_buffer (S t) s = Some (Returns tt, s).
Proof.
  intros Hmin Hlen. cbn [fill_buffer]. rewrite Hmin.
  by destruct (Z.ltb_spec (Py.len (buffer (bk s))) minimum); [lia|].
Qed.

Lemma frame_loop_valid t s :
  valid_frame s = true → frame_loop (S t) s = Some (Returns tt, s).
Proof. intros Hv. cbn [frame_loop]. by rewrite Hv. Qed.

Lemma frame_loop_found t s w h s1 b' :
  valid_frame s = false → image_size (bk s) = [w; h] →
  fill_buffer t (set_minimum_size (Some (w * h + 22)) s) = Some (Returns tt, s1) →
  receive_image (bk s1) = (Ok true, b') →
  frame_loop (S t) s = frame_loop t (set_valid_frame true (set_bk b' s1)).
Proof.
  intros Hv Hsize Hfill Hrecv. cbn [frame_loop]. rewrite Hv, Hsize.
  change (Py.index [w; h] 0) with (Ok w). change (Py.index [w; h] 1) with (Ok h).
  cbv iota beta. rewrite Hfill. unfold on_bk. by rewrite Hrecv.
Qed.

Lemma frame_loop_more t s w h s1 b' chunk k :
  valid_frame s = false → image_size (bk s) = [w; h] →
  fill_buffer t (set_minimum_size (Some (w * h + 22)) s) = Some (Returns tt, s1) →
  receive_image (bk s1) = (Ok false, b') →
  Sock.recv (packet_size s1) (sock s1) = (Returns chunk, k) →
  frame_loop (S t) s
  = frame_loop t (on_bk (extend chunk) (set_sock k (set_bk b' s1))).2.
Proof.
  intros Hv Hsize Hfill Hrecv Hsock. cbn [frame_loop]. rewrite Hv, Hsize.
  change (Py.index [w; h] 0) with (Ok w). change (Py.index [w; h] 1) with (Ok h).
  cbv iota beta. rewrite Hfill. unfold on_bk at 1. rewrite Hrecv.
  unfold on_socket. cbn [sock set_bk packet_size]. by rewrite Hsock.
Qed.

Lemma fill_buffer_first_read t s minimum bs later :
  minimum_size s = Some minimum → buffer (bk s) = [] →
  0 < minimum < Py.len bs →
  Sock.usable (sock s) = true → incoming (sock s) = Arrives bs :: later →
  fill_buffer (S (S t)) s =
  Some (Returns tt,
        set_bk (set_buffer (take (Z.to_nat minimum) bs) (bk s))
          (set_sock
             (mkSocket (closed (sock s)) (connected (sock s)) (answers (sock s))
                (sent (sock s)) (outgoing (sock s))
                (Arrives (drop (Z.to_nat minimum) bs) :: later)) s)).
Proof.
  intros Hmin Hbuf Hm Hu Hin.
  remember (S t) as t1 eqn:Ht1. cbn [fill_buffer]. rewrite Hmin, Hbuf.
  change (Py.len []) with 0. destruct (Z.ltb_spec 0 minimum); [|lia].
  unfold on_socket, Sock.recv. rewrite Hu, Hin.
  destruct (Z.ltb_spec minimum 0); [lia|]. cbn [negb].
  destruct bs as [|b0 bs']; [unfold Py.len in Hm; cbn in Hm; lia|].
  destruct (Z.leb_spec (Py.len (b0 :: bs')) minimum); [lia|].
  subst t1. rewrite (fill_buffer_enough t _ minimum).
  - unfold on_bk, extend, modify. cbn. by rewrite Hbuf.
  - done.
  - cbn. rewrite Hbuf. cbn [app]. unfold Py.len in *. rewrite length_take. lia.
Qed.

(** X25.  With an empty buffer, an image message that has arrived whole on
    the socket comes out of [get_frame] as the image.  The message is as in
    X24, with a count byte not below ['0'], and what is left of it after the
    first read fits [packet_size].  The run is one read of [minimum_size]
    bytes, a scan that finds the message incomplete, one read of the rest
    and the decode; the buffer ends empty and later arrivals are untouched. *)
Theorem get_frame_reads_stuffed_frame payload w h info c field t s later turns :
  0 ≤ w → 0 ≤ h → w * h ≤ Py.len payload →
  Forall (fun b => b ≠ 35 ∧ b ≠ 0x04) info →
  ord "0" ≤ c → Py.len field = 4 + (c - ord "0") →
  Forall (fun b => b ≠ 0x04) field →
  t ≠ 0x04 → t ≠ 0x27 →
  buffer (bk s) = [] → image_size (bk s) = [w; h] → pixels_in_image (bk s) = w * h →
  Sock.usable (sock s) = true →
  incoming (sock s)
  = Arrives (frame_message info c field (escape payload) t) :: later →
  Py.len (frame_message info c field (escape payload) t) - (w * h + 22)
  ≤ packet_size s →
  ∃ s', get_frame (3 + turns) s = Some (Returns tt, s') ∧
    valid_frame s' = true ∧
    img (bk s') = Some (Np.rows_of (Z.to_nat h) (Z.to_nat w)
                          (take (Z.to_nat (w * h)) payload)) ∧
    buffer (bk s') = [] ∧
    incoming (sock s') = later.
Proof.
  intros Hw Hh Hle Hinfo Hc Hfl Hfield Ht Hguard Hbuf Hsize Hpix Hu Hin Hps.
  set (stuffed := escape payload) in *.
  set (msg := frame_message info c field stuffed t) in *.
  set (m := w * h + 22).
  pose proof (escape_length payload) as Hesc. fold stuffed in Hesc.
  pose proof (frame_message_length info c field stuffed t) as Hml. fold msg in Hml.
  pose proof (len_nonneg info) as Hni.
  assert (Hm : 22 ≤ m < Py.len msg) by (unfold m; nia).
  unfold get_frame. change (3 + turns)%nat with (S (S (S turns))).
  set (s0 := set_valid_frame false s).
  set (s1 := set_bk (set_buffer (take (Z.to_nat m) msg) (bk s))
               (set_sock
                  (mkSocket (closed (sock s)) (connected (sock s)) (answers (sock s))
                     (sent (sock s)) (outgoing (sock s))
                     (Arrives (drop (Z.to_nat m) msg) :: later))
                  (set_minimum_size (Some m) s0))).
  assert (Hfill : fill_buffer (S (S turns)) (set_minimum_size (Some m) s0)
                  = Some (Returns tt, s1)).
  { rewrite (fill_buffer_first_read turns _ m msg later);
      [reflexivity|done|done|lia|done|done]. }
  assert (Hpending : receive_image (bk s1) = (Ok false, scanning (bk s1))).
  { apply (receive_image_partial_message _ info c field stuffed t (Z.to_nat m)).
    - done.
    - change (ord "0") with 48 in Hc. lia.
    - done.
    - apply escape_no_marker.
    - done.
    - fold msg. unfold Py.len in *. lia.
    - done. }
  assert (Hrest : Sock.recv (packet_size s1) (sock s1)
                  = (Returns (drop (Z.to_nat m) msg),
                     mkSocket (closed (sock s)) (connected (sock s)) (answers (sock s))
                       (sent (sock s)) (outgoing (sock s)) later)).
  { unfold Sock.recv. cbn [packet_size sock s1 s0 set_bk set_sock set_minimum_size
                           set_valid_frame].
    destruct (Z.ltb_spec (packet_size s) 0); [lia|].
    unfold Sock.usable in *. cbn [closed connected incoming]. rewrite Hu. cbn [negb].
    assert (Hdl : Py.len (drop (Z.to_nat m) msg) = Py.len msg - m).
    { unfold Py.len in *. rewrite length_drop. lia. }
    rewrite take_ge by (unfold Py.len in *; lia).
    destruct (drop (Z.to_nat m) msg) as [|b0 tl] eqn:Hd.
    { change (Py.len []) with 0 in Hdl. lia. }
    by destruct (Z.leb_spec (Py.len (b0 :: tl)) (packet_size s)); [|lia]. }
  rewrite (frame_loop_more _ s0 w h s1 _ _ _ eq_refl Hsize Hfill Hpending Hrest).
  set (s2 := (on_bk (extend (drop (Z.to_nat m) msg)) _).2).
  assert (Hbuf2 : buffer (bk s2) = msg ++ []).
  { cbn. rewrite app_nil_r. apply take_drop. }
  assert (Hfill2 : fill_buffer (S turns) (set_minimum_size (Some m) s2)
                   = Some (Returns tt, set_minimum_size (Some m) s2)).
  { apply (fill_buffer_enough _ _ m); [done|].
    cbn [bk set_minimum_size]. rewrite Hbuf2, app_nil_r. lia. }
  destruct (receive_image_stuffed (bk s2) payload w h info c field t []
              Hw Hh Hle Hinfo Hfl Hfield Ht Hguard Hbuf2 Hsize Hpix)
    as (b' & Hrun & Himg & Hbuf' & _).
  rewrite (frame_loop_found _ s2 w h _ b' eq_refl Hsize Hfill2 Hrun).
  rewrite frame_loop_valid by done.
  eexists. split; [reflexivity|]. done.
Qed.

Lemma get_frame_reads_stuffed_frame_witness :
  ∃ s', get_frame (3 + 0)
          (mkClient (session 2 2 []) None 25 1024 None false false false
             (mkSocket false true [] [] []
                [Arrives (frame_message [32] 50 [49; 50; 0; 0; 0; 9]
                            (escape [10; 1; 4; 27]) 77); Breaks]))
        = Some (Returns tt, s') ∧
    valid_frame s' = true ∧
    img (bk s') = Some (Np.rows_of (Z.to_nat 2) (Z.to_nat 2)
                          (take (Z.to_nat (2 * 2)) [10; 1; 4; 27])) ∧
    buffer (bk s') = [] ∧
    incoming (sock s') = [Breaks].
Proof.
  apply (get_frame_reads_stuffed_frame [10; 1; 4; 27] 2 2
           [32] 50 [49; 50; 0; 0; 0; 9] 77
           (mkClient (session 2 2 []) None 25 1024 None false false false
              (mkSocket false true [] [] []
                 [Arrives (frame_message [32] 50 [49; 50; 0; 0; 0; 9]
                             (escape [10; 1; 4; 27]) 77); Breaks]))
           [Breaks] 0).
  - lia.
  - lia.
  - vm_compute. discriminate.
  - repeat constructor; discriminate.
  - vm_compute. discriminate.
  - reflexivity.
  - repeat constructor; discriminate.
  - discriminate.
  - discriminate.
  - reflexivity.
  - reflexivity.
  - reflexivity.
  - reflexivity.
  - reflexivity.
  - vm_compute. discriminate.
Defined.

(** ** The scan and the trim, in general *)

(** X26.  from a start inside the buffer [find_first_a_not_preceded_by_b]
    never raises: it returns 0 when the start byte is the target, the
    absolute index of the first unguarded target after it, or -1; from a
    start at or past the end it raises [IndexError]. *)
Theorem find_first_a_not_preceded_by_b_outcomes arr start_pos a b :
  0 ≤ start_pos →
  match find_first_a_not_preceded_by_b arr start_pos a b with
  | Raise e => e = IndexError ∧ Py.len arr ≤ start_pos
  | Ok found =>
      start_pos < Py.len arr ∧
      ((found = 0 ∧ arr !! Z.to_nat start_pos = Some a) ∨
       (found = -1 ∧ ∀ k, ¬ unescaped_at arr start_pos a b k) ∨
       (start_pos < found ∧ first_unescaped arr start_pos a b found))
  end.
Proof.
  intros Hs. destruct (Z.le_gt_cases (Py.len arr) start_pos) as [Hout|Hin].
  { by rewrite find_first_out. }
  destruct (lookup_lt_is_Some_2 arr (Z.to_nat start_pos)) as [x0 Hx0].
  { unfold Py.len in Hin. lia. }
  destruct (Z.eq_dec x0 a) as [->|Hne].
  - rewrite find_first_at_start by done. split; [lia|]. by left.
  - destruct (find_first_after arr start_pos a b x0 Hs Hx0 Hne)
      as (r & -> & Hr). split; [lia|]. by right.
Qed.

Lemma find_first_a_not_preceded_by_b_outcomes_witness :
  match find_first_a_not_preceded_by_b [9; 0x27; 0x04; 7; 0x04] 1 0x04 0x27 with
  | Raise e => e = IndexError ∧ Py.len [9; 0x27; 0x04; 7; 0x04] ≤ 1
  | Ok found =>
      1 < Py.len [9; 0x27; 0x04; 7; 0x04] ∧
      ((found = 0 ∧ [9; 0x27; 0x04; 7; 0x04] !! Z.to_nat 1 = Some 0x04) ∨
       (found = -1 ∧ ∀ k, ¬ unescaped_at [9; 0x27; 0x04; 7; 0x04] 1 0x04 0x27 k) ∨
       (1 < found ∧ first_unescaped [9; 0x27; 0x04; 7; 0x04] 1 0x04 0x27 found))
  end.
Proof.
  apply (find_first_a_not_preceded_by_b_outcomes [9; 0x27; 0x04; 7; 0x04] 1 0x04 0x27).
  lia.
Defined.

(** X27.  [clear_bytes_in_buffer] never raises and removes the bytes from
    [start] up to, not including, [end], an [end] past the buffer counting
    as its length; with [end] at or before [start] nothing is removed. *)
Theorem clear_bytes_in_buffer_range st start end_ :
  0 ≤ start → 0 ≤ end_ →
  clear_bytes_in_buffer start end_ st =
  (Ok tt,
   set_buffer (take (Z.to_nat start) (buffer st)
               ++ drop (Z.to_nat (Z.max start end_)) (buffer st)) st).
Proof.
  intros Hs He. unfold clear_bytes_in_buffer, modify. f_equal. f_equal.
  pose proof (len_nonneg (buffer st)) as Hl.
  set (l := buffer st) in *.
  unfold Py.del_slice, Py.slice_bound.
  destruct (Z.ltb_spec start 0); [lia|].
  destruct (Z.leb_spec (Py.len l) end_) as [Hle|Hgt].
  - destruct (Z.ltb_spec (Py.len l) 0); [lia|].
    rewrite (Z.min_l (Py.len l)) by lia.
    destruct (Z.ltb_spec (Z.min start (Py.len l)) (Py.len l)) as [Hlt|Hge].
    + rewrite Z.min_l by lia. f_equal.
      rewrite !drop_ge; [done|unfold Py.len in *; lia..].
    + rewrite take_ge, drop_ge by (unfold Py.len in *; lia).
      by rewrite app_nil_r.
  - destruct (Z.ltb_spec end_ 0); [lia|].
    rewrite (Z.min_l end_) by lia.
    destruct (Z.ltb_spec (Z.min start (Py.len l)) end_) as [Hlt|Hge].
    + rewrite Z.min_l, Z.max_r by lia. done.
    + rewrite Z.max_l by lia. by rewrite take_drop.
Qed.

Lemma clear_bytes_in_buffer_range_witness :
  clear_bytes_in_buffer 1 3 (set_buffer [7; 8; 9; 10] init) =
  (Ok tt,
   set_buffer (take (Z.to_nat 1) (buffer (set_buffer [7; 8; 9; 10] init))
               ++ drop (Z.to_nat (Z.max 1 3)) (buffer (set_buffer [7; 8; 9; 10] init)))
     (set_buffer [7; 8; 9; 10] init)).
Proof.
  apply (clear_bytes_in_buffer_range (set_buffer [7; 8; 9; 10] init) 1 3).
  - lia.
  - lia.
Defined.

Lemma decode_image_writes_buffer_witness :
  ∃ st', decode_image (scanning (set_buffer [7; 0x1B; 0xFE; 9] init))
         = (Ok (unescape (view_contents
                            (buffer (scanning (set_buffer [7; 0x1B; 0xFE; 9] init)))
                            (frombuffer [7; 0x1B; 0xFE; 9]))), st') ∧
    buffer (scanning (set_buffer [7; 0x1B; 0xFE; 9] init)) !! 2%nat = Some 0xFE ∧
    buffer st' !! 2%nat = Some (Z.lxor 0xFE 0xFF) ∧
    buffer st' ≠ buffer (scanning (set_buffer [7; 0x1B; 0xFE; 9] init)).
Proof.
  apply (decode_image_writes_buffer
           (scanning (set_buffer [7; 0x1B; 0xFE; 9] init))
           (frombuffer [7; 0x1B; 0xFE; 9]) 1 0xFE).
  - reflexivity.
  - vm_compute. lia.
  - reflexivity.
  - reflexivity.
  - reflexivity.
  - vm_compute. discriminate.
Defined.

Lemma receive_image_discards_junk_witness :
  receive_image (set_buffer [0x41; 0x42] init)
  = (Ok false, set_buffer [] (scanning (set_buffer [0x41; 0x42] init))).
Proof.
  apply (receive_image_discards_junk (set_buffer [0x41; 0x42] init)).
  - discriminate.
  - intros k (_ & Hlook & _). cbn in Hlook.
    destruct (Z.to_nat k) as [|[|[|n]]]; discriminate.
Defined.

Lemma receive_image_discards_non_image_witness :
  ∃ st', receive_image (set_buffer [0x01; 0x41; 0x04; 0x09] init) = (Ok false, st') ∧
         buffer st' = drop (Z.to_nat (2 + 1))
                        (buffer (set_buffer [0x01; 0x41; 0x04; 0x09] init)).
Proof.
  apply (receive_image_discards_non_image
           (set_buffer [0x01; 0x41; 0x04; 0x09] init) 0 2).
  - split.
    + split; [lia|]. split; [reflexivity|]. left. reflexivity.
    + intros k Hk (Hk0 & _). lia.
  - split.
    + split; [lia|]. split; [reflexivity|]. right. discriminate.
    + intros k Hk (Hk0 & Hlook & _). cbn in Hlook.
      assert (k = 0 ∨ k = 1) as [-> | ->] by lia; discriminate.
  - vm_compute. intros [H _]. discriminate.
Defined.
